(** * SonarLint for VS Code: a shallow embedding of the extension client

  The development follows [src/extension.ts] (transport bootstrap,
  start-up arguments, URI encoding, ignore check, compilation-database
  conversion) and [src/scm.ts] (source-control bridge).

  JavaScript strings are sequences of UTF-16 code units; they are modelled
  as lists of integers.  Code that may throw returns an [outcome]. *)

From Stdlib Require Import ZArith QArith List Bool Lia String Ascii Arith
  DecimalString DecimalNat.
Import ListNotations.

Local Open Scope Z_scope.

Set Warnings "-register-all".

(** ** JavaScript values shared by all components *)

Module JS.

(** A string is the list of its UTF-16 code units. *)
Definition jsstring := list Z.

(** The code units of an ASCII literal. *)
Definition js (s : string) : jsstring :=
  map (fun a => Z.of_N (N_of_ascii a)) (list_ascii_of_string s).

Definition dquote : Z := 34.
Definition backslash : Z := 92.
Definition slash : Z := 47.
Definition percent : Z := 37.

Definition jsstring_eq_dec : forall a b : jsstring, {a = b} + {a <> b} :=
  list_eq_dec Z.eq_dec.

Definition jsstring_eqb (a b : jsstring) : bool :=
  if jsstring_eq_dec a b then true else false.


(** What a JavaScript statement can do: complete normally with a value, or
    throw. *)
Inductive error := TypeError | URIError | OtherError.

Inductive outcome (A : Type) :=
| Return (a : A)
| Throw (e : error).
Arguments Return {A} a.
Arguments Throw {A} e.

(** [String.prototype.startsWith]. *)
Fixpoint startsWith (s prefix : jsstring) : bool :=
  match prefix, s with
  | [], _ => true
  | p :: prefix', c :: s' => (c =? p) && startsWith s' prefix'
  | _ :: _, [] => false
  end.

(** *** Statements with effects

    A computation reads and updates a state of type [S], emits observable
    effects of type [E] (calls into the editor, the language client, the
    operating system) and either returns or throws.  The state and the
    effects emitted before a [throw] are kept, as in JavaScript. *)

Section Computation.

Context {S E : Type}.

Definition M (A : Type) : Type := S -> outcome A * S * list E.

Definition ret {A} (a : A) : M A := fun s => (Return a, s, []).

Definition bind {A B} (m : M A) (k : A -> M B) : M B :=
  fun s =>
    match m s with
    | (Return a, s', t) => let '(r, s'', t') := k a s' in (r, s'', t ++ t')
    | (Throw e, s', t) => (Throw e, s', t)
    end.

Definition throw {A} (e : error) : M A := fun s => (Throw e, s, []).

Definition emit (e : E) : M unit := fun s => (Return tt, s, [e]).

Definition get : M S := fun s => (Return s, s, []).

Definition put (s : S) : M unit := fun _ => (Return tt, s, []).

(** [try { m } catch (e) { h e }]. *)
Definition try_catch {A} (m : M A) (h : error -> M A) : M A :=
  fun s =>
    match m s with
    | (Return a, s', t) => (Return a, s', t)
    | (Throw e, s', t) => let '(r, s'', t') := h e s' in (r, s'', t ++ t')
    end.

(** The result of an expression that may throw. *)
Definition lift {A} (r : outcome A) : M A :=
  match r with
  | Return a => ret a
  | Throw e => throw e
  end.

(** [l.forEach(body)]. *)
Fixpoint forEach {A} (body : A -> M unit) (l : list A) : M unit :=
  match l with
  | [] => ret tt
  | x :: l' => bind (body x) (fun _ => forEach body l')
  end.

End Computation.

Arguments M : clear implicits.

Declare Scope js_scope.
Delimit Scope js_scope with js.
Notation "x <- m ;; k" := (bind m (fun x => k))
  (at level 61, m at next level, right associativity) : js_scope.
Notation "m ;; k" := (bind m (fun _ => k))
  (at level 61, right associativity) : js_scope.

End JS.
Import JS.


(** ** String methods used on settings and paths *)

Module JSText.
Import JS.

Definition dollar : Z := 36.
Definition ampersand : Z := 38.
Definition backtick : Z := 96.
Definition apostrophe : Z := 39.

(** The first occurrence of [pattern] in [s]: what stands before it and
    what stands after it. *)
Fixpoint find (pattern s : jsstring) : option (jsstring * jsstring) :=
  match s with
  | [] => if startsWith [] pattern then Some ([], []) else None
  | c :: t =>
      if startsWith s pattern then Some ([], skipn (List.length pattern) s)
      else
        match find pattern t with
        | Some (before, after) => Some (c :: before, after)
        | None => None
        end
  end.

(** [s.includes(pattern)]. *)
Definition includes (s pattern : jsstring) : bool :=
  match find pattern s with
  | Some _ => true
  | None => false
  end.

(** The replacement text of [String.prototype.replace] for a pattern that
    is a string, so that there are no captures: [$$] is a dollar sign, [$&]
    the matched text, [$`] the text before the match and [$'] the text after
    it; every other dollar sign stands for itself. *)
Fixpoint GetSubstitution (matched before after replacement : jsstring) : jsstring :=
  match replacement with
  | [] => []
  | c :: t =>
      if c =? dollar then
        match t with
        | d :: t' =>
            if d =? dollar then dollar :: GetSubstitution matched before after t'
            else if d =? ampersand then
              matched ++ GetSubstitution matched before after t'
            else if d =? backtick then
              before ++ GetSubstitution matched before after t'
            else if d =? apostrophe then
              after ++ GetSubstitution matched before after t'
            else dollar :: GetSubstitution matched before after t
        | [] => [dollar]
        end
      else c :: GetSubstitution matched before after t
  end.

(** [s.replace(pattern, replacement)] for a pattern that is a string: the
    first occurrence only. *)
Definition replace (s pattern replacement : jsstring) : jsstring :=
  match find pattern s with
  | Some (before, after) =>
      before ++ GetSubstitution pattern before after replacement ++ after
  | None => s
  end.

(** [s.split(separator)] for a separator of one unit. *)
Fixpoint split (separator : Z) (s : jsstring) : list jsstring :=
  match s with
  | [] => [[]]
  | c :: t =>
      if c =? separator then [] :: split separator t
      else
        match split separator t with
        | piece :: pieces => (c :: piece) :: pieces
        | [] => [[c]]
        end
  end.

End JSText.
(** ** Start-up arguments: [parseVMargs]

  In the comments of this module the regular expressions of the source are
  written with [Q] for the double-quote character. *)

Module VMArgs.

(** The class [\s] of a JavaScript regular expression: white space and line
    terminators. *)
Definition is_space (c : Z) : bool :=
  ((9 <=? c) && (c <=? 13)) || (c =? 32) || (c =? 160) || (c =? 5760)
  || ((8192 <=? c) && (c <=? 8202)) || (c =? 8232) || (c =? 8233)
  || (c =? 8239) || (c =? 8287) || (c =? 12288) || (c =? 65279).

(** The class [[^\sQ]]. *)
Definition plain (c : Z) : bool := negb (is_space c) && negb (c =? dquote).

(** The class [[^Q]]. *)
Definition not_quote (c : Z) : bool := negb (c =? dquote).

(** The longest prefix whose units satisfy [p], and what follows it: a
    greedy [*] over a character class. *)
Fixpoint span (p : Z -> bool) (s : jsstring) : jsstring * jsstring :=
  match s with
  | [] => ([], [])
  | c :: t =>
      if p c then let (a, b) := span p t in (c :: a, b) else ([], s)
  end.

(** One pass through the group [(?:[^\sQ]+|Q[^Q]*Q)] at the head of [s]:
    the text it consumes and the rest, or [None] when neither alternative
    matches. *)
Definition group_iter (s : jsstring) : option (jsstring * jsstring) :=
  match s with
  | [] => None
  | c :: t =>
      if plain c then Some (span plain s)
      else if c =? dquote then
        let (body, r) := span not_quote t in
        match r with
        | q :: r' => Some (c :: body ++ [q], r')
        | [] => None
        end
      else None
  end.

(** The greedy [+] around the group, after a first successful pass consumed
    [acc]: passes are repeated until one fails.  Every pass consumes at
    least one unit, so [fuel] = length of the remaining text is enough. *)
Fixpoint group_more (fuel : nat) (acc s : jsstring) : jsstring * jsstring :=
  match fuel with
  | O => (acc, s)
  | S fuel' =>
      match group_iter s with
      | Some (m, r) => group_more fuel' (acc ++ m) r
      | None => (acc, s)
      end
  end.

(** A match of [(?:[^\sQ]+|Q[^Q]*Q)+] starting exactly at the head of [s]. *)
Definition match_at (s : jsstring) : option (jsstring * jsstring) :=
  match group_iter s with
  | Some (m, r) => Some (group_more (List.length r) m r)
  | None => None
  end.

(** [s.match(/(?:[^\sQ]+|Q[^Q]*Q)+/g)]: all matches from left to right; where
    no match starts the scan moves one unit forward. *)
Fixpoint match_all (fuel : nat) (s : jsstring) : list jsstring :=
  match fuel with
  | O => []
  | S fuel' =>
      match s with
      | [] => []
      | _ :: t =>
          match match_at s with
          | Some (m, r) => m :: match_all fuel' r
          | None => match_all fuel' t
          end
      end
  end.

(** The result of [String.prototype.match] with a global expression is
    [null] when nothing matches. *)
Definition vmargs_match (s : jsstring) : option (list jsstring) :=
  match match_all (List.length s) s with
  | [] => None
  | l => Some l
  end.

(** [arg.replace(/(\\)?Q/g, ($0, $1) => $1 ? $0 : empty)]: a double quote that
    follows a backslash is kept with it, any other double quote is
    removed. *)
Fixpoint remove_standalone_quotes (s : jsstring) : jsstring :=
  match s with
  | [] => []
  | c :: t =>
      if c =? backslash then
        match t with
        | d :: t' =>
            if d =? dquote then c :: d :: remove_standalone_quotes t'
            else c :: remove_standalone_quotes t
        | [] => [c]
        end
      else if c =? dquote then remove_standalone_quotes t
      else c :: remove_standalone_quotes t
  end.

(** [arg.replace(/(\\)Q/g, Q)]. *)
Fixpoint unescape_quotes (s : jsstring) : jsstring :=
  match s with
  | [] => []
  | c :: t =>
      if c =? backslash then
        match t with
        | d :: t' =>
            if d =? dquote then d :: unescape_quotes t'
            else c :: unescape_quotes t
        | [] => [c]
        end
      else c :: unescape_quotes t
  end.

Definition clean_arg (arg : jsstring) : jsstring :=
  unescape_quotes (remove_standalone_quotes arg).

(** [params.indexOf(arg) < 0]. *)
Definition absent (params : list jsstring) (arg : jsstring) : bool :=
  negb (existsb (jsstring_eqb arg) params).

(** The body of the [forEach]: [params] is extended in place. *)
Definition add_arg (params : list jsstring) (arg : jsstring) : list jsstring :=
  let arg' := clean_arg arg in
  if absent params arg' then params ++ [arg'] else params.

(** [parseVMargs(params, vmargsLine)]; the result is [params] after the
    call. *)
Definition parseVMargs (params : list jsstring) (vmargsLine : jsstring)
  : list jsstring :=
  match vmargsLine with
  | [] => params
  | _ =>
      match vmargs_match vmargsLine with
      | None => params
      | Some vmargs => fold_left add_arg vmargs params
      end
  end.

(** The line [-Xmx512m Q-Dfoo=bar bazQ]. *)
Definition sample_line : jsstring :=
  js "-Xmx512m " ++ [dquote] ++ js "-Dfoo=bar baz" ++ [dquote].


End VMArgs.

(** ** File paths as URLs: [toUrl]

    [toUrl] relies on two services of the platform: [Path.resolve] of Node.js
    and the global [encodeURI].  [encodeURI] and its inverse [decodeURI] are
    modelled after the ECMAScript definitions of [Encode] and [Decode];
    [Path.resolve] is a parameter of [toUrl], with the POSIX variant given
    below. *)

Module Uri.

(** *** UTF-16, UTF-8 and hexadecimal digits *)

Definition code_unit (c : Z) : Prop := 0 <= c < 65536.

Definition is_lead (c : Z) : bool := (55296 <=? c) && (c <=? 56319).
Definition is_trail (c : Z) : bool := (56320 <=? c) && (c <=? 57343).

(** [UTF16SurrogatePairToCodePoint]. *)
Definition pair_to_code_point (lead trail : Z) : Z :=
  (lead - 55296) * 1024 + (trail - 56320) + 65536.

(** [UTF16EncodeCodePoint]. *)
Definition utf16_encode (cp : Z) : jsstring :=
  if cp <? 65536 then [cp]
  else [55296 + (cp - 65536) / 1024; 56320 + (cp - 65536) mod 1024].

(** The octets of the UTF-8 encoding of a code point. *)
Definition utf8_encode (cp : Z) : list Z :=
  if cp <? 128 then [cp]
  else if cp <? 2048 then [192 + cp / 64; 128 + cp mod 64]
  else if cp <? 65536 then
    [224 + cp / 4096; 128 + (cp / 64) mod 64; 128 + cp mod 64]
  else
    [240 + cp / 262144; 128 + (cp / 4096) mod 64; 128 + (cp / 64) mod 64;
     128 + cp mod 64].

(** An octet. *)
Definition octet (b : Z) : Prop := 0 <= b < 256.

Definition is_continuation (b : Z) : bool := (128 <=? b) && (b <=? 191).

(** The code point of a sequence of octets, when the sequence is the UTF-8
    encoding of one: no stray continuation, no overlong form, no surrogate,
    nothing above U+10FFFF. *)
Definition utf8_decode (octets : list Z) : option Z :=
  match octets with
  | [b0; b1] =>
      let cp := (b0 - 192) * 64 + (b1 - 128) in
      if is_continuation b1 && (128 <=? cp) && (cp <? 2048) then Some cp
      else None
  | [b0; b1; b2] =>
      let cp := (b0 - 224) * 4096 + (b1 - 128) * 64 + (b2 - 128) in
      if is_continuation b1 && is_continuation b2
         && (2048 <=? cp) && (cp <? 65536)
         && negb ((55296 <=? cp) && (cp <=? 57343))
      then Some cp else None
  | [b0; b1; b2; b3] =>
      let cp :=
        (b0 - 240) * 262144 + (b1 - 128) * 4096 + (b2 - 128) * 64 + (b3 - 128) in
      if is_continuation b1 && is_continuation b2 && is_continuation b3
         && (65536 <=? cp) && (cp <=? 1114111)
      then Some cp else None
  | _ => None
  end.

(** The upper-case hexadecimal digit of a value below sixteen. *)
Definition hex_digit (v : Z) : Z := if v <? 10 then 48 + v else 55 + v.

(** The value of a hexadecimal digit, in either case. *)
Definition hex_value (c : Z) : option Z :=
  if (48 <=? c) && (c <=? 57) then Some (c - 48)
  else if (65 <=? c) && (c <=? 70) then Some (c - 55)
  else if (97 <=? c) && (c <=? 102) then Some (c - 87)
  else None.

(** An octet as [%XX]. *)
Definition escape_octet (b : Z) : jsstring :=
  [percent; hex_digit (b / 16); hex_digit (b mod 16)].

Definition escape_octets (octets : list Z) : jsstring :=
  flat_map escape_octet octets.

(** *** [encodeURI] *)

Definition is_alnum (c : Z) : bool :=
  ((48 <=? c) && (c <=? 57)) || ((65 <=? c) && (c <=? 90))
  || ((97 <=? c) && (c <=? 122)).

(** The reserved set [;/?:@&=+$,] together with [#]. *)
Definition uri_reserved_hash (c : Z) : bool :=
  existsb (Z.eqb c) (js ";/?:@&=+$,#").

(** Alphanumerics and [-_.!~*'()]. *)
Definition uri_unescaped (c : Z) : bool :=
  is_alnum c || existsb (Z.eqb c) (js "-_.!~*'()").

(** What [encodeURI] leaves as it is. *)
Definition unescaped_set (c : Z) : bool := uri_reserved_hash c || uri_unescaped c.

Definition prepend {A} (pre : list A) (r : outcome (list A)) : outcome (list A) :=
  match r with
  | Return l => Return (pre ++ l)
  | Throw e => Throw e
  end.

(** [encodeURI(s)]: a unit outside the unescaped set is replaced by the
    escaped octets of the UTF-8 encoding of its code point; a surrogate that
    is not part of a pair throws a [URIError]. *)
Fixpoint encodeURI (s : jsstring) : outcome jsstring :=
  match s with
  | [] => Return []
  | c :: rest =>
      if unescaped_set c then prepend [c] (encodeURI rest)
      else if is_trail c then Throw URIError
      else if is_lead c then
        match rest with
        | d :: rest' =>
            if is_trail d then
              prepend (escape_octets (utf8_encode (pair_to_code_point c d)))
                (encodeURI rest')
            else Throw URIError
        | [] => Throw URIError
        end
      else prepend (escape_octets (utf8_encode c)) (encodeURI rest)
  end.

(** *** [decodeURI] *)

(** [ParseHexOctet] on the two units at the head of [s]. *)
Definition parse_hex_octet (s : jsstring) : option (Z * jsstring) :=
  match s with
  | h :: l :: rest =>
      match hex_value h, hex_value l with
      | Some vh, Some vl => Some (16 * vh + vl, rest)
      | _, _ => None
      end
  | _ => None
  end.

(** The number of leading one bits of an octet. *)
Definition leading_ones (b : Z) : nat :=
  if b <? 128 then 0
  else if b <? 192 then 1
  else if b <? 224 then 2
  else if b <? 240 then 3
  else if b <? 248 then 4
  else 5.

(** [k] further escaped octets [%XX] at the head of [s]. *)
Fixpoint continuation_octets (k : nat) (s : jsstring) : option (list Z * jsstring) :=
  match k with
  | O => Some ([], s)
  | S k' =>
      match s with
      | p :: s1 =>
          if p =? percent then
            match parse_hex_octet s1 with
            | Some (b, s2) =>
                match continuation_octets k' s2 with
                | Some (bs, s3) => Some (b :: bs, s3)
                | None => None
                end
            | None => None
            end
          else None
      | [] => None
      end
  end.

(** The loop of [Decode] with the reserved set of [decodeURI]; every round
    consumes at least one unit, and [decodeURI] starts it with the length of
    the text as [fuel]. *)
Fixpoint decode_loop (fuel : nat) (s : jsstring) : outcome jsstring :=
  match s with
  | [] => Return []
  | c :: t =>
      match fuel with
      | O => Throw OtherError
      | S fuel' =>
          if c =? percent then
            match parse_hex_octet t with
            | None => Throw URIError
            | Some (b, t1) =>
                match leading_ones b with
                | O =>
                    if uri_reserved_hash b
                    then prepend (firstn 3 s) (decode_loop fuel' t1)
                    else prepend [b] (decode_loop fuel' t1)
                | S O => Throw URIError
                | S n' =>
                    if (4 <? Z.of_nat (S n')) then Throw URIError
                    else
                      match continuation_octets n' t1 with
                      | None => Throw URIError
                      | Some (bs, t2) =>
                          match utf8_decode (b :: bs) with
                          | None => Throw URIError
                          | Some cp =>
                              prepend (utf16_encode cp) (decode_loop fuel' t2)
                          end
                      end
                end
            end
          else prepend [c] (decode_loop fuel' t)
      end
  end.

Definition decodeURI (s : jsstring) : outcome jsstring :=
  decode_loop (List.length s) s.

(** A string [encodeURI] accepts: every surrogate is half of a pair. *)
Fixpoint well_formed (s : jsstring) : bool :=
  match s with
  | [] => true
  | c :: rest =>
      if is_trail c then false
      else if is_lead c then
        match rest with
        | d :: rest' => is_trail d && well_formed rest'
        | [] => false
        end
      else well_formed rest
  end.

(** *** [toUrl] *)

(** [s.replace(/\\/g, '/')]. *)
Definition replace_backslashes (s : jsstring) : jsstring :=
  map (fun c => if c =? backslash then slash else c) s.

(** The step of [toUrl] that prefixes a slash: [pathName[0] !== '/']. *)
Definition ensure_leading_slash (pathName : jsstring) : jsstring :=
  match pathName with
  | c :: _ => if c =? slash then pathName else slash :: pathName
  | [] => slash :: pathName
  end.

Section ToUrl.

(** [Path.resolve] with one argument, of the platform the extension runs
    on. *)
Variable resolve : jsstring -> jsstring.

Definition toUrl (filePath : jsstring) : outcome jsstring :=
  let pathName := replace_backslashes (resolve filePath) in
  let pathName := ensure_leading_slash pathName in
  encodeURI (js "file://" ++ pathName).

End ToUrl.

(** *** [Path.resolve] on POSIX

    Node's [path.posix.resolve] with one argument: a relative path is put
    after the working directory, then the segments between slashes are
    normalised ([.] and empty segments go, [..] removes the segment before
    it and is dropped at the root). *)

(** The segments of a path: the texts between slashes. *)
Fixpoint segments (cur : jsstring) (s : jsstring) : list jsstring :=
  match s with
  | [] => [cur]
  | c :: t => if c =? slash then cur :: segments [] t else segments (cur ++ [c]) t
  end.

Definition dot : Z := 46.

(** [normalizeString] without leave to climb above the root; [acc] holds the
    segments kept so far, last first. *)
Fixpoint normalize_segments (acc : list jsstring) (segs : list jsstring)
  : list jsstring :=
  match segs with
  | [] => rev acc
  | seg :: segs' =>
      if jsstring_eqb seg [] || jsstring_eqb seg [dot] then
        normalize_segments acc segs'
      else if jsstring_eqb seg [dot; dot] then
        normalize_segments (tl acc) segs'
      else normalize_segments (seg :: acc) segs'
  end.

Definition join_segments (segs : list jsstring) : jsstring :=
  flat_map (fun seg => slash :: seg) segs.

Definition is_absolute (p : jsstring) : bool :=
  match p with
  | c :: _ => c =? slash
  | [] => false
  end.

(** The loop of [resolve] over its arguments, last first: each non-empty
    argument is put in front, with a slash, until one is absolute. *)
Fixpoint join_until_absolute (args_rev : list jsstring) (resolvedPath : jsstring)
  : jsstring * bool :=
  match args_rev with
  | [] => (resolvedPath, false)
  | p :: rest =>
      match p with
      | [] => join_until_absolute rest resolvedPath
      | _ =>
          let resolvedPath := p ++ [slash] ++ resolvedPath in
          if is_absolute p then (resolvedPath, true)
          else join_until_absolute rest resolvedPath
      end
  end.

(** [path.posix.resolve(...args)]; [cwd] is the working directory of the
    process, an absolute path. *)
Definition posix_resolve_all (cwd : jsstring) (args : list jsstring) : jsstring :=
  let (joined, absolute) := join_until_absolute (rev args) [] in
  let full := if absolute then joined else cwd ++ [slash] ++ joined in
  match normalize_segments [] (segments [] full) with
  | [] => [slash]
  | segs => join_segments segs
  end.

Definition posix_resolve (cwd : jsstring) (p : jsstring) : jsstring :=
  posix_resolve_all cwd [p].

End Uri.

(** ** The source-control bridge: [src/scm.ts] *)

Module Scm.

Local Open Scope js_scope.

(** *** The editor and the Git extension, as the bridge sees them *)

(** [vscode.Uri], with its [toString()]. *)
Record Uri := mkUri { toString : jsstring }.

(** [Ref] of the Git extension: [name?: string]. *)
Record Ref := mkRef { name : option jsstring }.

(** [RepositoryState]: [HEAD: Branch | undefined]. *)
Record RepositoryState := mkRepositoryState { HEAD : option Ref }.

(** A repository object as it is when it is read. *)
Record Repository := mkRepository { rootUri : Uri; state : RepositoryState }.

Record WorkspaceFolder := mkWorkspaceFolder { uri : Uri }.

Inductive APIState := uninitialized | initialized.

(** The Git API object: [state], [repositories] and [getRepository(uri)],
    which answers [null] for a URI that no repository contains. *)
Record API := mkAPI {
  api_state : APIState;
  repositories : list Repository;
  getRepository : Uri -> option Repository
}.

(** What the bridge reads from its surroundings: the Git API and
    [vscode.workspace.workspaceFolders], which is [undefined] when no folder
    is open. *)
Record Env := mkEnv {
  gitApi : API;
  workspaceFolders : option (list WorkspaceFolder)
}.

(** The event subscriptions of the bridge. *)
Inductive Subscription :=
| OnDidOpenRepository
| OnDidChangeState
| OnDidChange (repository : Repository).

(** The [vscode.Disposable] that a subscription returns. *)
Record Disposable := mkDisposable { subscription : Subscription }.

(** The calls that leave the bridge. *)
Inductive Effect :=
| Subscribe (s : Subscription)
| LogInitializing (folder : Uri) (branchName : option jsstring)
| LogFolderIsNowOnBranch (folder : Uri) (branchName : option jsstring)
| LogInitException (e : error)
| DidLocalBranchNameChange (folderUri : Uri) (branchName : option jsstring)
| CallDispose (d : Disposable).

(** The state of a [GitScm] object is its private array [listeners]. *)
Definition Bridge := M (list Disposable) Effect.

(** An absent value: [undefined] or [null]. *)
Definition absent {A} : option A := None.

(** [repository.state.HEAD?.name]. *)
Definition head_name (repository : Repository) : option jsstring :=
  match HEAD (state repository) with
  | Some head => name head
  | None => absent
  end.

(** [vscode.workspace.workspaceFolders.forEach(body)]: a [TypeError] when
    the folders are [undefined]. *)
Definition workspaceFolders_forEach (env : Env)
  (body : WorkspaceFolder -> Bridge unit) : Bridge unit :=
  match workspaceFolders env with
  | Some folders => forEach body folders
  | None => throw TypeError
  end.

(** *** [GitScm] *)

(** The listener that [subscribeToRepositoryChanges] registers on
    [repository.state.onDidChange]; [repository] is the repository object as
    it is when the event fires. *)
Definition onRepositoryChange (env : Env) (repository : Repository) : Bridge unit :=
  workspaceFolders_forEach env (fun folder =>
    if startsWith (toString (uri folder)) (toString (rootUri repository)) then
      let branchName := head_name repository in
      emit (LogFolderIsNowOnBranch (uri folder) branchName) ;;
      emit (DidLocalBranchNameChange (uri folder) branchName)
    else ret tt).

(** [subscribeToRepositoryChanges(repository)]: the subscription is made and
    its disposable is pushed on [listeners]. *)
Definition subscribeToRepositoryChanges (repository : Repository) : Bridge unit :=
  emit (Subscribe (OnDidChange repository)) ;;
  listeners <- get ;;
  put (listeners ++ [mkDisposable (OnDidChange repository)]).

(** [subscribeToAllRepositoryChanges()]. *)
Definition subscribeToAllRepositoryChanges (env : Env) : Bridge unit :=
  forEach subscribeToRepositoryChanges (repositories (gitApi env)) ;;
  workspaceFolders_forEach env (fun folder =>
    let branchName :=
      match getRepository (gitApi env) (uri folder) with
      | Some repository => head_name repository
      | None => absent
      end in
    emit (LogInitializing (uri folder) branchName) ;;
    emit (DidLocalBranchNameChange (uri folder) branchName)).

(** The listener on [gitApi.onDidChangeState]. *)
Definition onStateChange (env : Env) (newState : APIState) : Bridge unit :=
  match newState with
  | initialized => subscribeToAllRepositoryChanges env
  | uninitialized => ret tt
  end.

(** The listener on [gitApi.onDidOpenRepository]. *)
Definition onOpenRepository (r : Repository) : Bridge unit :=
  subscribeToRepositoryChanges r.

(** The constructor; it starts from an object without listeners. *)
Definition constructor (env : Env) : Bridge unit :=
  emit (Subscribe OnDidOpenRepository) ;;
  put [mkDisposable OnDidOpenRepository] ;;
  match api_state (gitApi env) with
  | initialized => subscribeToAllRepositoryChanges env
  | uninitialized => emit (Subscribe OnDidChangeState)
  end.

Section Dispose.

(** What [d.dispose()] does is up to the object that the event emitter
    handed out: it returns or it throws. *)
Variable dispose_of : Disposable -> outcome unit.

Definition call_dispose (d : Disposable) : Bridge unit :=
  emit (CallDispose d) ;; lift (dispose_of d).

(** [GitScm.dispose()]. *)
Definition GitScm_dispose : Bridge unit :=
  listeners <- get ;;
  forEach (fun d => try_catch (call_dispose d) (fun _ => ret tt)) listeners.

End Dispose.

(** [GitScm.getBranchForFolder(folderUri)]:
    [this.gitApi.getRepository(folderUri).state.HEAD?.name], where reading
    [state] of [null] is a [TypeError]. *)
Definition GitScm_getBranchForFolder (api : API) (folderUri : Uri)
  : outcome (option jsstring) :=
  match getRepository api folderUri with
  | Some repository => Return (head_name repository)
  | None => Throw TypeError
  end.

(** *** What the language client is told *)

Definition uri_eqb (a b : Uri) : bool := jsstring_eqb (toString a) (toString b).

(** The branch names of the [didLocalBranchNameChange] notifications sent
    for the folder [folderUri], in the order they are sent. *)
Fixpoint notifications_for (folderUri : Uri) (trace : list Effect)
  : list (option jsstring) :=
  match trace with
  | [] => []
  | DidLocalBranchNameChange u branchName :: trace' =>
      if uri_eqb u folderUri then branchName :: notifications_for folderUri trace'
      else notifications_for folderUri trace'
  | _ :: trace' => notifications_for folderUri trace'
  end.

(** All [didLocalBranchNameChange] notifications of a trace. *)
Fixpoint notifications (trace : list Effect) : list (Uri * option jsstring) :=
  match trace with
  | [] => []
  | DidLocalBranchNameChange u branchName :: trace' =>
      (u, branchName) :: notifications trace'
  | _ :: trace' => notifications trace'
  end.

(** The effects of a run. *)
Definition trace_of {A} (run : outcome A * list Disposable * list Effect)
  : list Effect := snd run.

(** [folder.uri.toString().startsWith(repository.rootUri.toString())]. *)
Definition under_root (repository : Repository) (folder : WorkspaceFolder) : bool :=
  startsWith (toString (uri folder)) (toString (rootUri repository)).

(** [this.gitApi.getRepository(folder.uri)?.state.HEAD?.name]. *)
Definition initial_branch (api : API) (folder : WorkspaceFolder) : option jsstring :=
  match getRepository api (uri folder) with
  | Some repository => head_name repository
  | None => absent
  end.

(** The effects of the change listener on one folder. *)
Definition change_effects (repository : Repository) (folder : WorkspaceFolder)
  : list Effect :=
  if under_root repository folder then
    [LogFolderIsNowOnBranch (uri folder) (head_name repository);
     DidLocalBranchNameChange (uri folder) (head_name repository)]
  else [].

(** The effects of the initial enumeration on one folder. *)
Definition initial_effects (api : API) (folder : WorkspaceFolder) : list Effect :=
  [LogInitializing (uri folder) (initial_branch api folder);
   DidLocalBranchNameChange (uri folder) (initial_branch api folder)].

(** Sample surroundings: a repository at [file:///w] on branch [main], and
    the folders [file:///w/app] (inside it) and [file:///tmp/x] (outside). *)
Definition sample_repository : Repository :=
  mkRepository (mkUri (js "file:///w"))
    (mkRepositoryState (Some (mkRef (Some (js "main"))))).

Definition folder_app : WorkspaceFolder := mkWorkspaceFolder (mkUri (js "file:///w/app")).
Definition folder_tmp : WorkspaceFolder := mkWorkspaceFolder (mkUri (js "file:///tmp/x")).

Definition sample_api : API :=
  mkAPI initialized [sample_repository]
    (fun u => if startsWith (toString u) (js "file:///w/")
              then Some sample_repository else None).

(** A Git API that knows no repository at all. *)
Definition empty_api (st : APIState) : API := mkAPI st [] (fun _ => None).

(** *** The interface [Scm] and its two implementations *)

Record GitScm := mkGitScm { git_api : API; listeners : list Disposable }.

Inductive NoopScm := mkNoopScm.

Class Scm (T : Type) := {
  getBranchForFolder : T -> Uri -> outcome (option jsstring);
  dispose : (Disposable -> outcome unit) -> T -> outcome unit * T * list Effect
}.

#[export] Instance NoopScm_Scm : Scm NoopScm := {
  getBranchForFolder _ _ := Return absent;
  dispose _ scm := (Return tt, scm, [])
}.

#[export] Instance GitScm_Scm : Scm GitScm := {
  getBranchForFolder scm folderUri := GitScm_getBranchForFolder (git_api scm) folderUri;
  dispose dispose_of scm :=
    let '(r, l, t) := GitScm_dispose dispose_of (listeners scm) in
    (r, mkGitScm (git_api scm) l, t)
}.

(** What [initScm] returns. *)
Inductive AnyScm :=
| Git (scm : GitScm)
| Noop (scm : NoopScm).

(** [initScm(client)].  [extension] is what
    [vscode.extensions.getExtension('vscode.git')] answers: nothing, or an
    extension whose [exports] may be missing and whose [getAPI(1)] returns
    the API or throws; the surroundings other than the Git API are in
    [folders]. *)
Definition initScm (extension : option (option (outcome API)))
  (folders : option (list WorkspaceFolder)) : AnyScm * list Effect :=
  let attempt : outcome API :=
    match extension with
    | None => Throw TypeError
    | Some None => Throw TypeError
    | Some (Some api) => api
    end in
  match attempt with
  | Throw e => (Noop mkNoopScm, [LogInitException e])
  | Return api =>
      match constructor (mkEnv api folders) [] with
      | (Return _, l, t) => (Git (mkGitScm api l), t)
      | (Throw e, _, t) => (Noop mkNoopScm, t ++ [LogInitException e])
      end
  end.

End Scm.

(** ** The ignore check: [performIsIgnoredCheck] *)

Module IgnoreCheck.

Local Open Scope js_scope.

(** A parsed [vscode.Uri] with its [fsPath]. *)
Record Uri := mkUri { fsPath : jsstring }.

Record WorkspaceFolder := mkWorkspaceFolder { uri : Uri }.

(** The API of the Git extension, of which the check reads [git.path]. *)
Record API := mkAPI { git_path : jsstring }.

(** [GitExtension]: [getAPI(1)] returns the API or throws. *)
Record GitExtension := mkGitExtension { getAPI : outcome API }.

(** [vscode.Extension]: [exports] may be missing. *)
Record Extension := mkExtension { exports : option GitExtension }.

(** The editor, as the check sees it. *)
Record Env := mkEnv {
  (** [VSCode.Uri.parse(fileUri)] *)
  Uri_parse : jsstring -> outcome Uri;
  (** [VSCode.workspace.getWorkspaceFolder(uri)] *)
  getWorkspaceFolder : Uri -> option WorkspaceFolder;
  (** [VSCode.workspace.asRelativePath(uri, false)] *)
  asRelativePath : Uri -> jsstring;
  (** [VSCode.extensions.getExtension('vscode.git')] *)
  getExtension : option Extension
}.

(** The calls that leave the check. *)
Inductive Effect :=
| CallUriParse (fileUri : jsstring)
| CallGetWorkspaceFolder (u : Uri)
| CallAsRelativePath (u : Uri)
| CallGetExtension
| CallGetAPI
| CallScmCheck (workspaceFolderPath gitCommand : jsstring).

(** The check has no state of its own.  It is an [async] function: [Return]
    stands for a promise that resolves, [Throw] for one that rejects. *)
Definition Check := M unit Effect.

(** The template [`Q${gitPath}Q check-ignore ${relativeFileUri}`], with [Q]
    for the double quote. *)
Definition git_command (gitPath relativeFileUri : jsstring) : jsstring :=
  [dquote] ++ gitPath ++ [dquote] ++ js " check-ignore " ++ relativeFileUri.

Section PerformIsIgnoredCheck.

Variable env : Env.

(** The callback [scmCheck(workspaceFolderPath, gitCommand)]: its promise
    resolves to a boolean or rejects. *)
Variable scmCheck : jsstring -> jsstring -> outcome bool.

Definition performIsIgnoredCheck (fileUri : jsstring) : Check bool :=
  emit (CallUriParse fileUri) ;;
  parsedFileUri <- lift (Uri_parse env fileUri) ;;
  emit (CallGetWorkspaceFolder parsedFileUri) ;;
  match getWorkspaceFolder env parsedFileUri with
  | None => ret false
  | Some workspaceFolder =>
      emit (CallAsRelativePath parsedFileUri) ;;
      let relativeFileUri := asRelativePath env parsedFileUri in
      emit CallGetExtension ;;
      (* [getExtension(...).exports]: a [TypeError] when there is no such
         extension *)
      gitExtension <-
        match getExtension env with
        | Some extension => ret (exports extension)
        | None => throw TypeError
        end ;;
      match gitExtension with
      | None => ret false
      | Some gitExtension =>
          try_catch
            (emit CallGetAPI ;;
             api <- lift (getAPI gitExtension) ;;
             let gitPath := git_path api in
             let command := git_command gitPath relativeFileUri in
             emit (CallScmCheck (fsPath (uri workspaceFolder)) command) ;;
             fileIgnoredForFolder <-
               lift (scmCheck (fsPath (uri workspaceFolder)) command) ;;
             ret fileIgnoredForFolder)
            (fun _ => ret false)
      end
  end.

End PerformIsIgnoredCheck.

(** Whether an effect is a call to the Git extension or a run of a Git
    command. *)
Definition touches_git (e : Effect) : bool :=
  match e with
  | CallGetExtension | CallGetAPI | CallScmCheck _ _ => true
  | _ => false
  end.

(** Sample surroundings: the file [/w/a.c] in the workspace folder [/w]. *)
Definition sample_folder : WorkspaceFolder := mkWorkspaceFolder (mkUri (js "/w")).

Definition sample_env (extension : option Extension) (inside : bool) : Env :=
  mkEnv (fun _ => Return (mkUri (js "/w/a.c")))
        (fun _ => if inside then Some sample_folder else None)
        (fun _ => js "a.c")
        extension.

End IgnoreCheck.

(** ** The transport bootstrapper: [runJavaServer] *)

Module Bootstrap.

(** *** The command line of the server: [languageServerCommand] *)

(** What the command line is computed from. *)
Record Config := mkConfig {
  (** the constant [DEBUG] *)
  DEBUG : bool;
  (** the setting [sonarlint.ls.vmargs] *)
  vmargs : jsstring;
  (** [isVerboseEnabled()] *)
  verbose : bool;
  (** [context.extensionPath] *)
  extensionPath : jsstring;
  (** [FS.existsSync] of the secrets analyzer *)
  secrets_exists : bool
}.

Record RequirementsData := mkRequirementsData { javaHome : jsstring }.

(** The template [`${port}`] for a port number. *)
Definition port_string (port : Z) : jsstring :=
  js (NilZero.string_of_uint (N.to_uint (Z.to_N port))).

Section Command.

(** [Path.resolve(...segments)] of the platform. *)
Variable resolve : list jsstring -> jsstring.

Definition toUrl (filePath : jsstring) : outcome jsstring :=
  Uri.toUrl (fun p => resolve [p]) filePath.

Definition analyzer (cfg : Config) (jar : string) : jsstring :=
  resolve [extensionPath cfg; js "analyzers"; js jar].

(** [params.push(toUrl(p))] for each of [paths], in order. *)
Fixpoint push_urls (params : list jsstring) (paths : list jsstring)
  : outcome (list jsstring) :=
  match paths with
  | [] => Return params
  | p :: paths' =>
      match toUrl p with
      | Return url => push_urls (params ++ [url]) paths'
      | Throw e => Throw e
      end
  end.

Definition languageServerCommand (cfg : Config) (requirements : RequirementsData)
  (port : Z) : outcome (jsstring * list jsstring) :=
  let serverJar := resolve [extensionPath cfg; js "server"; js "sonarlint-ls.jar"] in
  let javaExecutablePath := resolve [javaHome requirements ++ js "/bin/java"] in
  let params : list jsstring := [] in
  let params :=
    if DEBUG cfg then
      params ++ [js "-agentlib:jdwp=transport=dt_socket,server=y,suspend=n,address=8000";
                 js "-Dsonarlint.telemetry.disabled=true"]
    else params in
  let params := VMArgs.parseVMargs params (vmargs cfg) in
  let params := params ++ [js "-jar"; serverJar; port_string port] in
  let params := params ++ [js "-analyzers"] in
  match push_urls params
          [analyzer cfg "sonarjava.jar"; analyzer cfg "sonarjs.jar";
           analyzer cfg "sonarphp.jar"; analyzer cfg "sonarpython.jar";
           analyzer cfg "sonarhtml.jar"] with
  | Throw e => Throw e
  | Return params =>
      if secrets_exists cfg then
        match push_urls (params ++ [js "-extraAnalyzers"])
                [analyzer cfg "sonarsecrets.jar"] with
        | Throw e => Throw e
        | Return params => Return (javaExecutablePath, params)
        end
      else Return (javaExecutablePath, params)
  end.

(** *** The bootstrap as a reactive system

    [runJavaServer] only registers callbacks; what happens next is decided
    by the events that Node.js delivers to them. *)

(** A socket handed to the connection listener. *)
Record Socket := mkSocket { socket_id : nat }.

(** [StreamInfo]: [{ reader, writer }]. *)
Record StreamInfo := mkStreamInfo { reader : Socket; writer : Socket }.

Inductive Event :=
| RequirementsResolved (requirements : RequirementsData)
| RequirementsRejected
| Listening (port : Z)
| Connection (socket : Socket).

Inductive Action :=
| ShowErrorMessage
| CreateServer
| Listen (port : Z)
| LogChildConnected (port : Z)
| LogExecuting (command : jsstring) (args : list jsstring)
| Spawn (command : jsstring) (args : list jsstring)
| OnStdoutData
| OnStderrData
| Resolve (streams : StreamInfo)
| Reject
| Uncaught (e : error).

(** Where the bootstrap stands: waiting for the requirements; given up;
    server created and [listen] called (its callback not yet run); callback
    run, on the port the operating system assigned. *)
Inductive Phase :=
| AwaitingRequirements
| GivenUp
| ListenCalled (requirements : RequirementsData)
| Active (port : Z).

(** The promise that [runJavaServer] returns: pending, or settled. *)
Inductive Promise :=
| Pending
| Resolved (streams : StreamInfo)
| Rejected.

Record State := mkState { phase : Phase; promise : Promise }.

Definition initial : State := mkState AwaitingRequirements Pending.

(** [resolve(v)] on a settled promise changes nothing. *)
Definition settle (p : Promise) (v : StreamInfo) : Promise :=
  match p with
  | Pending => Resolved v
  | _ => p
  end.

Variable cfg : Config.

(** The callback that runs on an event, in a given state.  The callback of
    [listen] runs once, when the server has started to listen, and
    [server.address().port] is then the port that the operating system
    assigned; the connection listener runs for each connection that the
    listening server accepts. *)
Definition step (st : State) (ev : Event) : State * list Action :=
  match ev, phase st with
  | RequirementsRejected, AwaitingRequirements =>
      (mkState GivenUp Rejected, [ShowErrorMessage; Reject])
  | RequirementsResolved requirements, AwaitingRequirements =>
      (mkState (ListenCalled requirements) (promise st), [CreateServer; Listen 0])
  | Listening port, ListenCalled requirements =>
      match languageServerCommand cfg requirements port with
      | Return (command, args) =>
          (mkState (Active port) (promise st),
           (if verbose cfg then [LogExecuting command args] else [])
           ++ [Spawn command args; OnStdoutData; OnStderrData])
      | Throw e => (mkState (Active port) (promise st), [Uncaught e])
      end
  | Connection socket, Active port =>
      (mkState (phase st) (settle (promise st) (mkStreamInfo socket socket)),
       (if verbose cfg then [LogChildConnected port] else [])
       ++ [Resolve (mkStreamInfo socket socket)])
  | _, _ => (st, [])
  end.

(** What is observed: the events delivered and the actions taken. *)
Inductive Entry :=
| Delivered (ev : Event)
| Did (a : Action).

Fixpoint run (st : State) (evs : list Event) : State * list Entry :=
  match evs with
  | [] => (st, [])
  | ev :: evs' =>
      let (st1, acts) := step st ev in
      let (st2, rest) := run st1 evs' in
      (st2, Delivered ev :: map Did acts ++ rest)
  end.

End Command.

(** Once [listen] has been called the trace shows it, with port 0. *)
Definition listen_recorded (st : State) (trace : list Entry) : Prop :=
  match phase st with
  | ListenCalled _ | Active _ => In (Did (Listen 0)) trace
  | _ => True
  end.


(** A sample run: the requirements resolve, the server listens on port 4242,
    the child connects. *)
Definition sample_config : Config :=
  mkConfig false VMArgs.sample_line true (js "/ext") true.

Definition sample_events : list Event :=
  [RequirementsResolved (mkRequirementsData (js "/jre"));
   Listening 4242;
   Connection (mkSocket 1)].

End Bootstrap.


(** ** The environment of the captures: [convertCompilationDB], first part *)

Module BuildEnv.

Section Environment.

(** [Path.join(dir, name)]. *)
Variable join : jsstring -> jsstring -> jsstring.

(** Whether [FS.accessSync(path, R_OK | X_OK)] returns (it throws
    otherwise). *)
Variable accessible : jsstring -> bool.

(** [['PATH', dir].join('=')] and [[key, value].join('=')]. *)
Definition assignment (name value : jsstring) : jsstring := name ++ [61] ++ value.

(** The loop over the segments of [PATH]: the first directory that holds the
    compiler. *)
Fixpoint find_compiler (buildWrapperCompiler : jsstring) (pathSegments : list jsstring)
  : option jsstring :=
  match pathSegments with
  | [] => None
  | dir :: pathSegments' =>
      if accessible (join dir buildWrapperCompiler) then Some dir
      else find_compiler buildWrapperCompiler pathSegments'
  end.

(** The array [environment]: [buildWrapperEnv] is the setting of that name,
    [pathSegments] the segments of [process.env.PATH] and [process_env] the
    entries of [process.env]. *)
Definition environment (buildWrapperEnv : list jsstring)
  (buildWrapperCompiler : jsstring) (pathSegments : list jsstring)
  (process_env : list (jsstring * jsstring)) : list jsstring :=
  match buildWrapperEnv with
  | _ :: _ => buildWrapperEnv
  | [] =>
      match find_compiler buildWrapperCompiler pathSegments with
      | Some dir => [assignment (js "PATH") dir]
      | None => map (fun kv => assignment (fst kv) (snd kv)) process_env
      end
  end.

End Environment.

End BuildEnv.
(** ** The compilation database: [convertCompilationDB] *)

Module CompilationDB.

Local Open Scope js_scope.

(** *** Parsed JSON *)

(** A JavaScript number. *)
Inductive Number :=
| NaN
| PositiveInfinity
| NegativeInfinity
| Finite (q : Q).

(** What [JSON.parse] returns. *)
Inductive JSON :=
| JNull
| JBool (b : bool)
| JNumber (x : Number)
| JString (s : jsstring)
| JArray (items : list JSON)
| JObject (fields : list (jsstring * JSON)).

(** A JavaScript value read from parsed JSON: [None] is [undefined]. *)
Definition value := option JSON.

(** The last field of that name: in [JSON.parse] a repeated key overrides
    the earlier ones. *)
Fixpoint lookup (key : jsstring) (fields : list (jsstring * JSON)) : value :=
  match fields with
  | [] => None
  | (k, v) :: fields' =>
      match lookup key fields' with
      | Some later => Some later
      | None => if jsstring_eqb k key then Some v else None
      end
  end.

(** [v.key] for one of the keys [arguments], [command], [directory], which
    no string, number, boolean or array carries: a [TypeError] on [null] and
    on [undefined]. *)
Definition property (v : value) (key : jsstring) : outcome value :=
  match v with
  | None | Some JNull => Throw TypeError
  | Some (JObject fields) => Return (lookup key fields)
  | Some _ => Return None
  end.

(** [v?.key]. *)
Definition optional_property (v : value) (key : jsstring) : value :=
  match v with
  | Some (JObject fields) => lookup key fields
  | _ => None
  end.

(** Whether [||], [&&] and [!] take a value as true. *)
Definition truthy (v : value) : bool :=
  match v with
  | None | Some JNull => false
  | Some (JBool b) => b
  | Some (JNumber NaN) => false
  | Some (JNumber (Finite q)) => negb (Qeq_bool q 0)
  | Some (JNumber _) => true
  | Some (JString s) => match s with [] => false | _ => true end
  | Some (JArray _) | Some (JObject _) => true
  end.

(** The property name of an index. *)
Definition index_key (index : nat) : jsstring :=
  js (NilZero.string_of_uint (Nat.to_uint index)).

(** [data[index]]. *)
Definition item (data : JSON) (index : nat) : value :=
  match data with
  | JArray items => nth_error items index
  | JString s => option_map (fun c => JString [c]) (nth_error s index)
  | JObject fields => lookup (index_key index) fields
  | _ => None
  end.

(** [args[0]]. *)
Definition first_item (args : JSON) : value := item args 0.

Definition number_of_nat (n : nat) : Number := Finite (inject_Z (Z.of_nat n)).

(** [data.length]: a [TypeError] on [null]. *)
Definition length_of (data : JSON) : outcome value :=
  match data with
  | JNull => Throw TypeError
  | JArray items => Return (Some (JNumber (number_of_nat (List.length items))))
  | JString s => Return (Some (JNumber (number_of_nat (List.length s))))
  | JObject fields => Return (lookup (js "length") fields)
  | JBool _ | JNumber _ => Return None
  end.

(** [index < len] for an index and a number. *)
Definition below (index : nat) (len : Number) : bool :=
  match len with
  | Finite q => negb (Qle_bool q (inject_Z (Z.of_nat index)))
  | PositiveInfinity => true
  | NaN | NegativeInfinity => false
  end.

(** How many properties a value holds at most. *)
Definition size (data : JSON) : nat :=
  match data with
  | JArray items => List.length items
  | JString s => List.length s
  | JObject fields => List.length fields
  | _ => 0%nat
  end.

(** *** The dump *)

(** One capture; a property whose value is [undefined] is left out by
    [JSON.stringify]. *)
Record Capture := mkCapture {
  compiler : jsstring;
  cwd : value;
  executable : value;
  cmd : JSON;
  env : list jsstring
}.

Record Dump := mkDump { version : Z; captures : list Capture }.

(** *** The surroundings *)

(** What the function reads: the files, the editor and the process. *)
Record World := mkWorld {
  (** [compilationDBFile.fsPath] *)
  compilationDatabaseFile : jsstring;
  (** the modification time of a file, in milliseconds; [None] when the
      file does not exist *)
  mtime : jsstring -> option Z;
  (** the [uri.fsPath] of [getWorkspaceFolder(compilationDBFile)]; [None]
      when the file is in no workspace folder *)
  workspacefolder : option jsstring;
  (** the settings of [sonarlint.cfamily]; [None] when a setting is not set *)
  setting_buildWrapperOutput : option jsstring;
  setting_buildWrapperEnv : option (list jsstring);
  setting_buildWrapperCompiler : option jsstring;
  (** the setting [sonarlint.analyzerProperties]: an object, taken as one
      that the function can assign to; [None] when it is not set *)
  setting_analyzerProperties : option (list (jsstring * JSON));
  (** [process.env.PATH]; [None] when the variable is not set *)
  process_env_PATH : option jsstring;
  (** the entries of [process.env], in the order of [Object.keys] *)
  process_env : list (jsstring * jsstring);
  (** the unit of [Path.delimiter] *)
  delimiter : Z;
  (** whether [FS.accessSync(path, R_OK | X_OK)] returns *)
  accessible : jsstring -> bool;
  (** what [FS.readFile] hands to its callback: the text, or an error *)
  database_text : option jsstring
}.

(** What the callback of [FS.readFile] keeps of the function that made
    it. *)
Record Context := mkContext {
  context_file : jsstring;
  buildWrapperCompiler : jsstring;
  environment : list jsstring;
  buildWrapperMapFile : jsstring
}.

Inductive Effect :=
| UpdateAnalyzerProperties (analyzerProperties : list (jsstring * JSON))
| ConsoleTime
| ReadFile (path : jsstring)
| ShlexSplit (command : jsstring)
| Mkdir_dirname (path : jsstring)
| WriteFile (path : jsstring) (dump : Dump)
| ConsoleTimeEnd.

Definition Convert := M unit Effect.

(** [analyzerProperties[key] = text]. *)
Definition assign (key : jsstring) (text : jsstring)
  (analyzerProperties : list (jsstring * JSON)) : list (jsstring * JSON) :=
  analyzerProperties ++ [(key, JString text)].

(** [v.includes(pattern)]: strings and arrays have the method; calling it
    on anything else is a [TypeError]. *)
Definition method_includes (v : value) (pattern : jsstring) : outcome bool :=
  match v with
  | Some (JString s) => Return (JSText.includes s pattern)
  | Some (JArray items) =>
      Return (existsb (fun x => match x with
                                | JString s => jsstring_eqb s pattern
                                | _ => false
                                end) items)
  | _ => Throw TypeError
  end.

(** [v.replace(pattern, replacement)]: only strings have the method. *)
Definition method_replace (v : value) (pattern replacement : jsstring)
  : outcome jsstring :=
  match v with
  | Some (JString s) => Return (JSText.replace s pattern replacement)
  | _ => Throw TypeError
  end.

(** The text [${workspaceFolder}]. *)
Definition workspaceFolder_variable : jsstring := js "${workspaceFolder}".

Definition build_wrapper_output_key : jsstring := js "sonar.cfamily.build-wrapper-output".
Definition cache_path_key : jsstring := js "sonar.cfamily.cache.path".

Section Convert.

(** [Path.join(a, b)]. *)
Variable join : jsstring -> jsstring -> jsstring.

(** [JSON.parse]. *)
Variable JSON_parse : jsstring -> outcome JSON.

(** [shlex.split] of the package [shlex]. *)
Variable shlex_split : jsstring -> outcome (list jsstring).

(** The number that a string stands for, and [Array.prototype.toString],
    which throws when an element cannot be made a string. *)
Variable StringToNumber : jsstring -> Number.
Variable Array_toString : list JSON -> outcome jsstring.

(** The number that [<] compares: an object that has a property [toString]
    of its own, which parsed JSON cannot make a function, has no primitive
    value. *)
Definition ToNumber (v : value) : outcome Number :=
  match v with
  | None => Return NaN
  | Some JNull => Return (Finite 0)
  | Some (JBool b) => Return (Finite (if b then 1 else 0))
  | Some (JNumber x) => Return x
  | Some (JString s) => Return (StringToNumber s)
  | Some (JArray items) =>
      match Array_toString items with
      | Return s => Return (StringToNumber s)
      | Throw e => Throw e
      end
  | Some (JObject fields) =>
      match lookup (js "toString") fields with
      | Some _ => Throw TypeError
      | None => Return NaN
      end
  end.

(** **** Lines 802 to 856: the settings *)

(** The array [environment] of lines 809 to 832; reading
    [process.env.PATH.split] is a [TypeError] when [PATH] is not set. *)
Definition capture_environment (w : World) (buildWrapperEnv : list jsstring)
  (compilerName : jsstring) : outcome (list jsstring) :=
  match buildWrapperEnv with
  | _ :: _ =>
      Return (BuildEnv.environment join (accessible w) buildWrapperEnv compilerName
                [] (process_env w))
  | [] =>
      match process_env_PATH w with
      | Some path =>
          Return (BuildEnv.environment join (accessible w) [] compilerName
                    (JSText.split (delimiter w) path) (process_env w))
      | None => Throw TypeError
      end
  end.

(** One of the two blocks of lines 841 to 849:
    [if (p[key] && p[key].includes(V)) { p[key] = p[key].replace(V, folder);
    invokeConfigUpdate = true }]. *)
Definition expand_variable (key folder : jsstring)
  (state : list (jsstring * JSON) * bool)
  : outcome (list (jsstring * JSON) * bool) :=
  let (analyzerProperties, invokeConfigUpdate) := state in
  if truthy (lookup key analyzerProperties) then
    match method_includes (lookup key analyzerProperties) workspaceFolder_variable with
    | Throw e => Throw e
    | Return false => Return state
    | Return true =>
        match method_replace (lookup key analyzerProperties)
                workspaceFolder_variable folder with
        | Throw e => Throw e
        | Return text => Return (assign key text analyzerProperties, true)
        end
    end
  else Return state.

(** Lines 802 to 856. *)
Definition settings (w : World) : Convert Context :=
  folder <-
    match workspacefolder w with
    | Some folder => ret folder
    | None => throw TypeError
    end ;;
  let defaultBuildWrapperOutput := join folder (js "cfamily-compilation-database") in
  let buildWrapperOutput :=
    match setting_buildWrapperOutput w with
    | Some s => s
    | None => defaultBuildWrapperOutput
    end in
  let buildWrapperEnv :=
    match setting_buildWrapperEnv w with Some l => l | None => [] end in
  let compilerName :=
    match setting_buildWrapperCompiler w with Some s => s | None => js "clang" end in
  environment <- lift (capture_environment w buildWrapperEnv compilerName) ;;
  let analyzerProperties :=
    match setting_analyzerProperties w with Some p => p | None => [] end in
  let state :=
    if negb (truthy (lookup build_wrapper_output_key analyzerProperties))
       && truthy (Some (JString buildWrapperOutput))
    then (assign build_wrapper_output_key
            (JSText.replace buildWrapperOutput workspaceFolder_variable folder)
            analyzerProperties, true)
    else (analyzerProperties, false) in
  state <- lift (expand_variable build_wrapper_output_key folder state) ;;
  state <- lift (expand_variable cache_path_key folder state) ;;
  let (analyzerProperties, invokeConfigUpdate) := state : list (jsstring * JSON) * bool in
  (if invokeConfigUpdate then emit (UpdateAnalyzerProperties analyzerProperties)
   else ret tt) ;;
  output <- lift (method_replace (lookup build_wrapper_output_key analyzerProperties)
                    workspaceFolder_variable folder) ;;
  ret (mkContext (compilationDatabaseFile w) compilerName environment
         (join output (js "build-wrapper-dump.json"))).

(** **** Lines 861 to 888: the callback of [FS.readFile] *)

(** [shlex.split(compilationEntry.command)]; the splitter reads its argument
    as a string, and throws on anything else. *)
Definition split_command (compilationEntry : value) : Convert JSON :=
  command <- lift (property compilationEntry (js "command")) ;;
  match command with
  | Some (JString c) =>
      emit (ShlexSplit c) ;;
      tokens <- lift (shlex_split c) ;;
      ret (JArray (map JString tokens))
  | _ => throw TypeError
  end.

(** [compilationEntry?.arguments || shlex.split(compilationEntry.command)]. *)
Definition entry_args (compilationEntry : value) : Convert JSON :=
  match optional_property compilationEntry (js "arguments") with
  | Some arguments =>
      if truthy (Some arguments) then ret arguments
      else split_command compilationEntry
  | None => split_command compilationEntry
  end.

(** The body of the loop over the entries. *)
Definition capture_of (ctx : Context) (compilationEntry : value) : Convert Capture :=
  args <- entry_args compilationEntry ;;
  directory <- lift (property compilationEntry (js "directory")) ;;
  ret (mkCapture (buildWrapperCompiler ctx) directory (first_item args) args
         (environment ctx)).

(** The loop [for (index = 0; index < data.length; index++)], from [index]
    on, with the captures pushed so far.  An index that the data does not
    hold makes the body throw, so that the loop ends after at most
    [size data + 1] rounds; [rounds] bounds them. *)
Fixpoint loop (rounds : nat) (ctx : Context) (data : JSON) (index : nat)
  (captures : list Capture) : Convert (list Capture) :=
  len <- lift (length_of data) ;;
  len <- lift (ToNumber len) ;;
  if below index len then
    match rounds with
    | S rounds' =>
        capture <- capture_of ctx (item data index) ;;
        loop rounds' ctx data (S index) (captures ++ [capture])
    | O => throw OtherError
    end
  else ret captures.

(** The callback of [FS.readFile], with the callbacks of [FS.mkdir] and
    [FS.writeFile] after it. *)
Definition on_read (ctx : Context) (data : option jsstring) : Convert unit :=
  match data with
  | None => ret tt
  | Some text =>
      compilationDatabaseData <- lift (JSON_parse text) ;;
      captures <- loop (S (size compilationDatabaseData)) ctx
                    compilationDatabaseData 0 [] ;;
      emit (Mkdir_dirname (buildWrapperMapFile ctx)) ;;
      emit (WriteFile (buildWrapperMapFile ctx) (mkDump 0 captures)) ;;
      emit ConsoleTimeEnd
  end.

(** **** The function *)

(** [FS.statSync(path).mtime]; it throws when the file is not there. *)
Definition statSync_mtime (w : World) (path : jsstring) : outcome Z :=
  match mtime w path with
  | Some t => Return t
  | None => Throw OtherError
  end.

(** [FS.existsSync(map) && statSync(map).mtime > statSync(database).mtime]. *)
Definition dump_is_newer (w : World) (ctx : Context) : outcome bool :=
  match mtime w (buildWrapperMapFile ctx) with
  | None => Return false
  | Some dump_time =>
      match statSync_mtime w (compilationDatabaseFile w) with
      | Return database_time => Return (database_time <? dump_time)
      | Throw e => Throw e
      end
  end.

(** [convertCompilationDB(compilationDBFile)] up to its return: [Return]
    stands for a promise that resolves, [Throw] for one that rejects.  The
    value is what the function handed to [FS.readFile], when it called it. *)
Definition convertCompilationDB (w : World) : Convert (option Context) :=
  match mtime w (compilationDatabaseFile w) with
  | None => ret None
  | Some _ =>
      ctx <- settings w ;;
      newer <- lift (dump_is_newer w ctx) ;;
      if newer then ret None
      else
        emit ConsoleTime ;;
        emit (ReadFile (compilationDatabaseFile w)) ;;
        ret (Some ctx)
  end.

(** The function, and then the callback of [FS.readFile] when the function
    left one; an exception of the callback is not a rejection of the
    promise, which is settled by then. *)
Definition conversion (w : World) : Convert unit :=
  started <- convertCompilationDB w ;;
  match started with
  | Some ctx => on_read ctx (database_text w)
  | None => ret tt
  end.

End Convert.

(** The dumps written by a run, with the files they are written to. *)
Fixpoint written (trace : list Effect) : list (jsstring * Dump) :=
  match trace with
  | [] => []
  | WriteFile path dump :: trace' => (path, dump) :: written trace'
  | _ :: trace' => written trace'
  end.

Definition is_read (e : Effect) : bool :=
  match e with
  | ReadFile _ => true
  | _ => false
  end.

(** *** Samples *)

(** [Path.join] on two clean POSIX paths. *)
Definition sample_join (a b : jsstring) : jsstring := a ++ [slash] ++ b.

(** A stand-in for the splitter on commands that hold no quote, backslash
    or dollar sign: the words between blanks. *)
Definition is_blank (c : Z) : bool :=
  (c =? 32) || (c =? 9) || (c =? 13) || (c =? 10).

Fixpoint blank_separated (word : jsstring) (s : jsstring) : list jsstring :=
  match s with
  | [] => match word with [] => [] | _ => [word] end
  | c :: t =>
      if is_blank c then
        match word with
        | [] => blank_separated [] t
        | _ => word :: blank_separated [] t
        end
      else blank_separated (word ++ [c]) t
  end.

Definition sample_split (s : jsstring) : outcome (list jsstring) :=
  Return (blank_separated [] s).

(** The entry [{directory: /p, command: gcc -c a.c}]. *)
Definition sample_entry : JSON :=
  JObject [(js "directory", JString (js "/p"));
           (js "command", JString (js "gcc -c a.c"))].

Definition sample_database : JSON := JArray [sample_entry].

(** The database [/w/compile_commands.json] in the workspace folder [/w],
    no setting set, the compiler at [/usr/bin/clang], and a dump file with
    the given modification time. *)
Definition sample_world (dump_mtime : option Z) : World :=
  mkWorld (js "/w/compile_commands.json")
    (fun path =>
       if jsstring_eqb path (js "/w/compile_commands.json") then Some 100
       else if jsstring_eqb path
                 (js "/w/cfamily-compilation-database/build-wrapper-dump.json")
            then dump_mtime
       else None)
    (Some (js "/w")) None None None None
    (Some (js "/bin:/usr/bin"))
    [(js "HOME", js "/home/u"); (js "PATH", js "/bin:/usr/bin")]
    58
    (fun path => jsstring_eqb path (js "/usr/bin/clang"))
    (Some (js "[...]")).

(** The same database outside every workspace folder. *)
Definition stray_world : World :=
  mkWorld (js "/w/compile_commands.json")
    (fun path =>
       if jsstring_eqb path (js "/w/compile_commands.json") then Some 100 else None)
    None None None None None
    (Some (js "/bin:/usr/bin")) [(js "PATH", js "/bin:/usr/bin")] 58
    (fun _ => false) (Some (js "[...]")).

(** An entry whose [arguments] is a string, not a list. *)
Definition string_arguments_entry : JSON :=
  JObject [(js "directory", JString (js "/p"));
           (js "arguments", JString (js "gcc -c a.c"));
           (js "command", JString (js "gcc -c a.c"))].

(** An entry whose [arguments] is the empty string. *)
Definition empty_arguments_entry : JSON :=
  JObject [(js "directory", JString (js "/p"));
           (js "arguments", JString []);
           (js "command", JString (js "gcc -c a.c"))].

(** A parsed value that claims one entry and holds none: [{length: 1}]. *)
Definition length_only_database : JSON :=
  JObject [(js "length", JNumber (Finite 1))].

End CompilationDB.

(** ** Reading a dump against the database *)

Module CompilationDBTrace.
Import CompilationDB.

Section Captured.

Variable shlex_split : jsstring -> outcome (list jsstring).

(** What a capture has of its entry. *)
Definition captured (ctx : Context) (entry : JSON) (c : Capture) : Prop :=
  compiler c = buildWrapperCompiler ctx
  /\ env c = environment ctx
  /\ executable c = first_item (cmd c)
  /\ property (Some entry) (js "directory") = Return (cwd c)
  /\ (if truthy (optional_property (Some entry) (js "arguments")) then
        optional_property (Some entry) (js "arguments") = Some (cmd c)
      else
        exists command tokens,
          property (Some entry) (js "command") = Return (Some (JString command))
          /\ shlex_split command = Return tokens
          /\ cmd c = JArray (map JString tokens)).

(** The captures stand, in order, for the entries at the indices below the
    length, from [index] on. *)
Definition one_capture_per_index (ctx : Context) (data : JSON) (len : Number)
  (index : nat) (captures : list Capture) : Prop :=
  below (index + List.length captures) len = false
  /\ (forall j, (j < List.length captures)%nat -> below (index + j) len = true)
  /\ (forall j c, nth_error captures j = Some c ->
        exists entry, item data (index + j) = Some entry /\ captured ctx entry c).

End Captured.

(** *** When the settings part returns *)

(** The analyzer properties and the build-wrapper output as the function
    reads them, with their defaults. *)
Definition analyzer_properties (w : World) : list (jsstring * JSON) :=
  match setting_analyzerProperties w with Some p => p | None => [] end.

Definition build_wrapper_output (join : jsstring -> jsstring -> jsstring)
  (w : World) (folder : jsstring) : jsstring :=
  match setting_buildWrapperOutput w with
  | Some s => s
  | None => join folder (js "cfamily-compilation-database")
  end.

Definition is_text (v : value) : Prop := exists s, v = Some (JString s).

(** The environment can be made: the setting is not empty, or [PATH] is
    set. *)
Definition environment_ready (w : World) : Prop :=
  (exists x l, setting_buildWrapperEnv w = Some (x :: l))
  \/ process_env_PATH w <> None.

(** The property of the build-wrapper output is a string, or it is a value
    that [!] takes as false and the setting is not empty. *)
Definition output_ready (join : jsstring -> jsstring -> jsstring)
  (w : World) (folder : jsstring) : Prop :=
  is_text (lookup build_wrapper_output_key (analyzer_properties w))
  \/ (truthy (lookup build_wrapper_output_key (analyzer_properties w)) = false
      /\ build_wrapper_output join w folder <> []).

(** The property of the cache path is a value that [&&] takes as false, a
    string, or an array that does not hold the text [${workspaceFolder}]. *)
Definition cache_ready (w : World) : Prop :=
  truthy (lookup cache_path_key (analyzer_properties w)) = false
  \/ is_text (lookup cache_path_key (analyzer_properties w))
  \/ exists items,
       lookup cache_path_key (analyzer_properties w) = Some (JArray items)
       /\ ~ In (JString workspaceFolder_variable) items.

End CompilationDBTrace.
(** ** The output channel: [logToSonarLintOutput], [logWithPrefix] *)

Module Logging.

(** The module variable [sonarlintOutput]: [None] before the channel is
    created, then the lines appended to it. *)
Definition Output := option (list jsstring).

(** [logToSonarLintOutput(message)]. *)
Definition logToSonarLintOutput (message : jsstring) (sonarlintOutput : Output)
  : Output :=
  match sonarlintOutput with
  | Some lines => Some (lines ++ [message])
  | None => None
  end.

Definition CR : Z := 13.
Definition LF : Z := 10.

(** [s.split(/\r\n|\r|\n/)]; [cur] is the piece being read. *)
Fixpoint split_lines (cur : jsstring) (s : jsstring) : list jsstring :=
  match s with
  | [] => [cur]
  | c :: t =>
      if c =? CR then
        match t with
        | d :: t' =>
            if d =? LF then cur :: split_lines [] t'
            else cur :: split_lines [] t
        | [] => cur :: split_lines [] t
        end
      else if c =? LF then cur :: split_lines [] t
      else split_lines (cur ++ [c]) t
  end.

(** The template [`${prefix} ${l}`]. *)
Definition prefixed (prefix l : jsstring) : jsstring := prefix ++ [32] ++ l.

(** [logWithPrefix(data, prefix)], with [verbose] for [isVerboseEnabled()] and
    [data] for [data.toString()]. *)
Definition logWithPrefix (verbose : bool) (data prefix : jsstring)
  (sonarlintOutput : Output) : Output :=
  if verbose then
    fold_left
      (fun out l =>
         match l with
         | [] => out
         | _ => logToSonarLintOutput (prefixed prefix l) out
         end)
      (split_lines [] data) sonarlintOutput
  else sonarlintOutput.

(** A unit that ends a line. *)
Definition is_newline (c : Z) : bool := (c =? CR) || (c =? LF).

(** The pieces of [data] that are logged. *)
Definition logged_pieces (data : jsstring) : list jsstring :=
  filter (fun l => match l with [] => false | _ => true end) (split_lines [] data).

(** A piece without CR and LF. *)
Definition no_newline (l : jsstring) : Prop :=
  forallb (fun c => negb (is_newline c)) l = true.

End Logging.

(** ** Asking Git: [isIgnored], [isIgnoredByScm] *)

Module GitIgnore.

(** What [ChildProcess.exec] hands to its callback: the error, if any, with
    its [code] when that is a number; and the two outputs. *)
Record ExecResult := mkExecResult {
  exec_error : option (option Z);
  stdout : jsstring;
  stderr : jsstring
}.

(** [[GitReturnCode.E_OK, GitReturnCode.E_FAIL].indexOf(code) < 0]. *)
Definition isNeitherOkNorFail (code : option Z) : bool :=
  match code with
  | Some c => negb ((c =? 0) || (c =? 1))
  | None => true
  end.

Inductive Effect :=
| Exec (gitCommand workspaceFolderPath : jsstring)
| LogGitError (gitCommand : jsstring).

Section IsIgnored.

(** [ChildProcess.exec(command, { cwd })], by its result. *)
Variable exec : jsstring -> jsstring -> ExecResult.

(** [isVerboseEnabled()]. *)
Variable verbose : bool.

(** [isIgnored(workspaceFolderPath, gitCommand)]: the promise and the calls
    made. *)
Definition isIgnored (workspaceFolderPath gitCommand : jsstring)
  : outcome bool * list Effect :=
  let r := exec gitCommand workspaceFolderPath in
  let rejected :=
    match exec_error r with
    | Some code => isNeitherOkNorFail code
    | None => false
    end in
  if rejected then
    (Throw OtherError,
     Exec gitCommand workspaceFolderPath
     :: (if verbose then [LogGitError gitCommand] else []))
  else
    (match stderr r with
     | _ :: _ => Return false
     | [] => Return (match stdout r with _ :: _ => true | [] => false end)
     end,
     [Exec gitCommand workspaceFolderPath]).

(** [isIgnoredByScm(fileUri)]. *)
Definition isIgnoredByScm (env : IgnoreCheck.Env) (fileUri : jsstring)
  : IgnoreCheck.Check bool :=
  IgnoreCheck.performIsIgnoredCheck env
    (fun workspaceFolderPath gitCommand =>
       fst (isIgnored workspaceFolderPath gitCommand))
    fileUri.

End IsIgnored.

End GitIgnore.

(** ** The TypeScript location: [findTypeScriptLocation] *)

Module TypeScript.

Inductive Effect :=
| LogNoBundledTypeScript (bundledTypeScriptPath : jsstring)
| LogNoConfiguredTypeScript (bundledTypeScriptPath : jsstring)
| LogNoTypeScriptExtension.

Section Find.

(** [Path.isAbsolute], [Path.join], [Path.resolve] and [FS.existsSync]. *)
Variable isAbsolute : jsstring -> bool.
Variable join : jsstring -> jsstring -> jsstring.
Variable resolve : list jsstring -> jsstring.
Variable existsSync : jsstring -> bool.

(** The [fsPath] of the workspace folders; [None] when
    [VSCode.workspace.workspaceFolders] is [undefined]. *)
Variable workspaceFolders : option (list jsstring).

(** The loop over the folders. *)
Fixpoint first_existing (tsdkPathSetting : jsstring) (folders : list jsstring)
  : option jsstring :=
  match folders with
  | [] => None
  | folder :: folders' =>
      let configuredTsPath := join folder tsdkPathSetting in
      if existsSync configuredTsPath then Some configuredTsPath
      else first_existing tsdkPathSetting folders'
  end.

(** [resolveInAnyWorkspaceFolder(tsdkPathSetting)]. *)
Definition resolveInAnyWorkspaceFolder (tsdkPathSetting : jsstring)
  : option jsstring :=
  if isAbsolute tsdkPathSetting then
    if existsSync tsdkPathSetting then Some tsdkPathSetting else None
  else
    first_existing tsdkPathSetting
      (match workspaceFolders with Some folders => folders | None => [] end).

(** [findTypeScriptLocation()]; [tsExt] is the [extensionPath] of the
    extension [vscode.typescript-language-features], when it is there, and
    [tsdk] the setting [typescript.tsdk], a string when it is set. *)
Definition findTypeScriptLocation (tsExt : option jsstring) (tsdk : option jsstring)
  : option jsstring * list Effect :=
  match tsExt with
  | Some extensionPath =>
      let bundledTypeScriptPath :=
        resolve [extensionPath; js ".."; js "node_modules"; js "typescript"; js "lib"] in
      let log1 :=
        if existsSync bundledTypeScriptPath then []
        else [LogNoBundledTypeScript bundledTypeScriptPath] in
      match tsdk with
      | Some (c :: rest) =>
          match resolveInAnyWorkspaceFolder (c :: rest) with
          | Some configuredTsPath => (Some configuredTsPath, log1)
          | None =>
              (Some bundledTypeScriptPath,
               log1 ++ [LogNoConfiguredTypeScript bundledTypeScriptPath])
          end
      | _ => (Some bundledTypeScriptPath, log1)
      end
  | None => (None, [LogNoTypeScriptExtension])
  end.

End Find.

(** A sample file system: two workspace folders, of which only the second
    holds [node_modules/typescript/lib]. *)
Definition sample_join (folder p : jsstring) : jsstring := folder ++ [slash] ++ p.

Definition sample_folders : list jsstring := [js "/w1"; js "/w2"].

Definition sample_exists (p : jsstring) : bool :=
  jsstring_eqb p (js "/w2/node_modules/typescript/lib").

Definition sample_is_absolute (p : jsstring) : bool :=
  match p with
  | c :: _ => c =? slash
  | [] => false
  end.

End TypeScript.

(** ** Rule activation: [toggleRule] *)

Module Rules.

(** [ConfigLevel]. *)
Inductive ConfigLevel := on | off.

(** A property of the object [rules]: missing; set to [undefined]; or set to
    [{ level }]. *)
Inductive Setting :=
| Missing
| Undefined
| Override (level : ConfigLevel).

(** The object held by the setting [sonarlint.rules], by its properties. *)
Definition RulesObject := jsstring -> Setting.

(** [{}]. *)
Definition empty : RulesObject := fun _ => Missing.

(** [rules[key] = value]. *)
Definition assign (rules : RulesObject) (key : jsstring) (value : Setting)
  : RulesObject :=
  fun k => if jsstring_eqb k key then value else rules k.

(** [Rule]: of which the toggle reads [key] and [activeByDefault]. *)
Record Rule := mkRule { key : jsstring; activeByDefault : bool }.

(** The argument of the command: a rule key, or a node of the rules view. *)
Inductive Target :=
| RuleKey (ruleKey : jsstring)
| RuleNode (rule : Rule).

(** The object that [toggleRule(level)(ruleKey)] passes to
    [configuration.update('rules', ...)]; [stored] is what
    [configuration.get('rules')] answers. *)
Definition toggleRule (level : ConfigLevel) (ruleKey : Target)
  (stored : option RulesObject) : RulesObject :=
  let rules := match stored with Some r => r | None => empty end in
  match ruleKey with
  | RuleKey k => assign rules k (Override level)
  | RuleNode rule =>
      match level, activeByDefault rule with
      | on, false | off, true => assign rules (key rule) (Override level)
      | _, _ => assign rules (key rule) Undefined
      end
  end.

(** Whether a rule is active under a setting: an override decides, anything
    else leaves the default. *)
Definition active (setting : Setting) (activeByDefault : bool) : bool :=
  match setting with
  | Override on => true
  | Override off => false
  | _ => activeByDefault
  end.

Definition is_on (level : ConfigLevel) : bool :=
  match level with
  | on => true
  | off => false
  end.

(** The key that a toggle writes. *)
Definition target_key (ruleKey : Target) : jsstring :=
  match ruleKey with
  | RuleKey k => k
  | RuleNode rule => key rule
  end.

End Rules.

(** ** Configuration changes: [onConfigurationChange] *)

Module ConfigChange.

(** A value of a setting. *)
Inductive Value :=
| VString (s : jsstring)
| VBool (b : bool).

(** A [WorkspaceConfiguration] of the section [sonarlint], by what
    [get(key)] answers; [None] is [undefined]. *)
Definition Config := jsstring -> option Value.

Definition value_eqb (a b : option Value) : bool :=
  match a, b with
  | None, None => true
  | Some (VString s), Some (VString t) => jsstring_eqb s t
  | Some (VBool x), Some (VBool y) => Bool.eqb x y
  | _, _ => false
  end.

(** [configKeyEquals(key, oldConfig, newConfig)]: [===] on the two values. *)
Definition configKeyEquals (key : jsstring) (oldConfig newConfig : Config) : bool :=
  value_eqb (oldConfig key) (newConfig key).

Definition hasSonarLintLsConfigChanged (oldConfig newConfig : Config) : bool :=
  negb (configKeyEquals (js "ls.javaHome") oldConfig newConfig)
  || negb (configKeyEquals (js "ls.vmargs") oldConfig newConfig).

Definition hasNodeJsConfigChanged (oldConfig newConfig : Config) : bool :=
  negb (configKeyEquals (js "pathToNodeExecutable") oldConfig newConfig).

(** [isVerboseEnabled()]: [currentConfig.get('output.showVerboseLogs', false)]. *)
Definition isVerboseEnabled (currentConfig : Config) : bool :=
  match currentConfig (js "output.showVerboseLogs") with
  | Some (VBool b) => b
  | _ => false
  end.

Inductive Action :=
| ShowRestartWarning
| ReloadWindow.

(** The listener on [onDidChangeConfiguration]; [affects] is
    [event.affectsConfiguration('sonarlint')] and [newConfig] the
    configuration read when the event is handled.  The result is the new
    value of the module variable [currentConfig] and what is shown. *)
Definition onConfigurationChange (currentConfig : Config) (affects : bool)
  (newConfig : Config) : Config * list Action :=
  if negb affects then (currentConfig, [])
  else if hasSonarLintLsConfigChanged currentConfig newConfig
          || hasNodeJsConfigChanged currentConfig newConfig
  then (newConfig, [ShowRestartWarning])
  else (currentConfig, []).

(** The callback on the answer to the warning: [selection] is the button
    chosen, if any. *)
Definition onRestartAnswer (selection : option jsstring) : list Action :=
  match selection with
  | Some s => if jsstring_eqb (js "Restart Now") s then [ReloadWindow] else []
  | None => []
  end.

(** Sample configurations that differ in the verbose flag only. *)
Definition quiet_config : Config :=
  fun k =>
    if jsstring_eqb k (js "ls.javaHome") then Some (VString (js "/jre"))
    else if jsstring_eqb k (js "output.showVerboseLogs") then Some (VBool false)
    else None.

Definition verbose_config : Config :=
  fun k =>
    if jsstring_eqb k (js "ls.javaHome") then Some (VString (js "/jre"))
    else if jsstring_eqb k (js "output.showVerboseLogs") then Some (VBool true)
    else None.

End ConfigChange.

(** ** The life of the bridge: events after the constructor *)

Module ScmEvents.
Import Scm.

(** A [GitScm] object in use: its [listeners], and whether its constructor
    subscribed to [onDidChangeState]. *)
Record Live := mkLive { live_listeners : list Disposable; watches_state : bool }.

(** What the Git API fires: a repository was opened; or the state of the API
    changed, [env] being the surroundings at that time. *)
Inductive ApiEvent :=
| RepositoryOpened (r : Repository)
| StateChanged (env : Env) (newState : APIState).

(** [new GitScm(gitApi, client)] in the surroundings [env]. *)
Definition construct (env : Env) : outcome Live * list Effect :=
  match constructor env [] with
  | (Return _, l, t) =>
      (Return (mkLive l
                 (match api_state (gitApi env) with
                  | initialized => false
                  | uninitialized => true
                  end)), t)
  | (Throw e, _, t) => (Throw e, t)
  end.

(** The listeners of the bridge run on an event. *)
Definition handle (b : Live) (ev : ApiEvent) : Live * list Effect :=
  match ev with
  | RepositoryOpened r =>
      let '(_, l, t) := onOpenRepository r (live_listeners b) in
      (mkLive l (watches_state b), t)
  | StateChanged env newState =>
      if watches_state b then
        let '(_, l, t) := onStateChange env newState (live_listeners b) in
        (mkLive l (watches_state b), t)
      else (b, [])
  end.

Fixpoint handle_all (b : Live) (evs : list ApiEvent) : Live * list Effect :=
  match evs with
  | [] => (b, [])
  | ev :: evs' =>
      let (b1, t1) := handle b ev in
      let (b2, t2) := handle_all b1 evs' in
      (b2, t1 ++ t2)
  end.

(** Whether a disposable stands for a change listener on the repository at
    [root]. *)
Definition listens_to (root : Uri) (d : Disposable) : bool :=
  match subscription d with
  | OnDidChange r => uri_eqb (rootUri r) root
  | _ => false
  end.

(** The number of change listeners held for the repository at [root]. *)
Definition change_listeners (root : Uri) (listeners : list Disposable) : nat :=
  List.length (filter (listens_to root) listeners).

Definition is_state_subscription (d : Disposable) : bool :=
  match subscription d with
  | OnDidChangeState => true
  | _ => false
  end.

(** The listeners that the constructor leaves: the subscription to opened
    repositories, and, when the API is initialised, one change listener for
    each repository that the API knows. *)
Definition constructed_listeners (api : API) : list Disposable :=
  mkDisposable OnDidOpenRepository
  :: match api_state api with
     | initialized => map (fun r => mkDisposable (OnDidChange r)) (repositories api)
     | uninitialized => []
     end.

Definition is_init_exception (e : Effect) : bool :=
  match e with
  | LogInitException _ => true
  | _ => false
  end.

Definition is_dispose_of_state_subscription (e : Effect) : bool :=
  match e with
  | CallDispose d => is_state_subscription d
  | _ => false
  end.

(** The repositories of a list that are rooted at [root]. *)
Definition rooted_at (root : Uri) (rs : list Repository) : list Repository :=
  filter (fun r => uri_eqb (rootUri r) root) rs.

(** The surroundings of the samples of [Scm]. *)
Definition sample_env (st : APIState) : Env :=
  mkEnv (mkAPI st [sample_repository] (getRepository sample_api))
        (Some [folder_app; folder_tmp]).

End ScmEvents.

(** ** The rule description panel: [ShowRuleDescriptionRequest] *)

Module RulePanel.

(** A webview panel, by the order of its creation. *)
Definition Panel := nat.

(** The module variable [ruleDescriptionPanel], and the number of panels
    created so far. *)
Record State := mkState { ruleDescriptionPanel : option Panel; created : nat }.

Definition initial : State := mkState None 0.

Inductive Event :=
| ShowRuleDescription
| PanelDisposed (p : Panel).

Inductive Action :=
| CreateWebviewPanel (p : Panel)
| SetContent (p : Panel)
| Reveal (p : Panel).

(** The handler of the request, and the callback given to [onDidDispose] of
    the panel [p]. *)
Definition step (st : State) (ev : Event) : State * list Action :=
  match ev with
  | ShowRuleDescription =>
      match ruleDescriptionPanel st with
      | Some p => (st, [SetContent p; Reveal p])
      | None =>
          let p := created st in
          (mkState (Some p) (S (created st)),
           [CreateWebviewPanel p; SetContent p; Reveal p])
      end
  | PanelDisposed _ => (mkState None (created st), [])
  end.

Fixpoint run (st : State) (evs : list Event) : State * list (Event + Action) :=
  match evs with
  | [] => (st, [])
  | ev :: evs' =>
      let (st1, acts) := step st ev in
      let (st2, rest) := run st1 evs' in
      (st2, inl ev :: map inr acts ++ rest)
  end.

End RulePanel.


(** ** A repository fires its change event *)

Module ScmDispatch.
Import Scm ScmEvents.

Local Open Scope js_scope.





End ScmDispatch.
(** ** The units of an encoded URL *)

Module UriShape.
Import Uri.

(** A unit of an encoded URI: one that [encodeURI] keeps, or a percent
    sign. *)
Definition uri_unit (c : Z) : Prop := unescaped_set c = true \/ c = percent.

End UriShape.

(** ** Counting what the bootstrap did *)

Module BootstrapTrace.
Import Bootstrap.

Definition is_spawn (a : Action) : bool :=
  match a with Spawn _ _ => true | _ => false end.

Definition is_create_server (a : Action) : bool :=
  match a with CreateServer => true | _ => false end.

Definition is_listen (a : Action) : bool :=
  match a with Listen _ => true | _ => false end.

(** The number of actions of a kind in a trace. *)
Fixpoint count_actions (kind : Action -> bool) (trace : list Entry) : nat :=
  match trace with
  | [] => 0
  | Did a :: trace' =>
      if kind a then S (count_actions kind trace') else count_actions kind trace'
  | Delivered _ :: trace' => count_actions kind trace'
  end.

(** How many servers may still be created, and how many children spawned,
    from a phase on. *)
Definition creates_left (ph : Phase) : nat :=
  match ph with
  | AwaitingRequirements => 1
  | _ => 0
  end.

Definition spawns_left (ph : Phase) : nat :=
  match ph with
  | AwaitingRequirements | ListenCalled _ => 1
  | _ => 0
  end.

(** The names of the analyzers that are always given to the server. *)
Definition analyzer_jars : list string :=
  ["sonarjava.jar"; "sonarjs.jar"; "sonarphp.jar"; "sonarpython.jar";
   "sonarhtml.jar"]%string.

(** The arguments put first when [DEBUG] is set. *)
Definition debug_params (cfg : Config) : list jsstring :=
  if DEBUG cfg then
    [js "-agentlib:jdwp=transport=dt_socket,server=y,suspend=n,address=8000";
     js "-Dsonarlint.telemetry.disabled=true"]
  else [].

End BootstrapTrace.

(** ** Observing the ignore check *)

Module IgnoreTrace.
Import IgnoreCheck.

Definition is_scm_check (e : Effect) : bool :=
  match e with
  | CallScmCheck _ _ => true
  | _ => false
  end.

(** Git ran and said nothing against the file being ignored: no error, or an
    exit code of 0 or 1; nothing on the error output; something on the
    output. *)
Definition git_says_ignored (r : GitIgnore.ExecResult) : bool :=
  match GitIgnore.exec_error r with
  | Some code => negb (GitIgnore.isNeitherOkNorFail code)
  | None => true
  end
  && match GitIgnore.stderr r with [] => true | _ => false end
  && match GitIgnore.stdout r with [] => false | _ => true end.

(** Sample surroundings in which the Git extension is there, with Git at
    [/usr/bin/git]. *)
Definition git_env : Env :=
  sample_env
    (Some (mkExtension (Some (mkGitExtension (Return (mkAPI (js "/usr/bin/git")))))))
    true.

(** Git failing with exit code 128. *)
Definition failing_git (command cwd : jsstring) : GitIgnore.ExecResult :=
  GitIgnore.mkExecResult (Some (Some 128)) [] (js "fatal: not a git repository").

End IgnoreTrace.

(** ** Panels that are open *)

Module RulePanelTrace.
Import RulePanel.

(** The panels that are open after a trace: created and not disposed of. *)
Fixpoint open_panels (live : list Panel) (trace : list (Event + Action)) : list Panel :=
  match trace with
  | [] => live
  | inr (CreateWebviewPanel p) :: trace' => open_panels (live ++ [p]) trace'
  | inl (PanelDisposed p) :: trace' =>
      open_panels (filter (fun q => negb (Nat.eqb q p)) live) trace'
  | _ :: trace' => open_panels live trace'
  end.

(** The editor fires the disposal of a panel only for a panel that is open;
    [live] are the open panels when [evs] begin, in state [st]. *)
Fixpoint disposes_open_panels (st : State) (live : list Panel) (evs : list Event)
  : bool :=
  match evs with
  | [] => true
  | ev :: evs' =>
      let live_after :=
        open_panels live (inl ev :: map inr (snd (step st ev))) in
      match ev with
      | PanelDisposed p => existsb (Nat.eqb p) live
      | _ => true
      end
      && disposes_open_panels (fst (step st ev)) live_after evs'
  end.

(** The panels that the variable [ruleDescriptionPanel] holds. *)
Definition held (st : State) : list Panel :=
  match ruleDescriptionPanel st with
  | Some p => [p]
  | None => []
  end.

End RulePanelTrace.


(** ** The promise of the bootstrap *)

Module BootstrapPromise.
Import Bootstrap.

(** What a state of the promise tells about the run that led to it. *)
Definition promise_explained (st : State) (trace : list Entry) : Prop :=
  match promise st with
  | Pending => phase st <> GivenUp
  | Rejected => phase st = GivenUp /\ In (Delivered RequirementsRejected) trace
  | Resolved streams =>
      reader streams = writer streams
      /\ In (Delivered (Connection (reader streams))) trace
      /\ exists port, phase st = Active port
  end.

End BootstrapPromise.
(** ** Proof automation *)

(** Case analysis on the integer comparisons of the goal. *)
Ltac zcases :=
  repeat match goal with
  | |- context [?a <=? ?b] => destruct (Z.leb_spec a b)
  | |- context [?a <? ?b] => destruct (Z.ltb_spec a b)
  | |- context [?a =? ?b] => destruct (Z.eqb_spec a b)
  end; cbn [andb orb negb]; try lia.

(** Linear arithmetic with division and remainder by constants. *)
Ltac dlia := Z.to_euclidean_division_equations; lia.

(** * Properties *)

(** ** Strings *)

Module JSFacts.

Lemma jsstring_eqb_true a b : jsstring_eqb a b = true <-> a = b.
Proof.
  unfold jsstring_eqb. destruct (jsstring_eq_dec a b); split; congruence.
Qed.

Lemma startsWith_spec s prefix :
  startsWith s prefix = true <-> exists rest, s = prefix ++ rest.
Proof.
  revert s. induction prefix as [|p prefix IH]; intros s.
  - split; [intros _; now exists s | now destruct s].
  - destruct s as [|c s]; simpl.
    + split; [discriminate | intros [rest H]; discriminate].
    + rewrite andb_true_iff, Z.eqb_eq, IH. split.
      * intros [-> [rest ->]]. now exists rest.
      * intros [rest H]. injection H as -> ->. split; [reflexivity | now exists rest].
Qed.

Section Computation.

Context {S E : Type}.

(** A loop whose body returns and leaves the state alone. *)
Lemma forEach_emits {A} (body : A -> M S E unit) (f : A -> list E) l :
  (forall x s, body x s = (Return tt, s, f x)) ->
  forall s, forEach body l s = (Return tt, s, flat_map f l).
Proof.
  intros Hbody. induction l as [|x l IH]; intros s; [reflexivity|].
  cbn [forEach flat_map]. unfold bind. now rewrite Hbody, IH.
Qed.

(** A loop whose body returns and extends a list held in the state. *)
Lemma forEach_pushes {A B} (body : A -> M (list B) E unit)
  (g : A -> B) (f : A -> E) l :
  (forall x s, body x s = (Return tt, s ++ [g x], [f x])) ->
  forall s, forEach body l s = (Return tt, s ++ map g l, map f l).
Proof.
  intros Hbody. induction l as [|x l IH]; intros s.
  - cbn. now rewrite app_nil_r.
  - cbn [forEach map]. unfold bind. rewrite Hbody, IH.
    now rewrite <- app_assoc.
Qed.

End Computation.

End JSFacts.
Import JSFacts.

(** ** Start-up arguments *)

Module VMArgsFacts.
Import VMArgs.

(** *** The scan terminates within its fuel *)

Lemma span_length p s a b :
  span p s = (a, b) -> (List.length a + List.length b = List.length s)%nat.
Proof.
  revert a b. induction s as [|c t IH]; simpl; intros a b H.
  - injection H as <- <-. reflexivity.
  - destruct (p c).
    + destruct (span p t) as [a' b'] eqn:E. injection H as <- <-.
      simpl. now rewrite (IH a' b' eq_refl).
    + injection H as <- <-. reflexivity.
Qed.

Lemma span_app p s : fst (span p s) ++ snd (span p s) = s.
Proof.
  induction s as [|c t IH]; simpl; auto.
  destruct (p c); simpl; auto.
  destruct (span p t); simpl in *. now rewrite IH.
Qed.

Lemma group_iter_consumes s m r :
  group_iter s = Some (m, r) ->
  s = m ++ r /\ (List.length r < List.length s)%nat.
Proof.
  destruct s as [|c t]; [discriminate|]. unfold group_iter.
  destruct (plain c) eqn:Hp.
  - intros H.
    assert (span plain (c :: t) = (m, r)) as H' by congruence. clear H.
    split.
    + pose proof (span_app plain (c :: t)) as A. now rewrite H' in A.
    + simpl in H'. rewrite Hp in H'.
      destruct (span plain t) as [a b] eqn:E. injection H' as <- <-.
      apply span_length in E. simpl. lia.
  - destruct (c =? dquote); [|discriminate].
    destruct (span not_quote t) as [body r0] eqn:E.
    destruct r0 as [|q r']; [discriminate|].
    intros H. injection H as <- <-. split.
    + pose proof (span_app not_quote t) as A. rewrite E in A. simpl in A.
      simpl. rewrite <- app_assoc. simpl. now rewrite A.
    + apply span_length in E. simpl in *. lia.
Qed.

Lemma group_more_fuel fuel fuel' acc s :
  (List.length s <= fuel)%nat -> (List.length s <= fuel')%nat ->
  group_more fuel acc s = group_more fuel' acc s.
Proof.
  revert fuel' acc s.
  induction fuel as [|fuel IH]; intros fuel' acc s H H'.
  - destruct s; [|simpl in H; lia]. now destruct fuel'.
  - destruct fuel' as [|fuel'].
    + destruct s; [reflexivity | simpl in H'; lia].
    + simpl. destruct (group_iter s) as [[m r]|] eqn:E; [|reflexivity].
      apply group_iter_consumes in E as [_ E]. apply IH; lia.
Qed.

Lemma group_more_consumes fuel acc s m r :
  group_more fuel acc s = (m, r) ->
  acc ++ s = m ++ r /\ (List.length r <= List.length s)%nat.
Proof.
  revert acc s. induction fuel as [|fuel IH]; simpl; intros acc s H.
  - injection H as <- <-. auto.
  - destruct (group_iter s) as [[m' r']|] eqn:E.
    + apply group_iter_consumes in E as [-> E].
      apply IH in H as [H1 H2]. rewrite app_assoc. split; [assumption | lia].
    + injection H as <- <-. auto.
Qed.

Lemma match_at_consumes s m r :
  match_at s = Some (m, r) ->
  s = m ++ r /\ (List.length r < List.length s)%nat.
Proof.
  unfold match_at. destruct (group_iter s) as [[m0 r0]|] eqn:E; [|discriminate].
  intros H. injection H as H.
  apply group_iter_consumes in E as [-> E].
  apply group_more_consumes in H as [H1 H2]. split; [assumption | lia].
Qed.

(** Any fuel of at least the length of the text gives the same list of
    matches: the scan is not cut short. *)
Lemma match_all_fuel fuel fuel' s :
  (List.length s <= fuel)%nat -> (List.length s <= fuel')%nat ->
  match_all fuel s = match_all fuel' s.
Proof.
  revert fuel' s. induction fuel as [|fuel IH]; intros fuel' s H H'.
  - destruct s; [|simpl in H; lia]. now destruct fuel'.
  - destruct fuel' as [|fuel'].
    + destruct s; [reflexivity | simpl in H'; lia].
    + destruct s as [|c t]; [reflexivity|].
      simpl match_all. simpl in H, H'.
      destruct (match_at (c :: t)) as [[m r]|] eqn:E.
      * apply match_at_consumes in E as [_ E]. simpl in E.
        f_equal. apply IH; lia.
      * apply IH; lia.
Qed.

(** *** De-duplication *)

Lemma absent_true params a : absent params a = true <-> ~ In a params.
Proof.
  unfold absent. rewrite negb_true_iff. split.
  - intros H Hin.
    assert (existsb (jsstring_eqb a) params = true) as E; [|congruence].
    apply existsb_exists. exists a. split; [assumption|].
    now apply jsstring_eqb_true.
  - intros H. destruct (existsb (jsstring_eqb a) params) eqn:E; [|reflexivity].
    apply existsb_exists in E as [x [Hx E]].
    apply jsstring_eqb_true in E. subst x. contradiction.
Qed.

Lemma absent_false params a : absent params a = false <-> In a params.
Proof.
  destruct (absent params a) eqn:E.
  - apply absent_true in E. split; [discriminate | contradiction].
  - split; [intros _ | reflexivity].
    destruct (in_dec jsstring_eq_dec a params) as [H|H]; [assumption|].
    apply absent_true in H. congruence.
Qed.

(** The arguments that a run of the loop appends are new and pairwise
    distinct. *)
Lemma fold_add_arg vmargs : forall params,
  exists added,
    fold_left add_arg vmargs params = params ++ added
    /\ NoDup added
    /\ (forall a, In a added -> ~ In a params)
    /\ (forall a, In a added -> In a (map clean_arg vmargs)).
Proof.
  induction vmargs as [|arg vmargs IH]; intros params; simpl.
  - exists []. rewrite app_nil_r.
    split; [reflexivity | split; [constructor | split; easy]].
  - unfold add_arg at 2. destruct (absent params (clean_arg arg)) eqn:E.
    + apply absent_true in E.
      destruct (IH (params ++ [clean_arg arg])) as (added & H1 & H2 & H3 & H4).
      exists (clean_arg arg :: added). rewrite H1, <- app_assoc.
      split; [reflexivity | split; [| split]].
      * constructor; [|assumption].
        intros Hin. apply (H3 _ Hin). apply in_or_app. right. now left.
      * intros a [<-|Hin]; [assumption|].
        intros Hp. apply (H3 _ Hin). apply in_or_app. now left.
      * intros a [<-|Hin]; [now left | right; now apply H4].
    + destruct (IH params) as (added & H1 & H2 & H3 & H4).
      exists added. split; [assumption | split; [assumption | split]]; auto.
Qed.

Lemma clean_arg_quoted body :
  forallb (fun c => negb (c =? dquote) && negb (c =? backslash)) body = true ->
  clean_arg (dquote :: body ++ [dquote]) = body.
Proof.
  unfold clean_arg. simpl. intros H.
  induction body as [|c body IH]; [reflexivity|].
  simpl in H. apply andb_true_iff in H as [Hc H].
  apply andb_true_iff in Hc as [Hq Hb].
  apply negb_true_iff in Hq, Hb.
  simpl. rewrite Hb, Hq. simpl. rewrite Hb. f_equal. now apply IH.
Qed.

Lemma absent_snoc params a b :
  a <> b -> absent (params ++ [a]) b = absent params b.
Proof.
  intros Hab. unfold absent. rewrite existsb_app. simpl.
  destruct (jsstring_eqb b a) eqn:E.
  - apply jsstring_eqb_true in E. congruence.
  - now rewrite !orb_false_r.
Qed.

(** A closing quote that follows a backslash is read as an escaped quote:
    the backslash goes and the quote stays. *)
Example clean_arg_escaped :
  clean_arg (js "-Dk=\" ++ [dquote] ++ js "v\" ++ [dquote])
  = js "-Dk=" ++ [dquote] ++ js "v" ++ [dquote].
Proof. reflexivity. Qed.

(** C5.  On the line [-Xmx512m Q-Dfoo=bar bazQ] (Q the double quote)
    [parseVMargs] appends exactly the two arguments [-Xmx512m] and
    [-Dfoo=bar baz], the second without its enclosing quotes, leaving out
    those the parameter list already holds; an escaped quote is unescaped;
    and on every line and parameter list the call only appends, the appended
    arguments are pairwise distinct and none of them was present before. *)
Theorem parseVMargs_sample_and_dedup :
  parseVMargs [] sample_line = [js "-Xmx512m"; js "-Dfoo=bar baz"]
  /\ (forall params,
        parseVMargs params sample_line
        = params ++ filter (absent params) [js "-Xmx512m"; js "-Dfoo=bar baz"])
  /\ parseVMargs [] (js "-Dk=\" ++ [dquote] ++ js "v\" ++ [dquote])
     = [js "-Dk=" ++ [dquote] ++ js "v" ++ [dquote]]
  /\ (forall params line,
        exists added,
          parseVMargs params line = params ++ added
          /\ NoDup added
          /\ (forall a, In a added -> ~ In a params)).
Proof.
  split; [reflexivity|]. split; [|split; [reflexivity|]].
  - intros params.
    change (parseVMargs params sample_line)
      with (add_arg (add_arg params (js "-Xmx512m"))
              ([dquote] ++ js "-Dfoo=bar baz" ++ [dquote])).
    unfold add_arg.
    change (clean_arg (js "-Xmx512m")) with (js "-Xmx512m").
    change (clean_arg ([dquote] ++ js "-Dfoo=bar baz" ++ [dquote]))
      with (js "-Dfoo=bar baz").
    cbn [filter].
    destruct (absent params (js "-Xmx512m")) eqn:E1.
    + rewrite absent_snoc by (vm_compute; discriminate).
      destruct (absent params (js "-Dfoo=bar baz")) eqn:E2.
      * now rewrite <- app_assoc.
      * reflexivity.
    + destruct (absent params (js "-Dfoo=bar baz")) eqn:E2.
      * reflexivity.
      * now rewrite app_nil_r.
  - intros params line. unfold parseVMargs.
    destruct line as [|c line].
    + exists []. rewrite app_nil_r. split; [reflexivity | split; [constructor | easy]].
    + destruct (vmargs_match (c :: line)) as [vmargs|].
      * destruct (fold_add_arg vmargs params) as (added & H1 & H2 & H3 & _).
        exists added. auto.
      * exists []. rewrite app_nil_r.
        split; [reflexivity | split; [constructor | easy]].
Qed.

End VMArgsFacts.

(** ** File paths as URLs *)

Module UriFacts.
Import Uri.

Lemma hex_value_digit v : 0 <= v < 16 -> hex_value (hex_digit v) = Some v.
Proof.
  intros H. unfold hex_value, hex_digit.
  destruct (Z.ltb_spec v 10).
  - replace ((48 <=? 48 + v) && (48 + v <=? 57)) with true by (zcases; reflexivity).
    f_equal. lia.
  - replace ((48 <=? 55 + v) && (55 + v <=? 57)) with false by (zcases; reflexivity).
    replace ((65 <=? 55 + v) && (55 + v <=? 70)) with true by (zcases; reflexivity).
    f_equal. lia.
Qed.

Lemma parse_hex_octet_escape b t :
  0 <= b < 256 ->
  parse_hex_octet (hex_digit (b / 16) :: hex_digit (b mod 16) :: t) = Some (b, t).
Proof.
  intros H. unfold parse_hex_octet.
  rewrite !hex_value_digit by dlia.
  do 2 f_equal. dlia.
Qed.

Lemma continuation_octets_escape bs t :
  Forall (fun b => 0 <= b < 256) bs ->
  continuation_octets (List.length bs) (escape_octets bs ++ t) = Some (bs, t).
Proof.
  induction 1 as [|b bs Hb _ IH]; [reflexivity|].
  cbn [List.length continuation_octets escape_octets flat_map escape_octet app].
  change (percent =? percent) with true. cbv iota.
  rewrite parse_hex_octet_escape by assumption.
  fold (escape_octets bs). now rewrite IH.
Qed.

(** One round of the loop on a unit that is not a percent sign. *)
Lemma decode_loop_plain fuel c t :
  c <> percent ->
  decode_loop (S fuel) (c :: t) = prepend [c] (decode_loop fuel t).
Proof.
  intros H. cbn [decode_loop].
  destruct (Z.eqb_spec c percent); [contradiction | reflexivity].
Qed.

(** One round on the escape of an ASCII unit outside the reserved set. *)
Lemma decode_loop_ascii fuel b t :
  0 <= b < 128 -> uri_reserved_hash b = false ->
  decode_loop (S fuel) (escape_octet b ++ t) = prepend [b] (decode_loop fuel t).
Proof.
  intros Hb Hr. unfold escape_octet.
  cbn [app decode_loop]. change (percent =? percent) with true. cbv iota.
  rewrite parse_hex_octet_escape by lia.
  unfold leading_ones. destruct (Z.ltb_spec b 128); [|lia].
  now rewrite Hr.
Qed.

(** One round on the escapes of a multi-octet UTF-8 sequence. *)
Lemma decode_loop_multi fuel b0 bs t cp :
  octet b0 -> Forall octet bs ->
  leading_ones b0 = S (List.length bs) ->
  (1 <= List.length bs <= 3)%nat ->
  utf8_decode (b0 :: bs) = Some cp ->
  decode_loop (S fuel) (escape_octets (b0 :: bs) ++ t)
  = prepend (utf16_encode cp) (decode_loop fuel t).
Proof.
  intros H0 Hbs Hn Hlen Hdec.
  cbn [escape_octets flat_map escape_octet app decode_loop].
  change (percent =? percent) with true. cbv iota.
  rewrite parse_hex_octet_escape by exact H0.
  rewrite Hn.
  destruct (List.length bs) as [|n'] eqn:El; [lia|].
  replace (4 <? Z.of_nat (S (S n'))) with false
    by (symmetry; apply Z.ltb_ge; lia).
  fold (escape_octets bs). rewrite <- El.
  rewrite continuation_octets_escape by exact Hbs.
  now rewrite Hdec.
Qed.

Lemma utf8_two cp :
  128 <= cp < 2048 ->
  let b0 := 192 + cp / 64 in
  let b1 := 128 + cp mod 64 in
  utf8_encode cp = [b0; b1] /\ octet b0 /\ octet b1
  /\ leading_ones b0 = 2%nat /\ utf8_decode [b0; b1] = Some cp.
Proof.
  intros H b0 b1. unfold utf8_encode, octet, leading_ones, utf8_decode, is_continuation.
  subst b0 b1.
  assert (0 <= cp / 64 < 32 /\ 0 <= cp mod 64 < 64) as [Hq Hr] by dlia.
  assert ((192 + cp / 64 - 192) * 64 + (128 + cp mod 64 - 128) = cp) as -> by dlia.
  repeat split; try lia; zcases; reflexivity.
Qed.

Lemma utf8_three cp :
  2048 <= cp < 65536 -> ~ (55296 <= cp <= 57343) ->
  let b0 := 224 + cp / 4096 in
  let b1 := 128 + (cp / 64) mod 64 in
  let b2 := 128 + cp mod 64 in
  utf8_encode cp = [b0; b1; b2] /\ octet b0 /\ octet b1 /\ octet b2
  /\ leading_ones b0 = 3%nat /\ utf8_decode [b0; b1; b2] = Some cp.
Proof.
  intros H Hs b0 b1 b2.
  unfold utf8_encode, octet, leading_ones, utf8_decode, is_continuation.
  subst b0 b1 b2.
  assert (0 <= cp / 4096 < 16 /\ 0 <= (cp / 64) mod 64 < 64
          /\ 0 <= cp mod 64 < 64) as (Hq & Hm & Hr) by dlia.
  assert ((224 + cp / 4096 - 224) * 4096 + (128 + (cp / 64) mod 64 - 128) * 64
          + (128 + cp mod 64 - 128) = cp) as -> by dlia.
  repeat split; try lia; zcases; reflexivity.
Qed.

Lemma utf8_four cp :
  65536 <= cp <= 1114111 ->
  let b0 := 240 + cp / 262144 in
  let b1 := 128 + (cp / 4096) mod 64 in
  let b2 := 128 + (cp / 64) mod 64 in
  let b3 := 128 + cp mod 64 in
  utf8_encode cp = [b0; b1; b2; b3]
  /\ octet b0 /\ octet b1 /\ octet b2 /\ octet b3
  /\ leading_ones b0 = 4%nat /\ utf8_decode [b0; b1; b2; b3] = Some cp.
Proof.
  intros H b0 b1 b2 b3.
  unfold utf8_encode, octet, leading_ones, utf8_decode, is_continuation.
  subst b0 b1 b2 b3.
  assert (0 <= cp / 262144 < 5 /\ 0 <= (cp / 4096) mod 64 < 64
          /\ 0 <= (cp / 64) mod 64 < 64 /\ 0 <= cp mod 64 < 64)
    as (Hq & Hm1 & Hm2 & Hr) by dlia.
  assert ((240 + cp / 262144 - 240) * 262144
          + (128 + (cp / 4096) mod 64 - 128) * 4096
          + (128 + (cp / 64) mod 64 - 128) * 64
          + (128 + cp mod 64 - 128) = cp) as -> by dlia.
  repeat split; try lia; zcases; reflexivity.
Qed.

(** One round of the loop undoes the escapes of a code point above ASCII. *)
Lemma decode_loop_code_point fuel cp t :
  128 <= cp <= 1114111 -> ~ (55296 <= cp <= 57343) ->
  decode_loop (S fuel) (escape_octets (utf8_encode cp) ++ t)
  = prepend (utf16_encode cp) (decode_loop fuel t).
Proof.
  intros H Hs.
  destruct (Z.lt_ge_cases cp 2048) as [H2|H2];
    [|destruct (Z.lt_ge_cases cp 65536) as [H3|H3]].
  - destruct (utf8_two cp) as (-> & O0 & O1 & Hn & Hd); [lia|].
    apply decode_loop_multi; auto; simpl; lia.
  - destruct (utf8_three cp) as (-> & O0 & O1 & O2 & Hn & Hd); [lia | assumption |].
    apply decode_loop_multi; auto; simpl; lia.
  - destruct (utf8_four cp) as (-> & O0 & O1 & O2 & O3 & Hn & Hd); [lia|].
    apply decode_loop_multi; auto; simpl; lia.
Qed.

Lemma prepend_return {A} (pre : list A) r u :
  prepend pre r = Return u -> exists u', r = Return u' /\ u = pre ++ u'.
Proof.
  destruct r as [u'|e]; simpl; intros H; [|discriminate].
  injection H as <-. now exists u'.
Qed.

Lemma unescaped_not_percent c : unescaped_set c = true -> c <> percent.
Proof. intros H ->. discriminate H. Qed.

(** Every unit that [encodeURI] keeps is an ASCII character. *)
Lemma unescaped_ascii c : unescaped_set c = true -> 0 <= c < 128.
Proof.
  unfold unescaped_set, uri_reserved_hash, uri_unescaped. intros H.
  assert (forall l, forallb (fun x => (0 <=? x) && (x <? 128)) l = true ->
                    existsb (Z.eqb c) l = true -> 0 <= c < 128) as G.
  { intros l Hall Hex. apply existsb_exists in Hex as (x & Hin & Hx).
    apply Z.eqb_eq in Hx. subst x.
    rewrite forallb_forall in Hall. apply Hall in Hin.
    apply andb_true_iff in Hin as [A B]. apply Z.leb_le in A. apply Z.ltb_lt in B.
    lia. }
  apply orb_true_iff in H as [H|H]; [now apply G in H|].
  apply orb_true_iff in H as [H|H]; [|now apply G in H].
  unfold is_alnum in H. revert H. zcases; discriminate.
Qed.

Lemma escape_octets_length cp :
  (1 <= List.length (escape_octets (utf8_encode cp)))%nat.
Proof.
  unfold utf8_encode.
  destruct (cp <? 128); [simpl; lia|].
  destruct (cp <? 2048); [simpl; lia|].
  destruct (cp <? 65536); simpl; lia.
Qed.

Lemma pair_code_point c d :
  is_lead c = true -> is_trail d = true ->
  65536 <= pair_to_code_point c d <= 1114111
  /\ utf16_encode (pair_to_code_point c d) = [c; d].
Proof.
  unfold is_lead, is_trail, pair_to_code_point, utf16_encode.
  intros Hc Hd.
  apply andb_true_iff in Hc as [Hc1 Hc2]. apply andb_true_iff in Hd as [Hd1 Hd2].
  apply Z.leb_le in Hc1, Hc2, Hd1, Hd2.
  split; [lia|].
  destruct (Z.ltb_spec ((c - 55296) * 1024 + (d - 56320) + 65536) 65536); [lia|].
  f_equal; [|f_equal]; dlia.
Qed.

(** What one round of [encodeURI] emits is read back by one round of
    [decodeURI]; by induction on the length of the text. *)
Lemma encode_decode_loop n : forall s,
  (List.length s <= n)%nat -> Forall code_unit s ->
  forall u, encodeURI s = Return u ->
  forall fuel, (List.length u <= fuel)%nat -> decode_loop fuel u = Return s.
Proof.
  induction n as [|n IH]; intros s Hn Hs u He fuel Hf.
  - destruct s; [|simpl in Hn; lia]. injection He as <-. now destruct fuel.
  - destruct s as [|c rest]; [injection He as <-; now destruct fuel|].
    inversion Hs as [|c' rest' Hc Hrest]; subst c' rest'.
    simpl in Hn. cbn [encodeURI] in He.
    destruct (unescaped_set c) eqn:Eu.
    + apply prepend_return in He as (u' & He & ->).
      change ([c] ++ u') with (c :: u') in *.
      destruct fuel as [|fuel]; [simpl in Hf; lia|]. simpl in Hf.
      rewrite decode_loop_plain by now apply unescaped_not_percent.
      rewrite (IH rest) with (u := u'); [reflexivity | lia | assumption | assumption | lia].
    + destruct (is_trail c) eqn:Et; [discriminate|].
      destruct (is_lead c) eqn:El.
      * destruct rest as [|d rest']; [discriminate|].
        destruct (is_trail d) eqn:Etd; [|discriminate].
        apply prepend_return in He as (u' & He & ->).
        destruct (pair_code_point c d El Etd) as [Hcp H16].
        pose proof (escape_octets_length (pair_to_code_point c d)) as Hl.
        rewrite length_app in Hf.
        destruct fuel as [|fuel]; [lia|].
        rewrite decode_loop_code_point by lia.
        rewrite H16.
        inversion Hrest as [|d' rest'' Hd Hrest']; subst d' rest''.
        simpl in Hn.
        rewrite (IH rest') with (u := u'); [reflexivity | lia | assumption | assumption | lia].
      * apply prepend_return in He as (u' & He & ->).
        pose proof (escape_octets_length c) as Hl.
        rewrite length_app in Hf.
        destruct fuel as [|fuel]; [lia|].
        assert (decode_loop (S fuel) (escape_octets (utf8_encode c) ++ u')
                = prepend [c] (decode_loop fuel u')) as ->.
        { destruct (Z.lt_ge_cases c 128) as [Hlt|Hge].
          - unfold utf8_encode. destruct (Z.ltb_spec c 128); [|lia].
            cbn [escape_octets flat_map]. rewrite app_nil_r.
            apply decode_loop_ascii; [unfold code_unit in Hc; lia|].
            unfold unescaped_set in Eu. now apply orb_false_iff in Eu as [Eu _].
          - unfold is_trail, is_lead in Et, El. unfold code_unit in Hc.
            rewrite decode_loop_code_point.
            + unfold utf16_encode. destruct (Z.ltb_spec c 65536); [reflexivity | lia].
            + lia.
            + intros [A B]. apply Z.leb_le in A, B.
              destruct (Z.leb_spec c 56319) as [C|C].
              * rewrite A in El. simpl in El. discriminate.
              * assert ((56320 <=? c) = true) as D by (apply Z.leb_le; lia).
                rewrite D, B in Et. discriminate. }
        rewrite (IH rest) with (u := u'); [reflexivity | lia | assumption | assumption | lia].
Qed.

(** [decodeURI] is a left inverse of [encodeURI]. *)
Lemma decodeURI_encodeURI s u :
  Forall code_unit s -> encodeURI s = Return u -> decodeURI u = Return s.
Proof.
  intros Hs He. unfold decodeURI.
  now apply (encode_decode_loop (List.length s) s (le_n _) Hs u He).
Qed.

(** [encodeURI] returns exactly on the well-formed strings. *)
Lemma encodeURI_total s :
  well_formed s = true <-> exists u, encodeURI s = Return u.
Proof.
  assert (forall n s, (List.length s <= n)%nat ->
            (well_formed s = true <-> exists u, encodeURI s = Return u)) as G.
  { clear s. induction n as [|n IH]; intros s Hn.
    - destruct s; [|simpl in Hn; lia]. split; [now exists [] | reflexivity].
    - destruct s as [|c rest]; [split; [now exists [] | reflexivity]|].
      simpl in Hn. cbn [well_formed encodeURI].
      assert (forall pre r, (exists u, prepend pre r = Return u)
                            <-> exists u : jsstring, r = Return u) as P.
      { intros pre r. destruct r as [u'|e]; simpl; split; intros [u H];
          try discriminate; eauto. }
      destruct (is_trail c) eqn:Et.
      + assert (unescaped_set c = false) as ->.
        { unfold is_trail in Et. apply andb_true_iff in Et as [A B].
          apply Z.leb_le in A, B.
          destruct (unescaped_set c) eqn:Eu; [|reflexivity].
          apply unescaped_ascii in Eu. lia. }
        split; [discriminate | intros [u H]; discriminate].
      + destruct (is_lead c) eqn:El.
        * assert (unescaped_set c = false) as ->.
          { unfold is_lead in El. apply andb_true_iff in El as [A B].
            apply Z.leb_le in A, B.
            destruct (unescaped_set c) eqn:Eu; [|reflexivity].
            apply unescaped_ascii in Eu. lia. }
          destruct rest as [|d rest']; [split; [discriminate | intros [u H]; discriminate]|].
          destruct (is_trail d); simpl.
          -- rewrite P. apply IH. simpl in Hn. lia.
          -- split; [discriminate | intros [u H]; discriminate].
        * destruct (unescaped_set c); rewrite P; apply IH; lia. }
  apply (G (List.length s)). lia.
Qed.

(** *** [toUrl] *)

Lemma replace_backslashes_units s :
  Forall code_unit s -> Forall code_unit (replace_backslashes s).
Proof.
  induction 1 as [|c s Hc _ IH]; simpl; constructor; [|assumption].
  destruct (c =? backslash); [unfold code_unit, slash; lia | assumption].
Qed.

Lemma replace_backslashes_surrogates c :
  let c' := if c =? backslash then slash else c in
  is_lead c' = is_lead c /\ is_trail c' = is_trail c.
Proof.
  simpl. destruct (Z.eqb_spec c backslash) as [->|]; [|auto].
  split; reflexivity.
Qed.

Lemma replace_backslashes_well_formed s :
  well_formed (replace_backslashes s) = well_formed s.
Proof.
  assert (forall n s, (List.length s <= n)%nat ->
            well_formed (replace_backslashes s) = well_formed s) as G.
  { clear s. induction n as [|n IH]; intros s Hn.
    - destruct s; [reflexivity | simpl in Hn; lia].
    - destruct s as [|c rest]; [reflexivity|]. simpl in Hn.
      cbn [replace_backslashes map well_formed].
      destruct (replace_backslashes_surrogates c) as [-> ->].
      destruct (is_trail c); [reflexivity|].
      destruct (is_lead c).
      + destruct rest as [|d rest']; [reflexivity|].
        cbn [map]. destruct (replace_backslashes_surrogates d) as [_ ->].
        fold (replace_backslashes rest'). rewrite IH; [reflexivity | simpl in Hn; lia].
      + fold (replace_backslashes rest). apply IH. lia. }
  apply (G (List.length s)). lia.
Qed.

Lemma ensure_leading_slash_units s :
  Forall code_unit s -> Forall code_unit (ensure_leading_slash s).
Proof.
  intros H. unfold ensure_leading_slash.
  assert (code_unit slash) by (unfold code_unit, slash; lia).
  destruct s as [|c s]; [now constructor|].
  destruct (c =? slash); [assumption | now constructor].
Qed.

Lemma ensure_leading_slash_well_formed s :
  well_formed (ensure_leading_slash s) = well_formed s.
Proof.
  unfold ensure_leading_slash. destruct s as [|c s]; [reflexivity|].
  destruct (c =? slash); reflexivity.
Qed.

(** [toUrl] returns a URL on every path that resolves to a well-formed
    string, and [decodeURI] gives back [file://] followed by the resolved
    path with forward slashes and a leading slash. *)
Lemma toUrl_decodes resolve filePath :
  Forall code_unit (resolve filePath) -> well_formed (resolve filePath) = true ->
  exists url,
    toUrl resolve filePath = Return url
    /\ decodeURI url
       = Return (js "file://"
                 ++ ensure_leading_slash (replace_backslashes (resolve filePath))).
Proof.
  intros Hu Hw. unfold toUrl.
  set (p := ensure_leading_slash (replace_backslashes (resolve filePath))).
  assert (Forall code_unit (js "file://" ++ p)) as Hu'.
  { apply Forall_app. split.
    - repeat constructor; unfold code_unit; lia.
    - now apply ensure_leading_slash_units, replace_backslashes_units. }
  assert (well_formed (js "file://" ++ p) = true) as Hw'.
  { change (well_formed (js "file://" ++ p)) with (well_formed p).
    subst p. now rewrite ensure_leading_slash_well_formed,
      replace_backslashes_well_formed. }
  apply encodeURI_total in Hw' as [url Hurl].
  exists url. split; [assumption|]. now apply decodeURI_encodeURI.
Qed.

(** C1, as the code has it.  [toUrl] is [encodeURI] of [file://] and the
    resolved path with backslashes turned into slashes; when that path does
    not begin with a slash (a resolved Windows path with a drive letter)
    exactly one slash is put in front of it, and none otherwise; and for a
    path that resolves to a well-formed string, decoding the URL gives back
    [file://] and this resolved, slash-separated path (not the path as it was
    given). *)
Theorem toUrl_roundtrip_resolved (resolve : jsstring -> jsstring) (filePath : jsstring) :
  let pathName := replace_backslashes (resolve filePath) in
  toUrl resolve filePath = encodeURI (js "file://" ++ ensure_leading_slash pathName)
  /\ (is_absolute pathName = false ->
      ensure_leading_slash pathName = slash :: pathName)
  /\ (is_absolute pathName = true -> ensure_leading_slash pathName = pathName)
  /\ (Forall code_unit (resolve filePath) -> well_formed (resolve filePath) = true ->
      exists url,
        toUrl resolve filePath = Return url
        /\ decodeURI url = Return (js "file://" ++ ensure_leading_slash pathName)).
Proof.
  intros pathName. split; [reflexivity|]. split; [|split].
  - unfold is_absolute, ensure_leading_slash.
    destruct pathName as [|c t]; [reflexivity|]. now intros ->.
  - unfold is_absolute, ensure_leading_slash.
    destruct pathName as [|c t]; [discriminate|]. now intros ->.
  - apply toUrl_decodes.
Qed.

(** A resolved Windows path with a drive letter and a space; [Path.resolve]
    leaves such a path as it is. *)
Lemma toUrl_roundtrip_resolved_witness :
  ensure_leading_slash (replace_backslashes (js "C:\x y")) = js "/C:/x y"
  /\ exists url,
       toUrl (fun p => p) (js "C:\x y") = Return url
       /\ decodeURI url = Return (js "file:///C:/x y").
Proof.
  destruct (toUrl_roundtrip_resolved (fun p => p) (js "C:\x y"))
    as (_ & H1 & _ & H2).
  split.
  - apply H1. reflexivity.
  - apply H2.
    + repeat constructor; unfold code_unit; lia.
    + reflexivity.
Defined.

(** C1, as the claim has it, fails: on POSIX two different paths, one with a
    backslash in a file name and one with a slash in its place, have the same
    URL, so no decoding gives back the original path of both; and a relative
    path, whose first character is no separator, is resolved against the
    working directory instead of getting a slash in front. *)
Lemma toUrl_not_injective :
  toUrl (posix_resolve (js "/home/u")) (js "/a\b") = Return (js "file:///a/b")
  /\ toUrl (posix_resolve (js "/home/u")) (js "/a/b") = Return (js "file:///a/b")
  /\ decodeURI (js "file:///a/b") = Return (js "file:///a/b")
  /\ js "/a\b" <> js "/a/b"
  /\ toUrl (posix_resolve (js "/home/u")) (js "a b")
     = Return (js "file:///home/u/a%20b").
Proof.
  split; [reflexivity|]. split; [reflexivity|]. split; [reflexivity|].
  split; [discriminate | reflexivity].
Qed.

End UriFacts.

(** ** The source-control bridge *)

Module ScmFacts.
Import Scm.

Local Open Scope js_scope.

Lemma uri_eqb_eq a b : uri_eqb a b = true <-> a = b.
Proof.
  unfold uri_eqb. rewrite jsstring_eqb_true.
  destruct a, b; simpl. split; congruence.
Qed.

Lemma uri_eqb_refl a : uri_eqb a a = true.
Proof. now apply uri_eqb_eq. Qed.

Lemma notifications_for_app u t1 t2 :
  notifications_for u (t1 ++ t2) = notifications_for u t1 ++ notifications_for u t2.
Proof.
  induction t1 as [|e t1 IH]; [reflexivity|].
  destruct e; simpl; try assumption.
  destruct (uri_eqb folderUri u); simpl; now rewrite IH.
Qed.

Lemma notifications_app t1 t2 :
  notifications (t1 ++ t2) = notifications t1 ++ notifications t2.
Proof.
  induction t1 as [|e t1 IH]; [reflexivity|].
  destruct e; simpl; try assumption. now rewrite IH.
Qed.

(** A run of the change listener: it returns, leaves [listeners] alone, and
    logs and notifies once for each folder under the root, in the order of
    the folders. *)
Lemma onRepositoryChange_run api folders repository listeners :
  onRepositoryChange (mkEnv api (Some folders)) repository listeners
  = (Return tt, listeners, flat_map (change_effects repository) folders).
Proof.
  unfold onRepositoryChange, workspaceFolders_forEach. cbn [workspaceFolders].
  apply forEach_emits. intros folder s.
  unfold change_effects, under_root.
  destruct (startsWith _ _); reflexivity.
Qed.

Lemma notifications_for_change u repository folders :
  notifications_for u (flat_map (change_effects repository) folders)
  = map (fun _ => head_name repository)
      (filter (fun f => under_root repository f && uri_eqb (uri f) u) folders).
Proof.
  induction folders as [|f folders IH]; [reflexivity|].
  cbn [flat_map filter]. rewrite notifications_for_app, IH.
  unfold change_effects. destruct (under_root repository f); [|reflexivity].
  cbn [notifications_for andb]. destruct (uri_eqb (uri f) u); reflexivity.
Qed.

Lemma filter_none {A} (p : A -> bool) l :
  (forall x, In x l -> p x = false) -> filter p l = [].
Proof.
  induction l as [|x l IH]; intros H; [reflexivity|]. simpl.
  rewrite (H x) by now left. apply IH. intros y Hy. apply H. now right.
Qed.

(** Among folders with pairwise distinct URIs exactly one has a given
    folder's URI. *)
Lemma filter_uri_unique (p : WorkspaceFolder -> bool) folders f :
  NoDup (map uri folders) -> In f folders -> p f = true ->
  filter (fun g => p g && uri_eqb (uri g) (uri f)) folders = [f].
Proof.
  induction folders as [|g folders IH]; intros Hnd Hin Hp; [destruct Hin|].
  cbn [map] in Hnd. inversion Hnd as [|x l Hnotin Hnd']; subst x l.
  cbn [filter]. destruct Hin as [->|Hin].
  - rewrite Hp, uri_eqb_refl. cbn [andb]. f_equal.
    apply filter_none. intros g Hg.
    destruct (uri_eqb (uri g) (uri f)) eqn:E; [|apply andb_false_r].
    apply uri_eqb_eq in E. exfalso. apply Hnotin. rewrite <- E.
    now apply in_map.
  - destruct (uri_eqb (uri g) (uri f)) eqn:E.
    + apply uri_eqb_eq in E. exfalso. apply Hnotin. rewrite E. now apply in_map.
    + rewrite andb_false_r. now apply IH.
Qed.

(** One run of the listener that [subscribeToRepositoryChanges]
    registers, with the workspace folders [folders]: it returns, and the
    notifications it sends are, in order, one for each folder whose URI
    string starts with the root URI string of the repository, each with the
    name of the current HEAD (absent when there is no HEAD or HEAD has no
    name); so a folder under the root, the folders having pairwise distinct
    URIs, gets exactly one notification from this run, and a folder that is
    not under the root gets none. *)
Lemma onRepositoryChange_notifies api folders repository listeners :
  let run := onRepositoryChange (mkEnv api (Some folders)) repository listeners in
  fst run = (Return tt, listeners)
  /\ notifications (trace_of run)
     = map (fun f => (uri f, head_name repository))
         (filter (under_root repository) folders)
  /\ (forall f, NoDup (map uri folders) -> In f folders ->
        under_root repository f = true ->
        notifications_for (uri f) (trace_of run) = [head_name repository])
  /\ (forall f, under_root repository f = false ->
        notifications_for (uri f) (trace_of run) = [])
  /\ (HEAD (state repository) = None -> head_name repository = None)
  /\ (forall h, HEAD (state repository) = Some h -> head_name repository = name h).
Proof.
  intros run. subst run. rewrite onRepositoryChange_run. unfold trace_of.
  cbn [fst snd]. split; [reflexivity|]. split; [|split; [|split; [|split]]].
  - induction folders as [|f folders IH]; [reflexivity|].
    cbn [flat_map filter]. rewrite notifications_app, IH.
    unfold change_effects. destruct (under_root repository f); reflexivity.
  - intros f Hnd Hin Hu. rewrite notifications_for_change.
    now rewrite (filter_uri_unique _ folders f Hnd Hin Hu).
  - intros f Hu. rewrite notifications_for_change.
    rewrite filter_none; [reflexivity|]. intros g _.
    destruct (uri_eqb (uri g) (uri f)) eqn:E; [|apply andb_false_r].
    apply uri_eqb_eq in E. unfold under_root in *. rewrite E, Hu. reflexivity.
  - unfold head_name. now intros ->.
  - unfold head_name. now intros h ->.
Qed.

(** When the folders are [undefined] the listener throws before it sends
    anything. *)
Lemma onRepositoryChange_no_folders api repository listeners :
  onRepositoryChange (mkEnv api None) repository listeners
  = (Throw TypeError, listeners, []).
Proof. reflexivity. Qed.

(** *** The initial enumeration *)

Lemma subscribe_all_repositories rs listeners :
  forEach subscribeToRepositoryChanges rs listeners
  = (Return tt,
     listeners ++ map (fun r => mkDisposable (OnDidChange r)) rs,
     map (fun r => Subscribe (OnDidChange r)) rs).
Proof.
  revert listeners.
  apply (forEach_pushes subscribeToRepositoryChanges
           (fun r => mkDisposable (OnDidChange r))
           (fun r => Subscribe (OnDidChange r))).
  intros r s. reflexivity.
Qed.

(** A run of [subscribeToAllRepositoryChanges]: every known repository is
    subscribed to, then every workspace folder is logged and notified. *)
Lemma subscribeToAllRepositoryChanges_run api folders listeners :
  subscribeToAllRepositoryChanges (mkEnv api (Some folders)) listeners
  = (Return tt,
     listeners ++ map (fun r => mkDisposable (OnDidChange r)) (repositories api),
     map (fun r => Subscribe (OnDidChange r)) (repositories api)
     ++ flat_map (initial_effects api) folders).
Proof.
  unfold subscribeToAllRepositoryChanges, bind. cbn [gitApi].
  rewrite subscribe_all_repositories.
  unfold workspaceFolders_forEach. cbn [workspaceFolders].
  rewrite (forEach_emits _ (initial_effects api)); [reflexivity|].
  intros folder s. reflexivity.
Qed.

Lemma notifications_subscriptions rs :
  notifications (map (fun r => Subscribe (OnDidChange r)) rs) = [].
Proof. induction rs; simpl; auto. Qed.

Lemma notifications_initial api folders :
  notifications (flat_map (initial_effects api) folders)
  = map (fun f => (uri f, initial_branch api f)) folders.
Proof. induction folders as [|f folders IH]; simpl; [|rewrite IH]; reflexivity. Qed.

(** C4, as the code has it.  The initial enumeration, whether the
    constructor runs it (Git API already initialised) or the listener on the
    state of the API does (on the change to initialised), sends exactly one
    notification for every workspace folder, in the order of the folders:
    with the name of the HEAD of the repository that [getRepository] finds
    for the folder, and with an absent name when no repository contains
    the folder (or there is no HEAD, or HEAD has no name). *)
Theorem initial_enumeration_notifies_every_folder api folders listeners :
  let expected := map (fun f => (uri f, initial_branch api f)) folders in
  notifications
    (trace_of (subscribeToAllRepositoryChanges (mkEnv api (Some folders)) listeners))
  = expected
  /\ (api_state api = initialized ->
      notifications (trace_of (constructor (mkEnv api (Some folders)) [])) = expected)
  /\ notifications
       (trace_of (onStateChange (mkEnv api (Some folders)) initialized listeners))
     = expected
  /\ (forall f, getRepository api (uri f) = None -> initial_branch api f = None).
Proof.
  intros expected. subst expected.
  assert (forall l,
            notifications
              (trace_of (subscribeToAllRepositoryChanges (mkEnv api (Some folders)) l))
            = map (fun f => (uri f, initial_branch api f)) folders) as G.
  { intros l. rewrite subscribeToAllRepositoryChanges_run. unfold trace_of.
    cbn [snd]. now rewrite notifications_app, notifications_subscriptions,
      notifications_initial. }
  split; [apply G|]. split; [|split].
  - intros Hinit. unfold constructor, bind, trace_of. cbn [emit put gitApi].
    rewrite Hinit.
    specialize (G [mkDisposable OnDidOpenRepository]). unfold trace_of in G.
    destruct (subscribeToAllRepositoryChanges _ _) as [[r l] t].
    cbn [snd app] in *. exact G.
  - apply G.
  - intros f Hf. unfold initial_branch. now rewrite Hf.
Qed.

Lemma initial_enumeration_notifies_every_folder_witness :
  notifications
    (trace_of (constructor (mkEnv sample_api (Some [folder_app; folder_tmp])) []))
  = [(uri folder_app, Some (js "main")); (uri folder_tmp, None)].
Proof.
  destruct (initial_enumeration_notifies_every_folder sample_api
              [folder_app; folder_tmp] []) as (_ & H & _).
  apply H. reflexivity.
Defined.

(** C4, as the claim has it, fails: with a Git API that is initialised and
    knows no repository, the constructor still notifies the client about the
    one workspace folder, with an absent branch name. *)
Lemma initial_enumeration_notifies_folder_outside_repositories :
  repositories (empty_api initialized) = []
  /\ getRepository (empty_api initialized) (uri folder_tmp) = None
  /\ notifications
       (trace_of (constructor (mkEnv (empty_api initialized) (Some [folder_tmp])) []))
     = [(uri folder_tmp, None)].
Proof. repeat split. Qed.

(** *** Disposal *)

(** A run of [dispose] on any listeners, whatever their [dispose] methods
    do. *)
Lemma GitScm_dispose_run
  (dispose_of : Disposable -> outcome unit) (listeners : list Disposable) :
  GitScm_dispose dispose_of listeners
  = (Return tt, listeners, map CallDispose listeners).
Proof.
  assert (forall d s,
            try_catch (call_dispose dispose_of d) (fun _ => ret tt) s
            = (Return tt, s, [CallDispose d])) as Hbody.
  { intros d s. unfold try_catch, call_dispose, bind, emit, lift.
    destruct (dispose_of d) as [[]|e]; reflexivity. }
  unfold GitScm_dispose, bind, get.
  rewrite (forEach_emits _ (fun d => [CallDispose d]) listeners Hbody).
  cbn [app]. f_equal.
Qed.

(** C9.  [dispose] never throws, whatever the [dispose] methods of the
    registered listeners do: it calls [dispose] on every listener, in order,
    so a call that throws does not stop the calls that follow; the array of
    listeners is left as it is.  The same holds through the interface [Scm],
    and the no-op bridge has nothing to dispose of. *)
Theorem GitScm_dispose_isolates_failures
  (dispose_of : Disposable -> outcome unit) (listeners : list Disposable) :
  GitScm_dispose dispose_of listeners
  = (Return tt, listeners, map CallDispose listeners)
  /\ (forall api,
        dispose dispose_of (mkGitScm api listeners)
        = (Return tt, mkGitScm api listeners, map CallDispose listeners))
  /\ dispose dispose_of mkNoopScm = (Return tt, mkNoopScm, []).
Proof.
  split; [apply GitScm_dispose_run|]. split; [|reflexivity].
  intros api. cbn [dispose GitScm_Scm Scm.listeners git_api].
  now rewrite GitScm_dispose_run.
Qed.

(** A listener whose [dispose] throws, between two that return: all three
    are disposed of. *)
Example GitScm_dispose_sample :
  let failing d :=
    match subscription d with
    | OnDidChange _ => Throw OtherError
    | _ => Return tt
    end in
  GitScm_dispose failing
    [mkDisposable OnDidOpenRepository;
     mkDisposable (OnDidChange sample_repository);
     mkDisposable OnDidOpenRepository]
  = (Return tt,
     [mkDisposable OnDidOpenRepository;
      mkDisposable (OnDidChange sample_repository);
      mkDisposable OnDidOpenRepository],
     [CallDispose (mkDisposable OnDidOpenRepository);
      CallDispose (mkDisposable (OnDidChange sample_repository));
      CallDispose (mkDisposable OnDidOpenRepository)]).
Proof. reflexivity. Qed.

(** *** Branch lookup *)

Lemma GitScm_getBranchForFolder_found api folderUri repository :
  getRepository api folderUri = Some repository ->
  GitScm_getBranchForFolder api folderUri = Return (head_name repository).
Proof. unfold GitScm_getBranchForFolder. now intros ->. Qed.

Lemma GitScm_getBranchForFolder_not_found api folderUri :
  getRepository api folderUri = None ->
  GitScm_getBranchForFolder api folderUri = Throw TypeError.
Proof. unfold GitScm_getBranchForFolder. now intros ->. Qed.

(** C3 on the code.  For a folder that no repository contains the lookup of
    [GitScm] throws a [TypeError], where the initial enumeration, which reads
    the same value behind [?.], reports an absent branch; the lookup of
    [NoopScm] returns an absent branch. *)
Example getBranchForFolder_throws_outside_repositories :
  getRepository sample_api (uri folder_tmp) = None
  /\ getBranchForFolder (mkGitScm sample_api []) (uri folder_tmp) = Throw TypeError
  /\ initial_branch sample_api folder_tmp = None
  /\ getBranchForFolder mkNoopScm (uri folder_tmp) = Return None
  /\ getBranchForFolder (mkGitScm sample_api []) (uri folder_app)
     = Return (Some (js "main")).
Proof. repeat split. Qed.

End ScmFacts.

(** ** The ignore check *)

Module IgnoreCheckFacts.
Import IgnoreCheck.

Local Open Scope js_scope.

(** C10.  For a file URI that parses and belongs to no workspace folder the
    check resolves to [false]; the only calls it makes are the parse and the
    folder lookup: none to the Git extension, and the callback that runs the
    Git command is not invoked. *)
Theorem performIsIgnoredCheck_outside_workspace env scmCheck fileUri parsedFileUri :
  Uri_parse env fileUri = Return parsedFileUri ->
  getWorkspaceFolder env parsedFileUri = None ->
  performIsIgnoredCheck env scmCheck fileUri tt
  = (Return false, tt, [CallUriParse fileUri; CallGetWorkspaceFolder parsedFileUri])
  /\ existsb touches_git
       (snd (performIsIgnoredCheck env scmCheck fileUri tt)) = false.
Proof.
  intros Hparse Hfolder.
  assert (performIsIgnoredCheck env scmCheck fileUri tt
          = (Return false, tt,
             [CallUriParse fileUri; CallGetWorkspaceFolder parsedFileUri])) as E.
  { unfold performIsIgnoredCheck, bind, emit, lift. rewrite Hparse.
    cbn. now rewrite Hfolder. }
  split; [exact E | now rewrite E].
Qed.

Lemma performIsIgnoredCheck_outside_workspace_witness :
  performIsIgnoredCheck (sample_env None false) (fun _ _ => Return true)
    (js "file:///w/a.c") tt
  = (Return false, tt,
     [CallUriParse (js "file:///w/a.c"); CallGetWorkspaceFolder (mkUri (js "/w/a.c"))]).
Proof.
  apply (performIsIgnoredCheck_outside_workspace
           (sample_env None false) (fun _ _ => Return true)
           (js "file:///w/a.c") (mkUri (js "/w/a.c"))); reflexivity.
Defined.

(** Inside the [try] block every exception is swallowed: once the Git
    extension and its exports are there, the check resolves, to [false] when
    [getAPI] throws or the callback rejects. *)
Lemma performIsIgnoredCheck_try_block env scmCheck fileUri parsed folder extension git :
  Uri_parse env fileUri = Return parsed ->
  getWorkspaceFolder env parsed = Some folder ->
  getExtension env = Some extension ->
  exports extension = Some git ->
  exists b,
    fst (fst (performIsIgnoredCheck env scmCheck fileUri tt)) = Return b
    /\ (b = true ->
        exists api,
          getAPI git = Return api
          /\ scmCheck (fsPath (uri folder))
               (git_command (git_path api) (asRelativePath env parsed))
             = Return true).
Proof.
  intros Hparse Hfolder Hext Hexp.
  unfold performIsIgnoredCheck, bind, emit, lift, try_catch.
  rewrite Hparse. cbn. rewrite Hfolder. cbn. rewrite Hext. cbn. rewrite Hexp.
  destruct (getAPI git) as [api|e]; cbn.
  - destruct (scmCheck _ _) as [b|e] eqn:E; cbn.
    + exists b. split; [reflexivity|]. intros ->. now exists api.
    + exists false. split; [reflexivity | discriminate].
  - exists false. split; [reflexivity | discriminate].
Qed.

(** C8 on the code.  When [getExtension('vscode.git')] answers [undefined]
    (the Git extension is disabled) and the file is in a workspace folder,
    reading [exports] throws before the [try] block is entered: the promise
    of the check rejects with a [TypeError] instead of resolving to
    [false]. *)
Example performIsIgnoredCheck_rejects_without_git_extension :
  fst (fst (performIsIgnoredCheck (sample_env None true) (fun _ _ => Return true)
              (js "file:///w/a.c") tt))
  = Throw TypeError.
Proof. reflexivity. Qed.

(** The same happens when [Uri.parse] throws. *)
Lemma performIsIgnoredCheck_rejects_when_parse_throws env scmCheck fileUri e :
  Uri_parse env fileUri = Throw e ->
  fst (fst (performIsIgnoredCheck env scmCheck fileUri tt)) = Throw e.
Proof.
  intros H. unfold performIsIgnoredCheck, bind, emit, lift. now rewrite H.
Qed.

End IgnoreCheckFacts.

(** ** The transport bootstrapper *)

Module BootstrapFacts.
Import Bootstrap.

Section Facts.

Variable resolve : list jsstring -> jsstring.
Variable cfg : Config.

Lemma push_urls_appends paths : forall params r,
  push_urls resolve params paths = Return r -> exists added, r = params ++ added.
Proof.
  induction paths as [|p paths IH]; intros params r H; simpl in H.
  - injection H as <-. exists []. now rewrite app_nil_r.
  - destruct (toUrl resolve p) as [url|e]; [|discriminate].
    apply IH in H as [added ->]. exists (url :: added).
    now rewrite <- app_assoc.
Qed.

(** The port is among the arguments, after [-jar] and the server jar. *)
Lemma languageServerCommand_port requirements port command args :
  languageServerCommand resolve cfg requirements port = Return (command, args) ->
  exists before after,
    args = before
           ++ [js "-jar";
               resolve [extensionPath cfg; js "server"; js "sonarlint-ls.jar"];
               port_string port]
           ++ after.
Proof.
  unfold languageServerCommand.
  set (params := VMArgs.parseVMargs _ _).
  set (serverJar := resolve [extensionPath cfg; js "server"; js "sonarlint-ls.jar"]).
  destruct (push_urls resolve _ _) as [params1|e] eqn:E1; [|discriminate].
  apply push_urls_appends in E1 as [added1 ->].
  destruct (secrets_exists cfg).
  - destruct (push_urls resolve _ _) as [params2|e] eqn:E2; [|discriminate].
    apply push_urls_appends in E2 as [added2 ->].
    intros H. injection H as _ <-.
    exists params, ([js "-analyzers"] ++ added1 ++ [js "-extraAnalyzers"] ++ added2).
    now rewrite <- !app_assoc.
  - intros H. injection H as _ <-.
    exists params, ([js "-analyzers"] ++ added1).
    now rewrite <- !app_assoc.
Qed.

(** Only the callback of [listen] spawns the child. *)
Lemma step_spawn st ev command args :
  In (Spawn command args) (snd (step resolve cfg st ev)) ->
  exists port requirements,
    ev = Listening port
    /\ phase st = ListenCalled requirements
    /\ languageServerCommand resolve cfg requirements port = Return (command, args).
Proof.
  unfold step. intros H.
  destruct ev as [requirements| |port|socket], (phase st) as [| |req|p];
    cbn [snd] in H; try (now destruct H); try (destruct H as [H|[H|H]]; try discriminate; now destruct H).
  - destruct (languageServerCommand resolve cfg req port) as [[c a]|e] eqn:E.
    + cbn [snd] in H. apply in_app_or in H as [H|H].
      * destruct (verbose cfg); [destruct H as [H|H]; [discriminate | destruct H] | destruct H].
      * destruct H as [H|[H|[H|H]]]; try discriminate; [|destruct H].
        injection H as -> ->. now exists port, req.
    + cbn [snd] in H. destruct H as [H|H]; [discriminate | destruct H].
  - cbn [snd] in H. apply in_app_or in H as [H|H].
    + destruct (verbose cfg); [destruct H as [H|H]; [discriminate | destruct H] | destruct H].
    + destruct H as [H|H]; [discriminate | destruct H].
Qed.

Lemma step_listen_recorded st ev trace :
  listen_recorded st trace ->
  listen_recorded (fst (step resolve cfg st ev))
    (trace ++ Delivered ev :: map Did (snd (step resolve cfg st ev))).
Proof.
  unfold listen_recorded, step. intros H.
  destruct ev as [requirements| |port|socket], (phase st) as [| |req|p] eqn:Eph;
    cbn [fst snd phase]; try rewrite Eph; try exact I;
    try (apply in_or_app; now left).
  - apply in_or_app. right. right. right. now left.
  - destruct (languageServerCommand resolve cfg req port) as [[c a]|e];
      cbn [fst snd phase]; apply in_or_app; now left.
Qed.

Lemma run_listen_recorded evs : forall st trace,
  listen_recorded st trace ->
  listen_recorded (fst (run resolve cfg st evs))
    (trace ++ snd (run resolve cfg st evs)).
Proof.
  induction evs as [|ev evs IH]; intros st trace H; cbn [run].
  - cbn [fst snd]. now rewrite app_nil_r.
  - pose proof (step_listen_recorded st ev trace H) as H1.
    destruct (step resolve cfg st ev) as [st1 acts]. cbn [fst snd] in H1.
    specialize (IH st1 _ H1).
    destruct (run resolve cfg st1 evs) as [st2 rest]. cbn [fst snd] in *.
    replace (trace ++ Delivered ev :: map Did acts ++ rest)
      with ((trace ++ Delivered ev :: map Did acts) ++ rest)
      by (now rewrite <- app_assoc).
    exact IH.
Qed.

(** After the first connection the promise stays as it is. *)
Lemma step_keeps_resolved st ev port streams :
  phase st = Active port -> promise st = Resolved streams ->
  phase (fst (step resolve cfg st ev)) = Active port
  /\ promise (fst (step resolve cfg st ev)) = Resolved streams.
Proof.
  unfold step. intros Hph Hpr. rewrite Hph.
  destruct ev as [requirements| |p|socket]; cbn [fst phase promise]; auto.
  rewrite Hpr. auto.
Qed.

(** The first connection resolves the promise, in the callback that
    receives it. *)
Lemma step_first_connection st port socket :
  phase st = Active port -> promise st = Pending ->
  promise (fst (step resolve cfg st (Connection socket)))
  = Resolved (mkStreamInfo socket socket)
  /\ In (Resolve (mkStreamInfo socket socket))
       (snd (step resolve cfg st (Connection socket))).
Proof.
  unfold step. intros Hph Hpr. rewrite Hph. cbn [fst snd promise].
  rewrite Hpr. split; [reflexivity|]. apply in_or_app. right. now left.
Qed.

(** C7.  When the requirements are resolved the bootstrap creates the server
    and calls [listen] with port 0, and does nothing else.  After any
    sequence of events, a callback that spawns the child is the callback of
    [listen] (so the server is listening), [listen(0)] was called before, and
    the arguments of the child hold, after [-jar] and the server jar, the
    port that the server reports.  On a listening server the first
    connection resolves the promise with the socket, in the very callback
    that receives the socket; later events leave the promise as it is. *)
Theorem spawn_follows_listen_and_connection_resolves :
  (forall requirements,
      step resolve cfg initial (RequirementsResolved requirements)
      = (mkState (ListenCalled requirements) Pending, [CreateServer; Listen 0]))
  /\ (forall evs ev command args,
        let before := run resolve cfg initial evs in
        In (Spawn command args) (snd (step resolve cfg (fst before) ev)) ->
        In (Did (Listen 0)) (snd before)
        /\ exists port before_port after_port,
             ev = Listening port
             /\ args = before_port
                       ++ [js "-jar";
                           resolve [extensionPath cfg; js "server"; js "sonarlint-ls.jar"];
                           port_string port]
                       ++ after_port)
  /\ (forall st port socket,
        phase st = Active port -> promise st = Pending ->
        promise (fst (step resolve cfg st (Connection socket)))
        = Resolved (mkStreamInfo socket socket)
        /\ In (Resolve (mkStreamInfo socket socket))
             (snd (step resolve cfg st (Connection socket))))
  /\ (forall st port streams ev,
        phase st = Active port -> promise st = Resolved streams ->
        promise (fst (step resolve cfg st ev)) = Resolved streams).
Proof.
  split; [reflexivity|]. split; [|split].
  - intros evs ev command args before Hspawn.
    apply step_spawn in Hspawn as (port & requirements & -> & Hph & Hcmd).
    split.
    + pose proof (run_listen_recorded evs initial [] I) as H.
      unfold listen_recorded in H. fold before in H. now rewrite Hph in H.
    + apply languageServerCommand_port in Hcmd as (pre & post & ->).
      now exists port, pre, post.
  - apply step_first_connection.
  - intros st port streams ev Hph Hpr.
    now destruct (step_keeps_resolved st ev port streams Hph Hpr).
Qed.

End Facts.

(** The sample run on POSIX: [listen(0)] comes before the spawn, the spawn
    is the answer to the listening event and carries the port 4242, and the
    connection resolves the promise. *)
Lemma spawn_follows_listen_and_connection_resolves_witness :
  let resolve := Uri.posix_resolve_all (js "/") in
  snd (run resolve sample_config initial sample_events)
  = [Delivered (RequirementsResolved (mkRequirementsData (js "/jre")));
     Did CreateServer; Did (Listen 0);
     Delivered (Listening 4242)]
    ++ map Did (snd (step resolve sample_config
                       (mkState (ListenCalled (mkRequirementsData (js "/jre"))) Pending)
                       (Listening 4242)))
    ++ [Delivered (Connection (mkSocket 1)); Did (LogChildConnected 4242);
        Did (Resolve (mkStreamInfo (mkSocket 1) (mkSocket 1)))]
  /\ promise (fst (run resolve sample_config initial sample_events))
     = Resolved (mkStreamInfo (mkSocket 1) (mkSocket 1))
  /\ exists command args before_port after_port,
       In (Spawn command args)
         (snd (step resolve sample_config
                 (mkState (ListenCalled (mkRequirementsData (js "/jre"))) Pending)
                 (Listening 4242)))
       /\ args = before_port
                 ++ [js "-jar"; js "/ext/server/sonarlint-ls.jar"; js "4242"]
                 ++ after_port.
Proof.
  intros resolve.
  split; [vm_compute; reflexivity|]. split; [vm_compute; reflexivity|].
  destruct (spawn_follows_listen_and_connection_resolves resolve sample_config)
    as (_ & H & _).
  destruct (languageServerCommand resolve sample_config
              (mkRequirementsData (js "/jre")) 4242) as [[command args]|e] eqn:E;
    [|vm_compute in E; discriminate].
  assert (In (Spawn command args)
            (snd (step resolve sample_config
                    (fst (run resolve sample_config initial
                            [RequirementsResolved (mkRequirementsData (js "/jre"))]))
                    (Listening 4242)))) as Hin.
  { cbn [run step fst snd phase initial]. rewrite E. cbn. right. now left. }
  destruct (H [RequirementsResolved (mkRequirementsData (js "/jre"))]
              (Listening 4242) command args Hin)
    as (_ & port & pre & post & Hport & Hargs).
  injection Hport as <-.
  exists command, args, pre, post. split; [exact Hin | exact Hargs].
Defined.

End BootstrapFacts.


(** ** The compilation database *)

Module CompilationDBFacts.
Import CompilationDB.

Local Open Scope js_scope.

Lemma written_app t1 t2 : written (t1 ++ t2) = written t1 ++ written t2.
Proof.
  induction t1 as [|e t1 IH]; [reflexivity|]. destruct e; simpl; now rewrite ?IH.
Qed.

Section Facts.

Variable join : jsstring -> jsstring -> jsstring.
Variable JSON_parse : jsstring -> outcome JSON.
Variable shlex_split : jsstring -> outcome (list jsstring).
Variable StringToNumber : jsstring -> Number.
Variable Array_toString : list JSON -> outcome jsstring.

(** A value of [arguments] that [||] stops at is taken as it is, a list or
    not; the splitter is not called. *)
Lemma entry_args_truthy compilationEntry arguments :
  optional_property compilationEntry (js "arguments") = Some arguments ->
  truthy (Some arguments) = true ->
  entry_args shlex_split compilationEntry tt = (Return arguments, tt, []).
Proof.
  intros Ha Ht. unfold entry_args. now rewrite Ha, Ht.
Qed.

Lemma entry_args_falsy compilationEntry :
  truthy (optional_property compilationEntry (js "arguments")) = false ->
  entry_args shlex_split compilationEntry tt
  = split_command shlex_split compilationEntry tt.
Proof.
  unfold entry_args. destruct (optional_property _ _) as [arguments|]; [|reflexivity].
  now intros ->.
Qed.

(** The command is split when it is a string, and only then. *)
Lemma split_command_string compilationEntry command :
  property compilationEntry (js "command") = Return (Some (JString command)) ->
  split_command shlex_split compilationEntry tt
  = match shlex_split command with
    | Return tokens => (Return (JArray (map JString tokens)), tt, [ShlexSplit command])
    | Throw e => (Throw e, tt, [ShlexSplit command])
    end.
Proof.
  intros Hc. unfold split_command, bind, lift, emit, ret, throw. rewrite Hc.
  destruct (shlex_split command); reflexivity.
Qed.

Lemma split_command_other compilationEntry :
  (forall command,
      property compilationEntry (js "command") <> Return (Some (JString command))) ->
  snd (split_command shlex_split compilationEntry tt) = []
  /\ exists e, fst (fst (split_command shlex_split compilationEntry tt)) = Throw e.
Proof.
  intros H. unfold split_command, bind, lift, ret, throw.
  destruct (property compilationEntry (js "command")) as [[[| | |c| |]|]|e];
    try (split; [reflexivity | eexists; reflexivity]).
  exfalso. now apply (H c).
Qed.

(** An entry that is [undefined] makes the body of the loop throw. *)
Lemma capture_of_undefined ctx :
  capture_of shlex_split ctx None tt = (Throw TypeError, tt, []).
Proof. reflexivity. Qed.

Lemma capture_of_sample ctx :
  shlex_split (js "gcc -c a.c") = Return [js "gcc"; js "-c"; js "a.c"] ->
  capture_of shlex_split ctx (Some sample_entry) tt
  = (Return (mkCapture (buildWrapperCompiler ctx)
               (Some (JString (js "/p")))
               (Some (JString (js "gcc")))
               (JArray [JString (js "gcc"); JString (js "-c"); JString (js "a.c")])
               (environment ctx)),
     tt, [ShlexSplit (js "gcc -c a.c")]).
Proof.
  intros Hsplit. unfold capture_of, bind.
  rewrite (entry_args_falsy (Some sample_entry) eq_refl).
  rewrite (split_command_string (Some sample_entry) (js "gcc -c a.c") eq_refl).
  rewrite Hsplit. reflexivity.
Qed.

(** One round of the loop, and its end. *)
Lemma loop_round rounds ctx data index captures lenv len capture t :
  length_of data = Return lenv ->
  ToNumber StringToNumber Array_toString lenv = Return len ->
  below index len = true ->
  capture_of shlex_split ctx (item data index) tt = (Return capture, tt, t) ->
  loop shlex_split StringToNumber Array_toString (S rounds) ctx data index captures tt
  = (fst (loop shlex_split StringToNumber Array_toString rounds ctx data (S index)
            (captures ++ [capture]) tt),
     t ++ snd (loop shlex_split StringToNumber Array_toString rounds ctx data
                 (S index) (captures ++ [capture]) tt)).
Proof.
  intros Hl Hn Hb Hc. cbn [loop]. unfold bind at 1. rewrite Hl. cbn [lift ret].
  unfold bind at 1. rewrite Hn. cbn [lift ret]. rewrite Hb.
  unfold bind at 1. rewrite Hc.
  destruct (loop _ _ _ rounds ctx data (S index) _ tt) as [[r []] t'].
  reflexivity.
Qed.

Lemma loop_end rounds ctx data index captures lenv len :
  length_of data = Return lenv ->
  ToNumber StringToNumber Array_toString lenv = Return len ->
  below index len = false ->
  loop shlex_split StringToNumber Array_toString rounds ctx data index captures tt
  = (Return captures, tt, []).
Proof.
  intros Hl Hn Hb. destruct rounds; cbn [loop]; unfold bind; rewrite Hl; cbn [lift ret];
    rewrite Hn; cbn [lift ret]; rewrite Hb; reflexivity.
Qed.

(** The callback on the sample database. *)
Lemma on_read_sample ctx text :
  JSON_parse text = Return sample_database ->
  shlex_split (js "gcc -c a.c") = Return [js "gcc"; js "-c"; js "a.c"] ->
  on_read JSON_parse shlex_split StringToNumber Array_toString ctx (Some text) tt
  = (Return tt, tt,
     [ShlexSplit (js "gcc -c a.c");
      Mkdir_dirname (buildWrapperMapFile ctx);
      WriteFile (buildWrapperMapFile ctx)
        (mkDump 0
           [mkCapture (buildWrapperCompiler ctx)
              (Some (JString (js "/p")))
              (Some (JString (js "gcc")))
              (JArray [JString (js "gcc"); JString (js "-c"); JString (js "a.c")])
              (environment ctx)]);
      ConsoleTimeEnd]).
Proof.
  intros Hparse Hsplit. unfold on_read. unfold bind at 1. rewrite Hparse.
  cbn [lift ret]. unfold bind at 1.
  change (size sample_database) with 1%nat.
  rewrite (loop_round 1 ctx sample_database 0 [] _ (number_of_nat 1) _ _
             eq_refl eq_refl eq_refl (capture_of_sample ctx Hsplit)).
  rewrite (loop_end 1 ctx sample_database 1 _ _ (number_of_nat 1)
             eq_refl eq_refl eq_refl).
  reflexivity.
Qed.

(** What the settings part leaves behind: nothing, or one update of the
    analyzer properties. *)
Lemma settings_trace w :
  snd (settings join w tt) = []
  \/ exists p, snd (settings join w tt) = [UpdateAnalyzerProperties p].
Proof.
  unfold settings, bind.
  destruct (workspacefolder w) as [folder|]; cbn [ret throw]; [|now left].
  destruct (capture_environment join w _ _) as [en|e]; cbn [lift ret throw];
    [|now left].
  match goal with
  | |- context [expand_variable build_wrapper_output_key folder ?s] =>
      destruct (expand_variable build_wrapper_output_key folder s)
        as [st1|e1]; cbn [lift ret throw]; [|now left]
  end.
  destruct (expand_variable cache_path_key folder st1) as [[p u]|e2];
    cbn [lift ret throw]; [|now left].
  destruct u; cbn [emit ret];
    destruct (method_replace _ _ _); cbn [lift ret throw snd app];
    solve [now left | right; eexists; reflexivity].
Qed.

Lemma dump_is_newer_false w ctx :
  mtime w (compilationDatabaseFile w) <> None ->
  (dump_is_newer w ctx = Return false
   <-> mtime w (buildWrapperMapFile ctx) = None
       \/ exists dump_time database_time,
            mtime w (buildWrapperMapFile ctx) = Some dump_time
            /\ mtime w (compilationDatabaseFile w) = Some database_time
            /\ dump_time <= database_time)
  /\ (dump_is_newer w ctx = Return false \/ dump_is_newer w ctx = Return true).
Proof.
  intros Hdb. unfold dump_is_newer, statSync_mtime.
  destruct (mtime w (compilationDatabaseFile w)) as [d|]; [|contradiction].
  destruct (mtime w (buildWrapperMapFile ctx)) as [t|].
  - destruct (Z.ltb_spec d t); split; try (now left); try (now right).
    + split; [discriminate|]. intros [H0|(t' & d' & Ht & Hd & Hle)]; [discriminate|].
      injection Ht as <-. injection Hd as <-. lia.
    + split; [|reflexivity]. intros _. right. exists t, d. auto.
  - split; [|now left]. split; [now left | reflexivity].
Qed.

(** The function in its parts: it ends by calling [readFile] exactly when
    the database exists, the settings part returns and the dump is not
    newer; otherwise it leaves what the settings part left, or nothing. *)
Lemma convertCompilationDB_cases w :
  let run := convertCompilationDB join w tt in
  (exists ctx,
      fst (fst run) = Return (Some ctx)
      /\ mtime w (compilationDatabaseFile w) <> None
      /\ fst (fst (settings join w tt)) = Return ctx
      /\ dump_is_newer w ctx = Return false
      /\ snd run
         = snd (settings join w tt) ++ [ConsoleTime; ReadFile (compilationDatabaseFile w)])
  \/ ((forall ctx, fst (fst run) <> Return (Some ctx))
      /\ (snd run = [] \/ snd run = snd (settings join w tt))
      /\ ~ (mtime w (compilationDatabaseFile w) <> None
            /\ exists ctx, fst (fst (settings join w tt)) = Return ctx
                           /\ dump_is_newer w ctx = Return false)).
Proof.
  intros run. subst run. unfold convertCompilationDB.
  destruct (mtime w (compilationDatabaseFile w)) as [d|] eqn:Hdb.
  - unfold bind.
    destruct (settings join w tt) as [[[ctx|e] []] ts] eqn:Es; cbn [fst snd].
    + assert (mtime w (compilationDatabaseFile w) <> None) as Hex by (rewrite Hdb; discriminate).
      destruct (dump_is_newer_false w ctx Hex) as [_ [Hn|Hn]]; rewrite Hn;
        cbn [lift ret emit fst snd app].
      * left. exists ctx. repeat split; try reflexivity; try discriminate; exact Hn.
      * right. split; [discriminate|]. split; [right; now rewrite app_nil_r|].
        intros [_ (c & Hc & Hf)]. injection Hc as <-. rewrite Hn in Hf. discriminate.
    + right. split; [discriminate|]. split; [now right|].
      intros [_ (c & Hc & _)]. discriminate.
  - right. cbn. split; [discriminate|]. split; [now left|]. intros [H _]. now apply H.
Qed.

(** Nothing is written before the database is read. *)
Lemma convertCompilationDB_writes_nothing w :
  written (snd (convertCompilationDB join w tt)) = [].
Proof.
  assert (written (snd (settings join w tt)) = []) as Hs
    by (destruct (settings_trace w) as [->|[p ->]]; reflexivity).
  destruct (convertCompilationDB_cases w) as [(ctx & _ & _ & _ & _ & ->)|(_ & [->| ->] & _)];
    rewrite ?written_app, ?Hs; reflexivity.
Qed.

(** C6.  When the conversion gets as far as reading the database (the
    function returned after calling [readFile]), the database parses to the
    single entry [{directory: /p, command: gcc -c a.c}] and the splitter
    splits this command into [gcc], [-c], [a.c], then one dump is written,
    to the dump file: version 0 and one capture with executable [gcc], cmd
    [gcc, -c, a.c] and cwd [/p].  In general the value of [arguments] is
    kept as it is, a list or not, whenever it is one that the operator [||]
    stops at, and the splitter is then not called; the command is split
    exactly when [arguments] is missing or is a value that [||] passes over
    ([null], [false], 0, the empty string) and the command is a string. *)
Theorem convertCompilationDB_sample_and_tokenization :
  (forall w ctx text,
      fst (fst (convertCompilationDB join w tt)) = Return (Some ctx) ->
      database_text w = Some text ->
      JSON_parse text = Return sample_database ->
      shlex_split (js "gcc -c a.c") = Return [js "gcc"; js "-c"; js "a.c"] ->
      let run :=
        conversion join JSON_parse shlex_split StringToNumber Array_toString w tt in
      fst (fst run) = Return tt
      /\ written (snd run)
         = [(buildWrapperMapFile ctx,
             mkDump 0
               [mkCapture (buildWrapperCompiler ctx)
                  (Some (JString (js "/p")))
                  (Some (JString (js "gcc")))
                  (JArray [JString (js "gcc"); JString (js "-c"); JString (js "a.c")])
                  (environment ctx)])])
  /\ (forall compilationEntry,
        let run := entry_args shlex_split compilationEntry tt in
        (forall arguments,
            optional_property compilationEntry (js "arguments") = Some arguments ->
            truthy (Some arguments) = true ->
            run = (Return arguments, tt, []))
        /\ (forall command,
              truthy (optional_property compilationEntry (js "arguments")) = false ->
              property compilationEntry (js "command")
              = Return (Some (JString command)) ->
              snd run = [ShlexSplit command]
              /\ forall tokens,
                   shlex_split command = Return tokens ->
                   fst (fst run) = Return (JArray (map JString tokens)))
        /\ ((exists command, In (ShlexSplit command) (snd run))
            <-> truthy (optional_property compilationEntry (js "arguments")) = false
                /\ exists command,
                     property compilationEntry (js "command")
                     = Return (Some (JString command)))).
Proof.
  split.
  - intros w ctx text Hfun Htext Hparse Hsplit run. subst run.
    unfold conversion, bind.
    destruct (convertCompilationDB join w tt) as [[r []] t0] eqn:E.
    cbn [fst] in Hfun. subst r. rewrite Htext.
    rewrite (on_read_sample ctx text Hparse Hsplit). cbn [fst snd].
    split; [reflexivity|].
    pose proof (convertCompilationDB_writes_nothing w) as Ht0.
    rewrite E in Ht0. cbn [snd] in Ht0.
    rewrite written_app, Ht0. reflexivity.
  - intros compilationEntry run. subst run. split; [|split].
    + intros arguments Ha Ht. now apply entry_args_truthy.
    + intros command Hf Hc. rewrite (entry_args_falsy _ Hf).
      rewrite (split_command_string _ _ Hc).
      split; [destruct (shlex_split command); reflexivity | now intros tokens ->].
    + split.
      * intros [command Hin].
        destruct (truthy (optional_property compilationEntry (js "arguments"))) eqn:Ht.
        -- destruct (optional_property compilationEntry (js "arguments")) as [a|] eqn:Ha;
             [|discriminate].
           rewrite (entry_args_truthy _ a Ha Ht) in Hin. destruct Hin.
        -- split; [reflexivity|]. rewrite (entry_args_falsy _ Ht) in Hin.
           destruct (property compilationEntry (js "command"))
             as [[[| | |c| |]|]|e] eqn:Hc;
             try (now exists c);
             (destruct (split_command_other compilationEntry) as [Hnil _];
              [intros c'; rewrite Hc; discriminate
              | rewrite Hnil in Hin; destruct Hin]).
      * intros [Hf [command Hc]]. exists command.
        rewrite (entry_args_falsy _ Hf), (split_command_string _ _ Hc).
        destruct (shlex_split command); now left.
Qed.

End Facts.

(** The sample database in the sample surroundings, without a dump file. *)
Lemma convertCompilationDB_sample_and_tokenization_witness :
  written (snd (conversion sample_join (fun _ => Return sample_database) sample_split
                  (fun _ => NaN) (fun _ => Return [])
                  (sample_world None) tt))
  = [(js "/w/cfamily-compilation-database/build-wrapper-dump.json",
      mkDump 0
        [mkCapture (js "clang")
           (Some (JString (js "/p")))
           (Some (JString (js "gcc")))
           (JArray [JString (js "gcc"); JString (js "-c"); JString (js "a.c")])
           [js "PATH=/usr/bin"]])].
Proof.
  destruct (convertCompilationDB_sample_and_tokenization sample_join
              (fun _ => Return sample_database) sample_split
              (fun _ => NaN) (fun _ => Return [])) as (H & _).
  apply (H (sample_world None)
           (mkContext (js "/w/compile_commands.json") (js "clang")
              [js "PATH=/usr/bin"]
              (js "/w/cfamily-compilation-database/build-wrapper-dump.json"))
           (js "[...]"));
    reflexivity.
Defined.

(** C6 on the code.  An entry whose [arguments] is a string and not a list
    keeps that string: its command is not split, the capture has the string
    as [cmd] and its first unit as [executable].  And an entry whose
    [arguments] is the empty string has its command split all the same. *)
Lemma convertCompilationDB_string_arguments_not_tokenized :
  conversion sample_join (fun _ => Return (JArray [string_arguments_entry]))
    sample_split (fun _ => NaN) (fun _ => Return []) (sample_world None) tt
  = (Return tt, tt,
     [UpdateAnalyzerProperties
        [(build_wrapper_output_key, JString (js "/w/cfamily-compilation-database"))];
      ConsoleTime;
      ReadFile (js "/w/compile_commands.json");
      Mkdir_dirname (js "/w/cfamily-compilation-database/build-wrapper-dump.json");
      WriteFile (js "/w/cfamily-compilation-database/build-wrapper-dump.json")
        (mkDump 0
           [mkCapture (js "clang")
              (Some (JString (js "/p")))
              (Some (JString (js "g")))
              (JString (js "gcc -c a.c"))
              [js "PATH=/usr/bin"]]);
      ConsoleTimeEnd])
  /\ entry_args sample_split (Some empty_arguments_entry) tt
     = (Return (JArray [JString (js "gcc"); JString (js "-c"); JString (js "a.c")]),
        tt, [ShlexSplit (js "gcc -c a.c")]).
Proof. split; reflexivity. Qed.

End CompilationDBFacts.
(** ** The output channel *)

Module LoggingFacts.
Import Logging.

Lemma no_newline_snoc cur c :
  no_newline cur -> is_newline c = false -> no_newline (cur ++ [c]).
Proof.
  unfold no_newline. intros Hcur Hc. rewrite forallb_app, Hcur. simpl.
  now rewrite Hc.
Qed.

(** The pieces hold no CR and no LF, and together they are the text without
    its CR and LF; by induction on the length of the text. *)
Lemma split_lines_pieces n : forall s cur,
  (List.length s <= n)%nat -> no_newline cur ->
  Forall no_newline (split_lines cur s)
  /\ List.concat (split_lines cur s)
     = cur ++ filter (fun c => negb (is_newline c)) s.
Proof.
  induction n as [|n IH]; intros s cur Hn Hcur.
  - destruct s; [|simpl in Hn; lia]. simpl. rewrite app_nil_r. auto.
  - destruct s as [|c t]; [simpl; rewrite app_nil_r; auto|].
    simpl in Hn. cbn [split_lines filter].
    destruct (Z.eqb_spec c CR) as [->|Hcr].
    + change (negb (is_newline CR)) with false. cbv iota.
      destruct t as [|d t'].
      * simpl. rewrite app_nil_r. repeat constructor; assumption.
      * destruct (Z.eqb_spec d LF) as [->|Hlf].
        -- destruct (IH t' [] ltac:(simpl in Hn; lia) eq_refl) as [F C].
           split; [now constructor|]. cbn [List.concat filter].
           change (negb (is_newline LF)) with false. cbv iota.
           now rewrite C.
        -- destruct (IH (d :: t') [] ltac:(lia) eq_refl) as [F C].
           split; [now constructor|]. cbn [List.concat]. now rewrite C.
    + destruct (Z.eqb_spec c LF) as [->|Hlf].
      * change (negb (is_newline LF)) with false. cbv iota.
        destruct (IH t [] ltac:(lia) eq_refl) as [F C].
        split; [now constructor|]. cbn [List.concat]. now rewrite C.
      * assert (is_newline c = false) as Hc.
        { unfold is_newline. destruct (Z.eqb_spec c CR); [contradiction|].
          destruct (Z.eqb_spec c LF); [contradiction | reflexivity]. }
        rewrite Hc. cbn [negb].
        destruct (IH t (cur ++ [c]) ltac:(lia) (no_newline_snoc cur c Hcur Hc))
          as [F C].
        split; [assumption|]. rewrite C, <- app_assoc. reflexivity.
Qed.

Lemma concat_nonempty (l : list jsstring) :
  List.concat (filter (fun p => match p with [] => false | _ => true end) l)
  = List.concat l.
Proof.
  induction l as [|p l IH]; [reflexivity|]. destruct p; simpl; now rewrite IH.
Qed.

Lemma log_pieces prefix pieces : forall lines,
  fold_left
    (fun out l =>
       match l with
       | [] => out
       | _ => logToSonarLintOutput (prefixed prefix l) out
       end)
    pieces (Some lines)
  = Some (lines
          ++ map (prefixed prefix)
               (filter (fun p => match p with [] => false | _ => true end) pieces)).
Proof.
  induction pieces as [|p pieces IH]; intros lines; simpl.
  - now rewrite app_nil_r.
  - destruct p as [|c p].
    + apply IH.
    + cbn [logToSonarLintOutput]. rewrite IH, <- app_assoc. reflexivity.
Qed.

(** X1.  With verbose logging on and the channel created, [logWithPrefix]
    appends one line per non-empty piece of the data, in order, each made of
    the prefix, a space and the piece; no piece holds a CR or an LF, and the
    pieces put together are the data without its CR and LF.  With verbose
    logging off, or before the channel exists, nothing is appended. *)
Theorem logWithPrefix_lines (data prefix : jsstring) :
  (forall lines,
      logWithPrefix true data prefix (Some lines)
      = Some (lines ++ map (prefixed prefix) (logged_pieces data)))
  /\ Forall (fun l => l <> [] /\ no_newline l) (logged_pieces data)
  /\ List.concat (logged_pieces data) = filter (fun c => negb (is_newline c)) data
  /\ (forall out, logWithPrefix false data prefix out = out)
  /\ logWithPrefix true data prefix None = None.
Proof.
  destruct (split_lines_pieces (List.length data) data [] (le_n _) eq_refl)
    as [F C].
  split; [|split; [|split; [|split]]].
  - intros lines. unfold logWithPrefix, logged_pieces. cbv iota. apply log_pieces.
  - unfold logged_pieces. apply Forall_forall. intros l Hl.
    apply filter_In in Hl as [Hin Hne]. split.
    + now destruct l.
    + rewrite Forall_forall in F. now apply F.
  - unfold logged_pieces. now rewrite concat_nonempty, C.
  - reflexivity.
  - unfold logWithPrefix. cbv iota. clear F C.
    induction (split_lines [] data) as [|p l IH]; [reflexivity|].
    cbn [fold_left]. destruct p; cbn [logToSonarLintOutput]; exact IH.
Qed.

End LoggingFacts.

(** ** Start-up arguments, continued *)

Module VMArgsMore.
Import VMArgs VMArgsFacts.

Lemma add_arg_keeps params arg a : In a params -> In a (add_arg params arg).
Proof.
  intros H. unfold add_arg. destruct (absent params (clean_arg arg)); [|assumption].
  apply in_or_app. now left.
Qed.

Lemma add_arg_holds params arg : In (clean_arg arg) (add_arg params arg).
Proof.
  unfold add_arg. destruct (absent params (clean_arg arg)) eqn:E.
  - apply in_or_app. right. now left.
  - now apply absent_false.
Qed.

Lemma fold_add_arg_keeps vmargs : forall params a,
  In a params -> In a (fold_left add_arg vmargs params).
Proof.
  induction vmargs as [|arg vmargs IH]; intros params a H; [assumption|].
  simpl. apply IH. now apply add_arg_keeps.
Qed.

(** After the loop every cleaned argument is in the list. *)
Lemma fold_add_arg_holds vmargs : forall params a,
  In a (map clean_arg vmargs) -> In a (fold_left add_arg vmargs params).
Proof.
  induction vmargs as [|arg vmargs IH]; intros params a H; [destruct H|].
  simpl. destruct H as [<-|H].
  - apply fold_add_arg_keeps, add_arg_holds.
  - now apply IH.
Qed.

(** A loop over arguments that are all present changes nothing. *)
Lemma fold_add_arg_present vmargs : forall params,
  (forall a, In a (map clean_arg vmargs) -> In a params) ->
  fold_left add_arg vmargs params = params.
Proof.
  induction vmargs as [|arg vmargs IH]; intros params H; [reflexivity|].
  simpl. unfold add_arg at 2.
  assert (absent params (clean_arg arg) = false) as ->.
  { apply absent_false. apply H. now left. }
  apply IH. intros a Ha. apply H. now right.
Qed.

(** X2.  [parseVMargs] is idempotent: parsing the same line a second time
    into the list that the first call produced adds nothing. *)
Theorem parseVMargs_idempotent (params : list jsstring) (line : jsstring) :
  parseVMargs (parseVMargs params line) line = parseVMargs params line.
Proof.
  unfold parseVMargs. destruct line as [|c line]; [reflexivity|].
  destruct (vmargs_match (c :: line)) as [vmargs|]; [|reflexivity].
  apply fold_add_arg_present. intros a Ha. now apply fold_add_arg_holds.
Qed.

Lemma space_not_plain c : is_space c = true -> plain c = false /\ (c =? dquote) = false.
Proof.
  intros H. unfold plain. rewrite H. split; [reflexivity|].
  destruct (Z.eqb_spec c dquote) as [->|]; [discriminate H | reflexivity].
Qed.

Lemma match_all_blank fuel : forall s,
  forallb is_space s = true -> match_all fuel s = [].
Proof.
  induction fuel as [|fuel IH]; intros s H; [reflexivity|].
  destruct s as [|c t]; [reflexivity|].
  simpl in H. apply andb_true_iff in H as [Hc Ht].
  destruct (space_not_plain c Hc) as [Hp Hq].
  cbn [match_all]. unfold match_at, group_iter. rewrite Hp, Hq.
  now apply IH.
Qed.

(** X3.  A line that is empty or holds white space only leaves the list of
    parameters as it is. *)
Theorem parseVMargs_blank_line (params : list jsstring) (line : jsstring) :
  forallb is_space line = true -> parseVMargs params line = params.
Proof.
  intros H. unfold parseVMargs. destruct line as [|c line]; [reflexivity|].
  unfold vmargs_match. now rewrite match_all_blank.
Qed.

Lemma parseVMargs_blank_line_witness :
  parseVMargs [js "-Xmx1g"] (js "   " ++ [9; 160]) = [js "-Xmx1g"].
Proof.
  apply (parseVMargs_blank_line [js "-Xmx1g"] (js "   " ++ [9; 160])).
  reflexivity.
Defined.

Lemma span_until p body stop rest :
  forallb p body = true -> p stop = false ->
  span p (body ++ stop :: rest) = (body, stop :: rest).
Proof.
  intros Hb Hs. induction body as [|c body IH]; simpl.
  - now rewrite Hs.
  - simpl in Hb. apply andb_true_iff in Hb as [Hc Hb]. rewrite Hc.
    now rewrite (IH Hb).
Qed.

Lemma match_all_nil fuel : match_all fuel [] = [].
Proof. now destruct fuel. Qed.

(** X24.  A line that is one double-quoted text without quotes or
    backslashes inside gives that text as a single argument, with its white
    space kept and the quotes removed; an empty pair of quotes gives the
    empty argument. *)
Theorem parseVMargs_quoted_text (params : list jsstring) (body : jsstring) :
  forallb (fun c => negb (c =? dquote) && negb (c =? backslash)) body = true ->
  parseVMargs params (dquote :: body ++ [dquote])
  = if absent params body then params ++ [body] else params.
Proof.
  intros Hbody.
  assert (forallb not_quote body = true) as Hnq.
  { apply forallb_forall. intros c Hc. rewrite forallb_forall in Hbody.
    apply Hbody in Hc. now apply andb_true_iff in Hc as [Hc _]. }
  assert (match_at (dquote :: body ++ [dquote])
          = Some (dquote :: body ++ [dquote], [])) as Hm.
  { unfold match_at, group_iter.
    change (plain dquote) with false. change (dquote =? dquote) with true.
    cbv iota. rewrite (span_until not_quote body dquote [] Hnq eq_refl).
    reflexivity. }
  unfold parseVMargs, vmargs_match. cbn [List.length match_all].
  rewrite Hm, match_all_nil. cbn [fold_left]. unfold add_arg.
  now rewrite (clean_arg_quoted body Hbody).
Qed.

Lemma parseVMargs_quoted_text_witness :
  parseVMargs [] (dquote :: js "-Dname=a b  c" ++ [dquote]) = [js "-Dname=a b  c"].
Proof.
  apply (parseVMargs_quoted_text [] (js "-Dname=a b  c")). reflexivity.
Defined.

(** On text without double quotes the cleaning of an argument changes
    nothing. *)
Lemma clean_arg_plain tok :
  forallb not_quote tok = true -> clean_arg tok = tok.
Proof.
  intros H. unfold clean_arg.
  assert (remove_standalone_quotes tok = tok) as ->.
  { induction tok as [|c tok IH]; [reflexivity|].
    simpl in H. apply andb_true_iff in H as [Hc H].
    unfold not_quote in Hc. apply negb_true_iff in Hc.
    cbn [remove_standalone_quotes]. rewrite Hc, (IH H).
    destruct (c =? backslash); [|reflexivity].
    destruct tok as [|d tok]; [reflexivity|].
    simpl in H. apply andb_true_iff in H as [Hd _].
    unfold not_quote in Hd. apply negb_true_iff in Hd. now rewrite Hd. }
  induction tok as [|c tok IH]; [reflexivity|].
  simpl in H. apply andb_true_iff in H as [Hc H].
  cbn [unescape_quotes]. rewrite (IH H).
  destruct (c =? backslash); [|reflexivity].
  destruct tok as [|d tok]; [reflexivity|].
  simpl in H. apply andb_true_iff in H as [Hd _].
  unfold not_quote in Hd. apply negb_true_iff in Hd. now rewrite Hd.
Qed.

Lemma span_parts p s :
  forallb p (fst (span p s)) = true
  /\ match snd (span p s) with
     | c :: _ => p c = false
     | [] => True
     end
  /\ s = fst (span p s) ++ snd (span p s).
Proof.
  induction s as [|c t IH]; simpl; [auto|].
  destruct (p c) eqn:E.
  - destruct (span p t) as [a b]. cbn [fst snd] in *.
    destruct IH as (H1 & H2 & H3). cbn. rewrite E, H1. split; [reflexivity|].
    split; [assumption | now rewrite <- H3].
  - cbn. rewrite E. auto.
Qed.

(** On text without double quotes a match is a run of units that are
    neither white space nor quotes, and it ends where such a run ends. *)
Lemma match_at_plain s m r :
  forallb not_quote s = true ->
  match_at s = Some (m, r) ->
  m <> [] /\ forallb plain m = true /\ forallb not_quote r = true
  /\ (List.length r < List.length s)%nat.
Proof.
  intros Hs Hm.
  pose proof (match_at_consumes s m r Hm) as [Hsplit Hlen].
  unfold match_at, group_iter in Hm.
  destruct s as [|c t]; [discriminate|].
  destruct (plain c) eqn:Hp.
  - pose proof (span_parts plain (c :: t)) as (H1 & H2 & H3).
    destruct (span plain (c :: t)) as [m0 r0] eqn:Esp. cbn [fst snd] in *.
    assert (forallb not_quote r0 = true) as Hr0.
    { rewrite H3, forallb_app in Hs. now apply andb_true_iff in Hs as [_ Hs]. }
    assert (group_iter r0 = None) as Hnone.
    { unfold group_iter. destruct r0 as [|d r0']; [reflexivity|].
      rewrite H2. simpl in Hr0. apply andb_true_iff in Hr0 as [Hd _].
      unfold not_quote in Hd. apply negb_true_iff in Hd. now rewrite Hd. }
    assert (group_more (List.length r0) m0 r0 = (m0, r0)) as Hg.
    { destruct (List.length r0); simpl; [reflexivity | now rewrite Hnone]. }
    rewrite Hg in Hm. injection Hm as <- <-.
    split; [|auto].
    simpl in Esp. rewrite Hp in Esp. destruct (span plain t).
    injection Esp as <- _. discriminate.
  - simpl in Hs. apply andb_true_iff in Hs as [Hc _].
    unfold not_quote in Hc. apply negb_true_iff in Hc. rewrite Hc in Hm.
    discriminate.
Qed.

Lemma match_all_plain fuel : forall s,
  forallb not_quote s = true ->
  Forall (fun tok => tok <> [] /\ forallb plain tok = true) (match_all fuel s).
Proof.
  induction fuel as [|fuel IH]; intros s Hs; [constructor|].
  destruct s as [|c t]; [constructor|]. cbn [match_all].
  destruct (match_at (c :: t)) as [[m r]|] eqn:E.
  - destruct (match_at_plain (c :: t) m r Hs E) as (Hne & Hpl & Hr & _).
    constructor; [auto | now apply IH].
  - apply IH. simpl in Hs. now apply andb_true_iff in Hs as [_ Hs].
Qed.

Lemma plain_not_quote tok : forallb plain tok = true -> forallb not_quote tok = true.
Proof.
  intros H. apply forallb_forall. intros c Hc. rewrite forallb_forall in H.
  apply H in Hc. unfold plain in Hc. now apply andb_true_iff in Hc as [_ Hc].
Qed.

(** X25.  On a line without double quotes the arguments are words: every
    argument that [parseVMargs] appends is non-empty and holds no white
    space. *)
Theorem parseVMargs_words (params : list jsstring) (line : jsstring) :
  forallb not_quote line = true ->
  exists added,
    parseVMargs params line = params ++ added
    /\ Forall (fun a => a <> [] /\ forallb (fun c => negb (is_space c)) a = true) added.
Proof.
  intros Hline. unfold parseVMargs.
  destruct line as [|c line]; [exists []; now rewrite app_nil_r|].
  unfold vmargs_match.
  pose proof (match_all_plain (List.length (c :: line)) (c :: line) Hline) as Htok.
  destruct (match_all (List.length (c :: line)) (c :: line)) as [|t0 toks] eqn:E;
    [exists []; now rewrite app_nil_r|].
  rewrite <- E in *. clear E.
  destruct (fold_add_arg (match_all (List.length (c :: line)) (c :: line)) params)
    as (added & H1 & _ & _ & H4).
  exists added. split; [assumption|].
  apply Forall_forall. intros a Ha. apply H4 in Ha.
  apply in_map_iff in Ha as (tok & <- & Htokin).
  rewrite Forall_forall in Htok. destruct (Htok tok Htokin) as [Hne Hpl].
  rewrite (clean_arg_plain tok (plain_not_quote tok Hpl)).
  split; [assumption|].
  apply forallb_forall. intros x Hx. rewrite forallb_forall in Hpl.
  apply Hpl in Hx. unfold plain in Hx. now apply andb_true_iff in Hx as [Hx _].
Qed.

Lemma parseVMargs_words_witness :
  exists added,
    parseVMargs [js "-Xmx1g"] (js " -Xmx1g  -Da=b\c ") = [js "-Xmx1g"] ++ added
    /\ Forall (fun a => a <> [] /\ forallb (fun c => negb (is_space c)) a = true) added.
Proof.
  apply (parseVMargs_words [js "-Xmx1g"] (js " -Xmx1g  -Da=b\c ")). reflexivity.
Defined.

End VMArgsMore.

(** ** File paths as URLs, continued *)

Module UriMore.
Import Uri UriFacts UriShape.

Lemma hex_digit_unit v : 0 <= v < 16 -> uri_unit (hex_digit v).
Proof.
  intros H. left. unfold hex_digit, unescaped_set, uri_unescaped, is_alnum.
  apply orb_true_iff. right. apply orb_true_iff. left.
  destruct (Z.ltb_spec v 10); zcases; reflexivity.
Qed.

Lemma escape_octets_units octets :
  Forall octet octets -> Forall uri_unit (escape_octets octets).
Proof.
  induction 1 as [|b bs Hb _ IH]; [constructor|].
  cbn [escape_octets flat_map escape_octet app]. unfold octet in Hb.
  constructor; [now right|].
  constructor; [apply hex_digit_unit; dlia|].
  constructor; [apply hex_digit_unit; dlia | exact IH].
Qed.

(** The octets of the UTF-8 encoding of a code point are octets. *)
Lemma utf8_encode_octets cp :
  0 <= cp <= 1114111 -> Forall octet (utf8_encode cp).
Proof.
  intros H. unfold utf8_encode, octet.
  destruct (Z.ltb_spec cp 128); [repeat constructor; lia|].
  destruct (Z.ltb_spec cp 2048); [repeat constructor; dlia|].
  destruct (Z.ltb_spec cp 65536); repeat constructor; dlia.
Qed.

Lemma prepend_units pre r u :
  Forall uri_unit pre ->
  (forall u', r = Return u' -> Forall uri_unit u') ->
  prepend pre r = Return u -> Forall uri_unit u.
Proof.
  intros Hpre Hr H. apply prepend_return in H as (u' & -> & ->).
  apply Forall_app. split; [assumption | now apply Hr].
Qed.

(** What [encodeURI] returns is made of kept units, percent signs and
    hexadecimal digits. *)
Lemma encodeURI_units n : forall s u,
  (List.length s <= n)%nat -> Forall code_unit s ->
  encodeURI s = Return u -> Forall uri_unit u.
Proof.
  induction n as [|n IH]; intros s u Hn Hs He.
  - destruct s; [|simpl in Hn; lia]. injection He as <-. constructor.
  - destruct s as [|c rest]; [injection He as <-; constructor|].
    inversion Hs as [|c' rest' Hc Hrest]; subst c' rest'.
    simpl in Hn. cbn [encodeURI] in He.
    destruct (unescaped_set c) eqn:Eu.
    + apply (prepend_units [c] (encodeURI rest) u); [| |assumption].
      * constructor; [now left | constructor].
      * intros u' Hu'. apply (IH rest); [lia | assumption | assumption].
    + destruct (is_trail c); [discriminate|].
      destruct (is_lead c) eqn:El.
      * destruct rest as [|d rest']; [discriminate|].
        destruct (is_trail d) eqn:Etd; [|discriminate].
        destruct (pair_code_point c d El Etd) as [Hcp _].
        inversion Hrest as [|d' rest'' Hd Hrest']; subst d' rest''.
        refine (prepend_units _ _ u _ _ He).
        -- apply escape_octets_units, utf8_encode_octets. lia.
        -- intros u' Hu'. apply (IH rest'); [simpl in Hn; lia | assumption | assumption].
      * refine (prepend_units _ _ u _ _ He).
        -- apply escape_octets_units, utf8_encode_octets.
           unfold code_unit in Hc. lia.
        -- intros u' Hu'. apply (IH rest); [lia | assumption | assumption].
Qed.

Lemma ensure_leading_slash_head p :
  exists rest, ensure_leading_slash p = slash :: rest.
Proof.
  unfold ensure_leading_slash. destruct p as [|c t]; [now exists []|].
  destruct (Z.eqb_spec c slash) as [->|]; [now exists t | now exists (c :: t)].
Qed.

(** X4.  Whenever [toUrl] returns, the URL begins with [file:///] and holds
    only units that [encodeURI] keeps, percent signs and hexadecimal digits:
    it is plain ASCII, without a space, a backslash or a double quote. *)
Theorem toUrl_shape (resolve : jsstring -> jsstring) (filePath url : jsstring) :
  Forall code_unit (resolve filePath) ->
  toUrl resolve filePath = Return url ->
  (exists rest, url = js "file:///" ++ rest)
  /\ Forall uri_unit url
  /\ Forall (fun c => 0 <= c < 128 /\ c <> 32 /\ c <> backslash /\ c <> dquote) url.
Proof.
  intros Hu Hurl. unfold toUrl in Hurl.
  set (p := ensure_leading_slash (replace_backslashes (resolve filePath))) in *.
  assert (Forall code_unit (js "file://" ++ p)) as Hu'.
  { apply Forall_app. split.
    - repeat constructor; unfold code_unit; lia.
    - now apply ensure_leading_slash_units, replace_backslashes_units. }
  assert (Forall uri_unit url) as Hunits.
  { now apply (encodeURI_units _ (js "file://" ++ p) url (le_n _) Hu'). }
  split; [|split; [assumption|]].
  - destruct (ensure_leading_slash_head (replace_backslashes (resolve filePath)))
      as [rest Hrest].
    subst p. rewrite Hrest in Hurl.
    change (js "file://" ++ slash :: rest) with (js "file:///" ++ rest) in Hurl.
    cbn [js map list_ascii_of_string app encodeURI] in Hurl.
    repeat match type of Hurl with
    | prepend [_] _ = Return _ =>
        apply prepend_return in Hurl as (? & Hurl & ->)
    | (if unescaped_set ?c then _ else _) = Return _ =>
        change (unescaped_set c) with true in Hurl; cbv iota in Hurl
    end.
    eexists. reflexivity.
  - apply Forall_forall. intros c Hc. rewrite Forall_forall in Hunits.
    destruct (Hunits c Hc) as [Hk| ->].
    + pose proof (unescaped_ascii c Hk) as Ha.
      repeat split; try lia; intros ->; discriminate Hk.
    + unfold percent, backslash, dquote. lia.
Qed.

Lemma toUrl_shape_witness :
  exists rest,
    js "file:///C:/x%20y" = js "file:///" ++ rest.
Proof.
  destruct (toUrl_shape (fun p => p) (js "C:\x y") (js "file:///C:/x%20y")) as [H _].
  - repeat constructor; unfold code_unit; lia.
  - reflexivity.
  - exact H.
Defined.

(** X5.  Two paths get the same URL only when they resolve to the same path,
    once backslashes are slashes and the leading slash is there: apart from
    that, [toUrl] tells paths apart. *)
Theorem toUrl_same_url (resolve : jsstring -> jsstring) (p q url : jsstring) :
  Forall code_unit (resolve p) -> Forall code_unit (resolve q) ->
  toUrl resolve p = Return url -> toUrl resolve q = Return url ->
  ensure_leading_slash (replace_backslashes (resolve p))
  = ensure_leading_slash (replace_backslashes (resolve q)).
Proof.
  intros Hp Hq Ep Eq. unfold toUrl in Ep, Eq. cbv zeta in Ep, Eq.
  assert (forall s, Forall code_unit s ->
            Forall code_unit
              (js "file://" ++ ensure_leading_slash (replace_backslashes s))) as G.
  { intros s Hs. apply Forall_app. split.
    - repeat constructor; unfold code_unit; lia.
    - now apply ensure_leading_slash_units, replace_backslashes_units. }
  apply decodeURI_encodeURI in Ep; [|now apply G].
  apply decodeURI_encodeURI in Eq; [|now apply G].
  rewrite Ep in Eq. injection Eq as Eq. exact Eq.
Qed.

Lemma toUrl_same_url_witness :
  ensure_leading_slash (replace_backslashes (js "C:\x"))
  = ensure_leading_slash (replace_backslashes (js "/C:/x")).
Proof.
  apply (toUrl_same_url (fun p => p) (js "C:\x") (js "/C:/x") (js "file:///C:/x")).
  - repeat constructor; unfold code_unit; lia.
  - repeat constructor; unfold code_unit; lia.
  - reflexivity.
  - reflexivity.
Defined.

End UriMore.

(** ** The transport bootstrapper, continued *)

Module BootstrapMore.
Import Bootstrap BootstrapFacts BootstrapTrace BootstrapPromise.

Section Facts.

Variable resolve : list jsstring -> jsstring.
Variable cfg : Config.

(** The URLs that [push_urls] appends are those of the paths, in order. *)
Lemma push_urls_urls paths : forall params r,
  push_urls resolve params paths = Return r ->
  exists urls,
    r = params ++ urls
    /\ Forall2 (fun p url => toUrl resolve p = Return url) paths urls.
Proof.
  induction paths as [|p paths IH]; intros params r H; simpl in H.
  - injection H as <-. exists []. rewrite app_nil_r. split; [reflexivity | constructor].
  - destruct (toUrl resolve p) as [url|e] eqn:E; [|discriminate].
    apply IH in H as (urls & -> & F). exists (url :: urls).
    rewrite <- app_assoc. split; [reflexivity | now constructor].
Qed.

(** X6.  When [languageServerCommand] returns, the command is [bin/java]
    under the Java home, and the arguments are, in this order: the debug
    arguments (if [DEBUG]) with the VM arguments of the setting parsed after
    them, [-jar], the server jar, the port, [-analyzers], the URLs of the
    five analyzers, and, only when the secrets analyzer exists,
    [-extraAnalyzers] and its URL. *)
Theorem languageServerCommand_arguments requirements port command args :
  languageServerCommand resolve cfg requirements port = Return (command, args) ->
  command = resolve [javaHome requirements ++ js "/bin/java"]
  /\ exists urls extra,
       args = VMArgs.parseVMargs (debug_params cfg) (vmargs cfg)
              ++ [js "-jar";
                  resolve [extensionPath cfg; js "server"; js "sonarlint-ls.jar"];
                  port_string port;
                  js "-analyzers"]
              ++ urls ++ extra
       /\ Forall2 (fun jar url => toUrl resolve (analyzer resolve cfg jar) = Return url)
            analyzer_jars urls
       /\ (secrets_exists cfg = false -> extra = [])
       /\ (secrets_exists cfg = true ->
           exists url,
             toUrl resolve (analyzer resolve cfg "sonarsecrets.jar") = Return url
             /\ extra = [js "-extraAnalyzers"; url]).
Proof.
  unfold languageServerCommand.
  replace (if DEBUG cfg
           then [] ++ [js "-agentlib:jdwp=transport=dt_socket,server=y,suspend=n,address=8000";
                       js "-Dsonarlint.telemetry.disabled=true"]
           else []) with (debug_params cfg) by (unfold debug_params; now destruct (DEBUG cfg)).
  set (params := VMArgs.parseVMargs _ _).
  set (serverJar := resolve [extensionPath cfg; js "server"; js "sonarlint-ls.jar"]).
  destruct (push_urls resolve _ _) as [params1|e] eqn:E1; [|discriminate].
  apply push_urls_urls in E1 as (urls & -> & F).
  assert (Forall2 (fun jar url => toUrl resolve (analyzer resolve cfg jar) = Return url)
            analyzer_jars urls) as F'.
  { unfold analyzer_jars.
    repeat match goal with
    | H : Forall2 _ (_ :: _) _ |- _ => inversion H; subst; clear H
    | H : Forall2 _ [] _ |- _ => inversion H; subst; clear H
    end.
    repeat constructor; assumption. }
  destruct (secrets_exists cfg).
  - destruct (push_urls resolve _ _) as [params2|e] eqn:E2; [|discriminate].
    apply push_urls_urls in E2 as (urls2 & -> & F2).
    inversion F2 as [|p url l l' Hurl Hnil]; subst. inversion Hnil; subst.
    intros H. injection H as <- <-. split; [reflexivity|].
    exists urls, [js "-extraAnalyzers"; url].
    split; [now rewrite <- !app_assoc|]. split; [assumption|].
    split; [discriminate|]. intros _. now exists url.
  - intros H. injection H as <- <-. split; [reflexivity|].
    exists urls, []. rewrite app_nil_r.
    split; [now rewrite <- !app_assoc|]. split; [assumption|].
    split; [reflexivity | discriminate].
Qed.

Lemma count_actions_app kind t1 t2 :
  count_actions kind (t1 ++ t2) = (count_actions kind t1 + count_actions kind t2)%nat.
Proof.
  induction t1 as [|e t1 IH]; [reflexivity|].
  destruct e as [ev|a]; simpl; [assumption|].
  destruct (kind a); simpl; now rewrite IH.
Qed.

(** What one callback uses up of what is left to do. *)
Lemma step_budget st ev :
  (count_actions is_create_server (map Did (snd (step resolve cfg st ev)))
   + creates_left (phase (fst (step resolve cfg st ev))) <= creates_left (phase st))%nat
  /\ (count_actions is_spawn (map Did (snd (step resolve cfg st ev)))
      + spawns_left (phase (fst (step resolve cfg st ev))) <= spawns_left (phase st))%nat.
Proof.
  unfold step.
  destruct ev as [requirements| |port|socket], (phase st) as [| |req|p] eqn:Eph;
    cbn [fst snd map phase count_actions is_spawn is_create_server
           creates_left spawns_left];
    try rewrite Eph; cbn [creates_left spawns_left]; try (split; lia).
  - destruct (languageServerCommand resolve cfg req port) as [[c a]|e];
      destruct (verbose cfg); cbn; split; lia.
  - destruct (verbose cfg); cbn; split; lia.
Qed.

Lemma run_budget evs : forall st,
  (count_actions is_create_server (snd (run resolve cfg st evs))
   <= creates_left (phase st))%nat
  /\ (count_actions is_spawn (snd (run resolve cfg st evs))
      <= spawns_left (phase st))%nat.
Proof.
  induction evs as [|ev evs IH]; intros st.
  - cbn. split; lia.
  - cbn [run]. pose proof (step_budget st ev) as [Hc Hs].
    destruct (step resolve cfg st ev) as [st1 acts]. cbn [fst snd] in Hc, Hs.
    destruct (IH st1) as [IHc IHs].
    destruct (run resolve cfg st1 evs) as [st2 rest]. cbn [fst snd] in *.
    cbn [count_actions]. rewrite !count_actions_app. split; lia.
Qed.

(** X7.  Whatever events arrive, and in whatever order, the bootstrap
    creates at most one server and spawns the child process at most once. *)
Theorem runJavaServer_spawns_at_most_once (evs : list Event) :
  (count_actions is_create_server (snd (run resolve cfg initial evs)) <= 1)%nat
  /\ (count_actions is_spawn (snd (run resolve cfg initial evs)) <= 1)%nat.
Proof. exact (run_budget evs initial). Qed.

Lemma run_given_up evs : forall p,
  run resolve cfg (mkState GivenUp p) evs
  = (mkState GivenUp p, map Delivered evs).
Proof.
  induction evs as [|ev evs IH]; intros p; [reflexivity|].
  cbn [run map]. destruct ev; cbn [step phase]; rewrite IH; reflexivity.
Qed.

(** X8.  When the requirements cannot be resolved the error is shown, the
    promise is rejected, and that is all: whatever events follow, no server
    is created, [listen] is not called, no child is spawned, and the promise
    stays rejected. *)
Theorem runJavaServer_requirements_rejected (evs : list Event) :
  run resolve cfg initial (RequirementsRejected :: evs)
  = (mkState GivenUp Rejected,
     Delivered RequirementsRejected :: Did ShowErrorMessage :: Did Reject
     :: map Delivered evs).
Proof.
  cbn [run step initial phase promise map app]. now rewrite run_given_up.
Qed.

Lemma step_promise_explained st ev trace :
  promise_explained st trace ->
  promise_explained (fst (step resolve cfg st ev))
    (trace ++ Delivered ev :: map Did (snd (step resolve cfg st ev))).
Proof.
  unfold promise_explained. intros H.
  destruct st as [ph p]. cbn [phase promise] in *.
  assert (forall x : Entry, In x trace ->
            In x (trace ++ Delivered ev
                    :: map Did (snd (step resolve cfg (mkState ph p) ev)))) as Hin.
  { intros x Hx. apply in_or_app. now left. }
  assert (In (Delivered ev)
            (trace ++ Delivered ev
               :: map Did (snd (step resolve cfg (mkState ph p) ev)))) as Hev.
  { apply in_or_app. right. now left. }
  unfold step in *. cbn [phase promise] in *.
  destruct ev as [requirements| |port|socket]; destruct ph as [| |req|port'];
    cbn [fst snd phase promise] in *;
    try (destruct p as [|streams|];
         [exact H
         | destruct H as (H1 & H2 & H3); split; [exact H1|]; split; [auto | exact H3]
         | destruct H as (H1 & H2); split; [exact H1 | auto]]).
  - destruct p as [|streams|]; cbn [phase];
      [discriminate
      | destruct H as (_ & _ & port & Hp); discriminate
      | destruct H as (Hp & _); discriminate].
  - split; [reflexivity | exact Hev].
  - destruct (languageServerCommand resolve cfg req port) as [[command args]|e];
      cbn [fst snd phase promise];
      (destruct p as [|streams|];
       [discriminate
       | destruct H as (_ & _ & port0 & Hp); discriminate
       | destruct H as (Hp & _); discriminate]).
  - destruct p as [|streams|]; cbn [settle].
    + split; [reflexivity|]. split; [exact Hev | now exists port'].
    + destruct H as (H1 & H2 & H3). split; [exact H1|]. split; [auto | exact H3].
    + destruct H as (Hp & _). discriminate.
Qed.

Lemma run_promise_explained evs : forall st trace,
  promise_explained st trace ->
  promise_explained (fst (run resolve cfg st evs))
    (trace ++ snd (run resolve cfg st evs)).
Proof.
  induction evs as [|ev evs IH]; intros st trace H; cbn [run].
  - cbn [fst snd]. now rewrite app_nil_r.
  - pose proof (step_promise_explained st ev trace H) as Hs.
    destruct (step resolve cfg st ev) as [st1 acts]. cbn [fst snd] in Hs.
    specialize (IH st1 _ Hs).
    destruct (run resolve cfg st1 evs) as [st2 rest]. cbn [fst snd] in *.
    replace (trace ++ Delivered ev :: map Did acts ++ rest)
      with ((trace ++ Delivered ev :: map Did acts) ++ rest); [exact IH|].
    now rewrite <- app_assoc.
Qed.

(** X26.  Whatever events arrive, the promise of [runJavaServer] is rejected
    only when the requirements were rejected, and resolved only with a
    socket that connected to the listening server, which is then both the
    reader and the writer. *)
Theorem runJavaServer_promise_explained (evs : list Event) :
  promise_explained (fst (run resolve cfg initial evs))
    (snd (run resolve cfg initial evs)).
Proof.
  apply (run_promise_explained evs initial []).
  unfold promise_explained. cbn. discriminate.
Qed.

Lemma run_app evs1 evs2 st :
  fst (run resolve cfg st (evs1 ++ evs2))
  = fst (run resolve cfg (fst (run resolve cfg st evs1)) evs2).
Proof.
  revert st. induction evs1 as [|ev evs1 IH]; intros st; [reflexivity|].
  cbn [app run]. destruct (step resolve cfg st ev) as [st1 acts].
  specialize (IH st1).
  destruct (run resolve cfg st1 (evs1 ++ evs2)) as [a b].
  destruct (run resolve cfg st1 evs1) as [c d]. exact IH.
Qed.

Lemma step_settled st ev trace :
  promise_explained st trace -> promise st <> Pending ->
  promise (fst (step resolve cfg st ev)) = promise st.
Proof.
  unfold promise_explained. intros H Hn.
  destruct st as [ph p]. cbn [phase promise] in *.
  destruct p as [|streams|]; [congruence| |].
  - destruct H as (_ & _ & port & ->).
    destruct ev; reflexivity.
  - destruct H as (-> & _). destruct ev; reflexivity.
Qed.

Lemma run_settled evs : forall st trace,
  promise_explained st trace -> promise st <> Pending ->
  promise (fst (run resolve cfg st evs)) = promise st.
Proof.
  induction evs as [|ev evs IH]; intros st trace H Hn; [reflexivity|].
  cbn [run].
  pose proof (step_promise_explained st ev trace H) as Hs.
  pose proof (step_settled st ev trace H Hn) as Hp.
  destruct (step resolve cfg st ev) as [st1 acts]. cbn [fst snd] in *.
  assert (promise st1 <> Pending) as Hn1 by (now rewrite Hp).
  specialize (IH st1 _ Hs Hn1).
  destruct (run resolve cfg st1 evs) as [st2 rest]. cbn [fst] in *.
  now rewrite IH.
Qed.

(** X27.  Once the promise of [runJavaServer] is settled no later event
    changes it: a second connection does not replace the streams. *)
Theorem runJavaServer_promise_settles_once (evs1 evs2 : list Event) :
  promise (fst (run resolve cfg initial evs1)) <> Pending ->
  promise (fst (run resolve cfg initial (evs1 ++ evs2)))
  = promise (fst (run resolve cfg initial evs1)).
Proof.
  intros Hn. rewrite run_app.
  apply (run_settled evs2 _ (snd (run resolve cfg initial evs1))); [|exact Hn].
  apply (run_promise_explained evs1 initial []).
  unfold promise_explained. cbn. discriminate.
Qed.

End Facts.

Lemma runJavaServer_promise_settles_once_witness :
  promise (fst (run (fun segments => List.concat segments) sample_config initial
                  (sample_events ++ [Connection (mkSocket 2)])))
  = Resolved (mkStreamInfo (mkSocket 1) (mkSocket 1)).
Proof.
  rewrite (runJavaServer_promise_settles_once
             (fun segments => List.concat segments) sample_config
             sample_events [Connection (mkSocket 2)]).
  - reflexivity.
  - vm_compute. discriminate.
Defined.

Lemma languageServerCommand_arguments_witness :
  fst (match languageServerCommand (Uri.posix_resolve_all (js "/")) sample_config
               (mkRequirementsData (js "/jre")) 4242 with
       | Return r => r
       | Throw _ => ([], [])
       end)
  = js "/jre/bin/java".
Proof.
  destruct (languageServerCommand (Uri.posix_resolve_all (js "/")) sample_config
              (mkRequirementsData (js "/jre")) 4242) as [[command args]|e] eqn:E;
    [|vm_compute in E; discriminate].
  destruct (languageServerCommand_arguments _ _ _ _ _ _ E) as [-> _].
  reflexivity.
Defined.

End BootstrapMore.

(** ** The ignore check, continued *)

Module IgnoreMore.
Import IgnoreCheck IgnoreCheckFacts GitIgnore IgnoreTrace.

Local Open Scope js_scope.

Section Facts.

Variable exec : jsstring -> jsstring -> ExecResult.
Variable verbose : bool.

(** X10.  Once the ignore check reaches Git (the file is in a workspace
    folder, the Git extension exports its API), [isIgnoredByScm] always
    resolves: to [true] exactly when Git ended without error or with code 0
    or 1, wrote nothing to its error output and something to its output; a
    Git command that fails otherwise (exit code 128, say) makes the file
    count as not ignored. *)
Theorem isIgnoredByScm_resolves env fileUri parsed folder extension git api :
  Uri_parse env fileUri = Return parsed ->
  getWorkspaceFolder env parsed = Some folder ->
  getExtension env = Some extension ->
  exports extension = Some git ->
  getAPI git = Return api ->
  fst (fst (isIgnoredByScm exec verbose env fileUri tt))
  = Return (git_says_ignored
              (exec (git_command (git_path api) (asRelativePath env parsed))
                    (fsPath (uri folder)))).
Proof.
  intros Hparse Hfolder Hext Hexp Hapi.
  unfold isIgnoredByScm, performIsIgnoredCheck, bind, emit, lift, try_catch.
  rewrite Hparse. cbn. rewrite Hfolder. cbn. rewrite Hext. cbn. rewrite Hexp.
  rewrite Hapi. cbn.
  unfold isIgnored, git_says_ignored.
  destruct (exec _ _) as [err out errout]. cbn [exec_error stdout stderr].
  destruct err as [code|]; [destruct (isNeitherOkNorFail code)|];
    cbn; destruct errout, out; reflexivity.
Qed.

End Facts.

Lemma isIgnoredByScm_resolves_witness :
  fst (fst (isIgnoredByScm failing_git true git_env (js "file:///w/a.c") tt))
  = Return false.
Proof.
  apply (isIgnoredByScm_resolves failing_git true git_env (js "file:///w/a.c")
           (mkUri (js "/w/a.c")) sample_folder
           (mkExtension (Some (mkGitExtension (Return (mkAPI (js "/usr/bin/git"))))))
           (mkGitExtension (Return (mkAPI (js "/usr/bin/git"))))
           (mkAPI (js "/usr/bin/git")));
    reflexivity.
Defined.

(** X11.  The callback of the ignore check is run at most once, and the
    check answers [true] only when the callback resolved to [true] on its
    one run, which was on the command [Qgit-pathQ check-ignore
    relative-path] (Q the double quote), with the path of Git that the API
    of the Git extension gave, in the workspace folder of the file. *)
Theorem performIsIgnoredCheck_true_only_from_callback env scmCheck fileUri :
  let run := performIsIgnoredCheck env scmCheck fileUri tt in
  (List.length (filter is_scm_check (snd run)) <= 1)%nat
  /\ (fst (fst run) = Return true ->
      exists parsed folder extension git api,
        Uri_parse env fileUri = Return parsed
        /\ getWorkspaceFolder env parsed = Some folder
        /\ getExtension env = Some extension
        /\ exports extension = Some git
        /\ getAPI git = Return api
        /\ filter is_scm_check (snd run)
           = [CallScmCheck (fsPath (uri folder))
                (git_command (git_path api) (asRelativePath env parsed))]
        /\ scmCheck (fsPath (uri folder))
             (git_command (git_path api) (asRelativePath env parsed))
           = Return true).
Proof.
  intros run. subst run.
  unfold performIsIgnoredCheck, bind, emit, lift, try_catch.
  destruct (Uri_parse env fileUri) as [parsed|e] eqn:Hparse; cbn;
    [|split; [lia | discriminate]].
  destruct (getWorkspaceFolder env parsed) as [folder|] eqn:Hfolder; cbn;
    [|split; [lia | discriminate]].
  destruct (getExtension env) as [extension|] eqn:Hext; cbn;
    [|split; [lia | discriminate]].
  destruct (exports extension) as [git|] eqn:Hexp; cbn;
    [|split; [lia | discriminate]].
  destruct (getAPI git) as [api|e] eqn:Hapi; cbn; [|split; [lia | discriminate]].
  destruct (scmCheck _ _) as [b|e] eqn:E; cbn; [|split; [lia | discriminate]].
  split; [lia|].
  intros H. injection H as ->. exists parsed, folder, extension, git, api.
  repeat split; assumption.
Qed.

Lemma performIsIgnoredCheck_true_only_from_callback_witness :
  exists parsed folder extension git api,
    Uri_parse git_env (js "file:///w/a.c") = Return parsed
    /\ getWorkspaceFolder git_env parsed = Some folder
    /\ getExtension git_env = Some extension
    /\ exports extension = Some git
    /\ getAPI git = Return api
    /\ filter is_scm_check
         (snd (performIsIgnoredCheck git_env (fun _ _ => Return true)
                 (js "file:///w/a.c") tt))
       = [CallScmCheck (fsPath (uri folder))
            (git_command (git_path api) (asRelativePath git_env parsed))]
    /\ (fun _ _ => Return true)
         (fsPath (uri folder))
         (git_command (git_path api) (asRelativePath git_env parsed))
       = Return true.
Proof.
  destruct (performIsIgnoredCheck_true_only_from_callback git_env
              (fun _ _ => Return true) (js "file:///w/a.c")) as [_ H].
  apply H. reflexivity.
Defined.

End IgnoreMore.

(** ** The TypeScript location *)

Module TypeScriptFacts.
Import TypeScript.

Section Facts.

Variable isAbsolute : jsstring -> bool.
Variable join : jsstring -> jsstring -> jsstring.
Variable resolve : list jsstring -> jsstring.
Variable existsSync : jsstring -> bool.
Variable workspaceFolders : option (list jsstring).

(** The loop stops at the first folder under which the path exists. *)
Lemma first_existing_some p folders q :
  first_existing join existsSync p folders = Some q ->
  existsSync q = true
  /\ exists before folder after,
       folders = before ++ folder :: after
       /\ q = join folder p
       /\ Forall (fun f => existsSync (join f p) = false) before.
Proof.
  induction folders as [|f folders IH]; [discriminate|]. simpl.
  destruct (existsSync (join f p)) eqn:E.
  - intros H. injection H as <-. split; [assumption|].
    exists [], f, folders. auto.
  - intros H. destruct (IH H) as (Hq & before & folder & after & -> & -> & F).
    split; [assumption|]. exists (f :: before), folder, after.
    split; [reflexivity|]. split; [reflexivity|]. now constructor.
Qed.

Lemma first_existing_none p folders :
  first_existing join existsSync p folders = None ->
  Forall (fun f => existsSync (join f p) = false) folders.
Proof.
  induction folders as [|f folders IH]; [constructor|]. simpl.
  destruct (existsSync (join f p)) eqn:E; [discriminate|].
  intros H. constructor; [assumption | now apply IH].
Qed.

Lemma resolveInAnyWorkspaceFolder_some_exists p q :
  resolveInAnyWorkspaceFolder isAbsolute join existsSync workspaceFolders p = Some q ->
  existsSync q = true.
Proof.
  unfold resolveInAnyWorkspaceFolder. destruct (isAbsolute p).
  - destruct (existsSync p) eqn:E; [|discriminate]. intros H. now injection H as <-.
  - intros H. now apply first_existing_some in H as [Hq _].
Qed.

(** X12.  What [resolveInAnyWorkspaceFolder] returns exists on disk.  An
    absolute setting is returned as it is and is never looked up in the
    workspace folders; a relative one is joined to the first workspace
    folder under which it exists, in the order of the folders.  Nothing is
    returned only when no candidate exists. *)
Theorem resolveInAnyWorkspaceFolder_exists (tsdkPathSetting : jsstring) :
  let folders := match workspaceFolders with Some l => l | None => [] end in
  (forall q,
      resolveInAnyWorkspaceFolder isAbsolute join existsSync workspaceFolders
        tsdkPathSetting = Some q ->
      existsSync q = true
      /\ (isAbsolute tsdkPathSetting = true -> q = tsdkPathSetting)
      /\ (isAbsolute tsdkPathSetting = false ->
          exists before folder after,
            folders = before ++ folder :: after
            /\ q = join folder tsdkPathSetting
            /\ Forall (fun f => existsSync (join f tsdkPathSetting) = false) before))
  /\ (resolveInAnyWorkspaceFolder isAbsolute join existsSync workspaceFolders
        tsdkPathSetting = None ->
      (isAbsolute tsdkPathSetting = true -> existsSync tsdkPathSetting = false)
      /\ (isAbsolute tsdkPathSetting = false ->
          Forall (fun f => existsSync (join f tsdkPathSetting) = false) folders)).
Proof.
  intros folders. unfold resolveInAnyWorkspaceFolder. fold folders.
  destruct (isAbsolute tsdkPathSetting).
  - destruct (existsSync tsdkPathSetting) eqn:E; split.
    + intros q H. injection H as <-. split; [assumption|].
      split; [reflexivity | discriminate].
    + discriminate.
    + discriminate.
    + intros _. split; [reflexivity | discriminate].
  - split.
    + intros q H. apply first_existing_some in H as [Hq Hrest].
      split; [assumption|]. split; [discriminate | now intros _].
    + intros H. split; [discriminate|]. intros _. now apply first_existing_none.
Qed.

(** X13.  [findTypeScriptLocation] returns nothing exactly when the
    TypeScript extension is missing.  Otherwise it returns the configured
    location whenever the setting is a non-empty string that resolves, and
    that location exists; in every other case (no setting, an empty setting,
    a setting that does not resolve) it returns the location bundled with
    the extension, whether that one exists or not. *)
Theorem findTypeScriptLocation_result (tsExt tsdk : option jsstring) :
  let result :=
    fst (findTypeScriptLocation isAbsolute join resolve existsSync
           workspaceFolders tsExt tsdk) in
  (result = None <-> tsExt = None)
  /\ (forall extensionPath,
        tsExt = Some extensionPath ->
        let bundled :=
          resolve [extensionPath; js ".."; js "node_modules"; js "typescript"; js "lib"] in
        (forall setting q,
            tsdk = Some setting -> setting <> [] ->
            resolveInAnyWorkspaceFolder isAbsolute join existsSync workspaceFolders
              setting = Some q ->
            result = Some q /\ existsSync q = true)
        /\ (tsdk = None
            \/ tsdk = Some []
            \/ (exists setting,
                  tsdk = Some setting
                  /\ resolveInAnyWorkspaceFolder isAbsolute join existsSync
                       workspaceFolders setting = None) ->
            result = Some bundled)
        /\ (result <> Some bundled ->
            exists setting,
              tsdk = Some setting
              /\ setting <> []
              /\ result
                 = resolveInAnyWorkspaceFolder isAbsolute join existsSync
                     workspaceFolders setting)).
Proof.
  intros result. subst result. unfold findTypeScriptLocation.
  destruct tsExt as [extensionPath|].
  - split.
    + destruct tsdk as [[|c rest]|]; cbn [fst]; try (split; discriminate).
      destruct (resolveInAnyWorkspaceFolder _ _ _ _ _); cbn [fst]; split; discriminate.
    + intros ep Hep. injection Hep as <-. cbv zeta. split; [|split].
      * intros setting q -> Hne Hq. destruct setting as [|c rest]; [contradiction|].
        rewrite Hq. cbn [fst]. split; [reflexivity|].
        now apply (resolveInAnyWorkspaceFolder_some_exists (c :: rest)).
      * intros [->|[->|(setting & -> & Hnone)]]; try reflexivity.
        destruct setting as [|c rest]; [reflexivity|]. now rewrite Hnone.
      * destruct tsdk as [[|c rest]|]; cbn [fst]; try contradiction.
        destruct (resolveInAnyWorkspaceFolder _ _ _ _ (c :: rest)) as [q|] eqn:E;
          cbn [fst]; [|contradiction].
        intros _. exists (c :: rest). rewrite E. split; [reflexivity|].
        split; [discriminate | reflexivity].
  - split; [split; reflexivity|]. discriminate.
Qed.

End Facts.

Lemma resolveInAnyWorkspaceFolder_exists_witness :
  sample_exists (js "/w2/node_modules/typescript/lib") = true
  /\ exists before folder after,
       sample_folders = before ++ folder :: after
       /\ js "/w2/node_modules/typescript/lib"
          = sample_join folder (js "node_modules/typescript/lib")
       /\ Forall (fun f => sample_exists (sample_join f (js "node_modules/typescript/lib")) = false)
            before.
Proof.
  destruct (resolveInAnyWorkspaceFolder_exists sample_is_absolute sample_join
              sample_exists (Some sample_folders) (js "node_modules/typescript/lib"))
    as [H _].
  destruct (H (js "/w2/node_modules/typescript/lib") eq_refl) as (A & _ & B).
  split; [exact A | exact (B eq_refl)].
Defined.

End TypeScriptFacts.

(** ** Rule activation *)

Module RulesFacts.
Import Rules.

Lemma assign_same rules k v : assign rules k v k = v.
Proof.
  unfold assign. now rewrite (proj2 (jsstring_eqb_true k k) eq_refl).
Qed.

Lemma assign_other rules k v k' : k' <> k -> assign rules k v k' = rules k'.
Proof.
  intros H. unfold assign. destruct (jsstring_eqb k' k) eqn:E; [|reflexivity].
  apply jsstring_eqb_true in E. contradiction.
Qed.

(** What a toggle stores under its key. *)
Lemma toggleRule_key level target stored :
  toggleRule level target stored (target_key target)
  = match target with
    | RuleKey _ => Override level
    | RuleNode rule =>
        if Bool.eqb (is_on level) (activeByDefault rule) then Undefined
        else Override level
    end.
Proof.
  unfold toggleRule. destruct target as [k|rule]; cbn [target_key].
  - apply assign_same.
  - destruct level, (activeByDefault rule); cbn; apply assign_same.
Qed.

Lemma toggleRule_other level target stored k :
  k <> target_key target ->
  toggleRule level target stored k
  = match stored with Some r => r k | None => Missing end.
Proof.
  intros H. unfold toggleRule.
  destruct target as [k'|rule]; cbn [target_key] in H.
  - rewrite assign_other by assumption. now destruct stored.
  - destruct level, (activeByDefault rule); rewrite assign_other by assumption;
      now destruct stored.
Qed.

(** X14.  After a toggle the rule is at the level asked for: from a node of
    the rules view an override is stored only when the level differs from
    the default of the rule, and the property is set to [undefined]
    otherwise; from a bare key the override is stored whatever the default.
    Every other rule keeps its setting.  A later toggle of the same rule
    replaces an earlier one. *)
Theorem toggleRule_reaches_level (level : ConfigLevel) (target : Target)
  (stored : option RulesObject) :
  let rules := toggleRule level target stored in
  (forall rule, target = RuleNode rule ->
     active (rules (key rule)) (activeByDefault rule) = is_on level
     /\ (forall l, rules (key rule) = Override l ->
                   is_on l <> activeByDefault rule /\ l = level))
  /\ (forall k default, target = RuleKey k ->
        rules k = Override level /\ active (rules k) default = is_on level)
  /\ (forall k, k <> target_key target ->
        rules k = match stored with Some r => r k | None => Missing end)
  /\ (forall level' k,
        toggleRule level' target (Some rules) k
        = toggleRule level' target stored k).
Proof.
  intros rules. subst rules. split; [|split; [|split]].
  - intros rule ->.
    pose proof (toggleRule_key level (RuleNode rule) stored) as H.
    cbn [target_key] in H. rewrite H.
    destruct level, (activeByDefault rule); cbn; (split; [reflexivity|]);
      intros l Hl; try discriminate; injection Hl as <-; split;
      [discriminate | reflexivity | discriminate | reflexivity].
  - intros k default ->.
    pose proof (toggleRule_key level (RuleKey k) stored) as H.
    cbn [target_key] in H. rewrite H. split; [reflexivity | now destruct level].
  - intros k Hk. now apply toggleRule_other.
  - intros level' k.
    destruct (jsstring_eq_dec k (target_key target)) as [->|Hk].
    + now rewrite !toggleRule_key.
    + rewrite !toggleRule_other by assumption. reflexivity.
Qed.

End RulesFacts.

(** ** Configuration changes *)

Module ConfigChangeFacts.
Import ConfigChange.

Lemma value_eqb_refl v : value_eqb v v = true.
Proof.
  destruct v as [[s|b]|]; cbn; [|now destruct b | reflexivity].
  now apply jsstring_eqb_true.
Qed.

Lemma unchanged_refl config :
  hasSonarLintLsConfigChanged config config || hasNodeJsConfigChanged config config
  = false.
Proof.
  unfold hasSonarLintLsConfigChanged, hasNodeJsConfigChanged, configKeyEquals.
  now rewrite !value_eqb_refl.
Qed.

(** X15.  A configuration change replaces [currentConfig], and shows the
    restart warning, only when one of [ls.javaHome], [ls.vmargs] and
    [pathToNodeExecutable] differs; any other change leaves [currentConfig]
    as it was, so that [isVerboseEnabled] keeps answering from the old
    configuration.  After a change that was taken, the same configuration
    does not warn again. *)
Theorem onConfigurationChange_keeps_stale_config
  (currentConfig newConfig : Config) (affects : bool) :
  (hasSonarLintLsConfigChanged currentConfig newConfig
   || hasNodeJsConfigChanged currentConfig newConfig = false ->
   onConfigurationChange currentConfig affects newConfig = (currentConfig, [])
   /\ isVerboseEnabled (fst (onConfigurationChange currentConfig affects newConfig))
      = isVerboseEnabled currentConfig)
  /\ (snd (onConfigurationChange currentConfig affects newConfig) <> [] ->
      onConfigurationChange currentConfig affects newConfig
      = (newConfig, [ShowRestartWarning]))
  /\ (forall affects',
        snd (onConfigurationChange
               (fst (onConfigurationChange currentConfig true newConfig))
               affects' newConfig) = []).
Proof.
  unfold onConfigurationChange. split; [|split].
  - intros ->. now destruct affects.
  - destruct affects; cbn [negb]; [|contradiction].
    destruct (_ || _); [reflexivity | contradiction].
  - intros affects'. cbn [negb].
    destruct (hasSonarLintLsConfigChanged currentConfig newConfig
              || hasNodeJsConfigChanged currentConfig newConfig) eqn:E;
      cbn [fst].
    + rewrite unchanged_refl. now destruct affects'.
    + rewrite E. now destruct affects'.
Qed.

Lemma onConfigurationChange_keeps_stale_config_witness :
  isVerboseEnabled verbose_config = true
  /\ isVerboseEnabled (fst (onConfigurationChange quiet_config true verbose_config))
     = false.
Proof.
  destruct (onConfigurationChange_keeps_stale_config quiet_config verbose_config true)
    as [H _].
  split; [reflexivity|]. destruct (H eq_refl) as [_ ->]. reflexivity.
Defined.

End ConfigChangeFacts.

(** ** The source-control bridge, continued *)

Module ScmMore.
Import Scm ScmFacts ScmEvents.

Local Open Scope js_scope.

(** The listeners after [subscribeToAllRepositoryChanges], whether it
    returns or throws for want of workspace folders. *)
Lemma subscribeToAllRepositoryChanges_listeners env l :
  snd (fst (subscribeToAllRepositoryChanges env l))
  = l ++ map (fun r => mkDisposable (OnDidChange r)) (repositories (gitApi env)).
Proof.
  destruct env as [api [folders|]].
  - now rewrite subscribeToAllRepositoryChanges_run.
  - unfold subscribeToAllRepositoryChanges, bind. cbn [gitApi].
    rewrite subscribe_all_repositories. reflexivity.
Qed.

Lemma subscribeToAllRepositoryChanges_outcome env l :
  fst (fst (subscribeToAllRepositoryChanges env l))
  = match workspaceFolders env with
    | Some _ => Return tt
    | None => Throw TypeError
    end.
Proof.
  destruct env as [api [folders|]].
  - now rewrite subscribeToAllRepositoryChanges_run.
  - unfold subscribeToAllRepositoryChanges, bind. cbn [gitApi].
    rewrite subscribe_all_repositories. reflexivity.
Qed.

Lemma subscribeToAllRepositoryChanges_no_init_log env l :
  existsb is_init_exception (snd (subscribeToAllRepositoryChanges env l)) = false.
Proof.
  destruct env as [api [folders|]].
  - rewrite subscribeToAllRepositoryChanges_run. cbn [snd].
    rewrite existsb_app. apply orb_false_iff. split.
    + induction (repositories api); simpl; auto.
    + induction folders; simpl; auto.
  - unfold subscribeToAllRepositoryChanges, bind. cbn [gitApi].
    rewrite subscribe_all_repositories. cbn. rewrite app_nil_r.
    induction (repositories api); simpl; auto.
Qed.

(** The constructor, by its parts. *)
Lemma constructor_run env :
  snd (fst (constructor env [])) = constructed_listeners (gitApi env)
  /\ fst (fst (constructor env []))
     = match api_state (gitApi env), workspaceFolders env with
       | initialized, None => Throw TypeError
       | _, _ => Return tt
       end
  /\ existsb is_init_exception (snd (constructor env [])) = false.
Proof.
  unfold constructor, bind, constructed_listeners. cbn [emit put].
  destruct (api_state (gitApi env)) eqn:Est.
  - cbn. auto.
  - pose proof (subscribeToAllRepositoryChanges_listeners env
                  [mkDisposable OnDidOpenRepository]) as Hl.
    pose proof (subscribeToAllRepositoryChanges_outcome env
                  [mkDisposable OnDidOpenRepository]) as Ho.
    pose proof (subscribeToAllRepositoryChanges_no_init_log env
                  [mkDisposable OnDidOpenRepository]) as Hn.
    destruct (subscribeToAllRepositoryChanges env _) as [[r l] t].
    cbn [fst snd app] in *. subst l r.
    destruct (workspaceFolders env); cbn [fst snd app existsb is_init_exception orb];
      auto.
Qed.

(** X16.  [initScm] never throws.  It returns the no-op bridge, after one
    log line, exactly when the Git extension or its exports are missing,
    [getAPI] throws, or the API is initialised while no workspace folder is
    open; otherwise it returns a [GitScm] on that API, holding the
    subscription to opened repositories and, when the API is initialised,
    one change listener per known repository. *)
Theorem initScm_falls_back (extension : option (option (outcome API)))
  (folders : option (list WorkspaceFolder)) :
  match fst (initScm extension folders) with
  | Noop _ =>
      List.length (filter is_init_exception (snd (initScm extension folders))) = 1%nat
      /\ (extension = None \/ extension = Some None
          \/ (exists e, extension = Some (Some (Throw e)))
          \/ (exists api, extension = Some (Some (Return api))
                          /\ api_state api = initialized /\ folders = None))
  | Git scm =>
      existsb is_init_exception (snd (initScm extension folders)) = false
      /\ extension = Some (Some (Return (git_api scm)))
      /\ listeners scm = constructed_listeners (git_api scm)
      /\ (api_state (git_api scm) = initialized -> folders <> None)
  end.
Proof.
  unfold initScm.
  destruct extension as [[[api|e]|]|]; cbn [fst snd filter is_init_exception List.length].
  - destruct (constructor_run (mkEnv api folders)) as (Hl & Ho & Hn).
    destruct (constructor (mkEnv api folders) []) as [[r l] t].
    cbn [fst snd gitApi workspaceFolders] in *. subst l.
    destruct r as [[]|e]; cbn [fst snd git_api listeners].
    + split; [assumption|]. split; [reflexivity|]. split; [reflexivity|].
      intros Hst. rewrite Hst in Ho. destruct folders; [discriminate | discriminate].
    + split.
      * rewrite filter_app. cbn. rewrite length_app. cbn.
        assert (filter is_init_exception t = []) as ->; [|reflexivity].
        clear Ho. induction t as [|x t IH]; [reflexivity|].
        cbn in Hn. apply orb_false_iff in Hn as [Hx Ht]. cbn. rewrite Hx.
        now apply IH.
      * right. right. right. exists api.
        destruct (api_state api), folders; try discriminate. auto.
  - split; [reflexivity|]. right. right. left. now exists e.
  - split; [reflexivity|]. right. now left.
  - split; [reflexivity|]. now left.
Qed.

(** One event keeps the head of the listeners, adds no subscription to the
    state of the API, and only appends. *)
Lemma handle_invariant b ev :
  exists added,
    live_listeners (fst (handle b ev)) = live_listeners b ++ added
    /\ forallb (fun d => negb (is_state_subscription d)) added = true
    /\ watches_state (fst (handle b ev)) = watches_state b.
Proof.
  destruct ev as [r|env newState]; cbn [handle].
  - cbn. exists [mkDisposable (OnDidChange r)]. auto.
  - destruct (watches_state b) eqn:Ew.
    + destruct newState; cbn [onStateChange].
      * cbn. exists []. rewrite app_nil_r. auto.
      * pose proof (subscribeToAllRepositoryChanges_listeners env (live_listeners b)) as Hl.
        destruct (subscribeToAllRepositoryChanges env (live_listeners b)) as [[r l] t].
        cbn [fst snd live_listeners watches_state] in *. subst l.
        eexists. split; [reflexivity|]. split; [|reflexivity].
        induction (repositories (gitApi env)); simpl; auto.
    + exists []. rewrite app_nil_r. cbn. auto.
Qed.

Lemma handle_all_invariant evs : forall b,
  exists added,
    live_listeners (fst (handle_all b evs)) = live_listeners b ++ added
    /\ forallb (fun d => negb (is_state_subscription d)) added = true.
Proof.
  induction evs as [|ev evs IH]; intros b.
  - exists []. cbn. rewrite app_nil_r. auto.
  - cbn [handle_all]. destruct (handle_invariant b ev) as (a1 & H1 & F1 & _).
    destruct (handle b ev) as [b1 t1]. cbn [fst] in H1.
    destruct (IH b1) as (a2 & H2 & F2).
    destruct (handle_all b1 evs) as [b2 t2]. cbn [fst] in *.
    exists (a1 ++ a2). rewrite H2, H1, <- app_assoc. split; [reflexivity|].
    rewrite forallb_app, F1, F2. reflexivity.
Qed.

(** X17.  Through the whole life of a bridge, whatever repositories are
    opened and however the state of the API changes, the listeners only
    grow, start with the subscription to opened repositories, and never hold
    the subscription to the state of the API: [dispose] calls [dispose] on
    every change listener and never on the state subscription, though the
    constructor made that subscription when the API was not initialised. *)
Theorem bridge_never_disposes_state_subscription env b t evs
  (dispose_of : Disposable -> outcome unit) :
  construct env = (Return b, t) ->
  let listeners := live_listeners (fst (handle_all b evs)) in
  (exists added, listeners = constructed_listeners (gitApi env) ++ added)
  /\ existsb is_dispose_of_state_subscription
       (snd (GitScm_dispose dispose_of listeners)) = false
  /\ (api_state (gitApi env) = uninitialized -> In (Subscribe OnDidChangeState) t).
Proof.
  intros Hc listeners. subst listeners.
  unfold construct in Hc.
  destruct (constructor_run env) as (Hl & _ & _).
  assert (api_state (gitApi env) = uninitialized ->
          In (Subscribe OnDidChangeState) (snd (constructor env []))) as Hsub.
  { intros Hst. unfold constructor, bind. cbn [emit put]. rewrite Hst. cbn. auto. }
  destruct (constructor env []) as [[r l] t0]. cbn [fst snd] in *.
  destruct r as [[]|e]; [|discriminate]. injection Hc as <- <-.
  destruct (handle_all_invariant evs
              (mkLive l
                 match api_state (gitApi env) with
                 | uninitialized => true
                 | initialized => false
                 end)) as (added & Ha & Fa).
  cbn [live_listeners] in Ha. rewrite Ha, Hl.
  split; [now exists added|]. split; [|assumption].
  rewrite GitScm_dispose_run. cbn [snd].
  rewrite map_app, existsb_app. apply orb_false_iff. split.
  - unfold constructed_listeners. cbn.
    destruct (api_state (gitApi env)); [reflexivity|].
    induction (repositories (gitApi env)); simpl; auto.
  - clear Ha. induction added as [|d added IH]; [reflexivity|].
    cbn in Fa. apply andb_true_iff in Fa as [Hd Fa]. cbn.
    apply negb_true_iff in Hd. rewrite Hd. now apply IH.
Qed.

Lemma bridge_never_disposes_state_subscription_witness :
  In (Subscribe OnDidChangeState) (snd (construct (sample_env uninitialized)))
  /\ existsb is_dispose_of_state_subscription
       (snd (GitScm_dispose (fun _ => Return tt)
               (live_listeners
                  (fst (handle_all (mkLive [mkDisposable OnDidOpenRepository] true)
                          [RepositoryOpened sample_repository;
                           StateChanged (sample_env initialized) initialized])))))
     = false.
Proof.
  destruct (bridge_never_disposes_state_subscription (sample_env uninitialized)
              (mkLive [mkDisposable OnDidOpenRepository] true)
              (snd (construct (sample_env uninitialized)))
              [RepositoryOpened sample_repository;
               StateChanged (sample_env initialized) initialized]
              (fun _ => Return tt) eq_refl) as (_ & H1 & H2).
  split; [apply H2; reflexivity | exact H1].
Defined.

Lemma handle_opened b r :
  fst (handle b (RepositoryOpened r))
  = mkLive (live_listeners b ++ [mkDisposable (OnDidChange r)]) (watches_state b).
Proof. reflexivity. Qed.

Lemma handle_initialized b env :
  watches_state b = true ->
  fst (handle b (StateChanged env initialized))
  = mkLive (live_listeners b
            ++ map (fun r => mkDisposable (OnDidChange r)) (repositories (gitApi env)))
           true.
Proof.
  intros Hw. cbn [handle]. rewrite Hw. cbn [onStateChange].
  pose proof (subscribeToAllRepositoryChanges_listeners env (live_listeners b)) as E.
  destruct (subscribeToAllRepositoryChanges env (live_listeners b)) as [[o l] t].
  cbn [fst snd] in *. now subst l.
Qed.

Lemma handle_all_two b e1 e2 :
  fst (handle_all b [e1; e2]) = fst (handle (fst (handle b e1)) e2).
Proof.
  cbn [handle_all]. destruct (handle b e1) as [b1 t1]. cbn [fst].
  destruct (handle b1 e2) as [b2 t2]. reflexivity.
Qed.

Lemma change_listeners_app root l1 l2 :
  change_listeners root (l1 ++ l2)
  = (change_listeners root l1 + change_listeners root l2)%nat.
Proof. unfold change_listeners. now rewrite filter_app, length_app. Qed.

Lemma change_listeners_subscribed root rs :
  change_listeners root (map (fun r => mkDisposable (OnDidChange r)) rs)
  = List.length (rooted_at root rs).
Proof.
  unfold change_listeners, rooted_at.
  induction rs as [|r rs IH]; [reflexivity|]. cbn [map filter listens_to subscription].
  destruct (uri_eqb (rootUri r) root); cbn [List.length]; now rewrite IH.
Qed.

(** X18.  Subscriptions are not de-duplicated.  [subscribeToRepositoryChanges]
    always adds a listener, and [subscribeToAllRepositoryChanges] adds one
    for every repository that the API knows, whether or not the bridge
    already listens to it; so a repository that was opened before the API
    became initialised, and is known to the API then, ends with two change
    listeners. *)
Theorem subscriptions_are_not_deduplicated (root : Uri) :
  (forall r l,
      change_listeners root (snd (fst (subscribeToRepositoryChanges r l)))
      = (change_listeners root l + if uri_eqb (rootUri r) root then 1 else 0)%nat)
  /\ (forall env l,
        change_listeners root (snd (fst (subscribeToAllRepositoryChanges env l)))
        = (change_listeners root l
           + List.length (rooted_at root (repositories (gitApi env))))%nat)
  /\ (forall b r env,
        watches_state b = true ->
        rootUri r = root ->
        In r (repositories (gitApi env)) ->
        (change_listeners root (live_listeners b) + 2
         <= change_listeners root
              (live_listeners
                 (fst (handle_all b [RepositoryOpened r; StateChanged env initialized]))))%nat).
Proof.
  split; [|split].
  - intros r l.
    change (snd (fst (subscribeToRepositoryChanges r l)))
      with (l ++ [mkDisposable (OnDidChange r)]).
    rewrite change_listeners_app. f_equal.
    unfold change_listeners. cbn [filter listens_to subscription].
    now destruct (uri_eqb (rootUri r) root).
  - intros env l. rewrite subscribeToAllRepositoryChanges_listeners.
    now rewrite change_listeners_app, change_listeners_subscribed.
  - intros b r env Hw Hroot Hin.
    rewrite handle_all_two, handle_opened, handle_initialized by exact Hw.
    cbn [live_listeners].
    rewrite !change_listeners_app, change_listeners_subscribed.
    assert (change_listeners root [mkDisposable (OnDidChange r)] = 1%nat) as ->.
    { unfold change_listeners. cbn. rewrite Hroot, uri_eqb_refl. reflexivity. }
    assert (1 <= List.length (rooted_at root (repositories (gitApi env))))%nat.
    { unfold rooted_at.
      assert (In r (filter (fun r0 => uri_eqb (rootUri r0) root)
                      (repositories (gitApi env)))) as Hf.
      { apply filter_In. split; [assumption|]. rewrite Hroot. apply uri_eqb_refl. }
      destruct (filter _ _); [destruct Hf | simpl; lia]. }
    lia.
Qed.

Lemma subscriptions_are_not_deduplicated_witness :
  (0 + 2
   <= change_listeners (rootUri sample_repository)
        (live_listeners
           (fst (handle_all (mkLive [mkDisposable OnDidOpenRepository] true)
                   [RepositoryOpened sample_repository;
                    StateChanged (sample_env initialized) initialized]))))%nat.
Proof.
  destruct (subscriptions_are_not_deduplicated (rootUri sample_repository))
    as (_ & _ & H).
  apply (H (mkLive [mkDisposable OnDidOpenRepository] true) sample_repository
           (sample_env initialized)).
  - reflexivity.
  - reflexivity.
  - now left.
Defined.

Lemma notifications_change repository folders :
  notifications (flat_map (change_effects repository) folders)
  = map (fun f => (uri f, head_name repository))
      (filter (under_root repository) folders).
Proof.
  induction folders as [|f folders IH]; [reflexivity|].
  cbn [flat_map filter]. rewrite notifications_app, IH.
  unfold change_effects. destruct (under_root repository f); reflexivity.
Qed.

(** X19.  Lookup and notifications agree: for a workspace folder that lies
    in a repository, [getBranchForFolder] answers the branch that the
    initial notification for the folder carried, and, when the URI of the
    folder starts with the root of that repository, the branch that a change
    notification of the repository carries for it. *)
Theorem getBranchForFolder_agrees_with_notifications api l folders folder repository :
  getRepository api (uri folder) = Some repository ->
  In folder folders ->
  exists branch,
    getBranchForFolder (mkGitScm api l) (uri folder) = Return branch
    /\ (forall listeners,
          In (uri folder, branch)
            (notifications
               (trace_of (subscribeToAllRepositoryChanges
                            (mkEnv api (Some folders)) listeners))))
    /\ (under_root repository folder = true ->
        forall listeners,
          In (uri folder, branch)
            (notifications
               (trace_of (onRepositoryChange (mkEnv api (Some folders))
                            repository listeners)))).
Proof.
  intros Hrepo Hin. exists (head_name repository).
  assert (initial_branch api folder = head_name repository) as Hb.
  { unfold initial_branch. now rewrite Hrepo. }
  split; [|split].
  - cbn [getBranchForFolder GitScm_Scm git_api].
    apply (GitScm_getBranchForFolder_found api (uri folder) repository Hrepo).
  - intros listeners. rewrite subscribeToAllRepositoryChanges_run.
    unfold trace_of. cbn [snd].
    rewrite notifications_app, notifications_subscriptions, notifications_initial.
    rewrite <- Hb.
    apply (in_map (fun f => (uri f, initial_branch api f)) folders folder Hin).
  - intros Hu listeners. rewrite onRepositoryChange_run.
    unfold trace_of. cbn [snd]. rewrite notifications_change.
    apply (in_map (fun f => (uri f, head_name repository))).
    apply filter_In. now split.
Qed.

Lemma getBranchForFolder_agrees_with_notifications_witness :
  exists branch,
    getBranchForFolder (mkGitScm sample_api []) (uri folder_app) = Return branch
    /\ In (uri folder_app, branch)
         (notifications
            (trace_of (subscribeToAllRepositoryChanges
                         (mkEnv sample_api (Some [folder_tmp; folder_app])) []))).
Proof.
  destruct (getBranchForFolder_agrees_with_notifications sample_api []
              [folder_tmp; folder_app] folder_app sample_repository eq_refl
              (or_intror (or_introl eq_refl))) as (branch & H1 & H2 & _).
  exists branch. split; [exact H1 | exact (H2 [])].
Defined.

End ScmMore.

(** ** The compilation database, continued *)

Module CompilationDBMore.
Import CompilationDB CompilationDBTrace CompilationDBFacts.

Local Open Scope js_scope.

(** Index keys are pairwise distinct. *)
Lemma js_inj a b : js a = js b -> a = b.
Proof.
  unfold js. intros H.
  assert (list_ascii_of_string a = list_ascii_of_string b) as Hl.
  { revert H. generalize (list_ascii_of_string a) (list_ascii_of_string b).
    induction l as [|x l IH]; intros [|y l'] H; try discriminate; [reflexivity|].
    cbn [map] in H. injection H as Hx Hl. f_equal; [|now apply IH].
    apply N2Z.inj in Hx. apply (f_equal ascii_of_N) in Hx.
    now rewrite !ascii_N_embedding in Hx. }
  apply (f_equal string_of_list_ascii) in Hl.
  now rewrite !string_of_list_ascii_of_string in Hl.
Qed.

Lemma to_uint_nonnil n : Nat.to_uint n <> Decimal.Nil.
Proof.
  intros Hnil. pose proof (DecimalNat.Unsigned.of_to n) as H.
  rewrite Hnil in H. cbn in H. subst n. discriminate Hnil.
Qed.

Lemma index_key_inj i j : index_key i = index_key j -> i = j.
Proof.
  unfold index_key. intros H. apply js_inj in H.
  apply (f_equal NilZero.uint_of_string) in H.
  rewrite !NilZero.usu in H by apply to_uint_nonnil.
  injection H as H. apply (f_equal Nat.of_uint) in H.
  now rewrite !DecimalNat.Unsigned.of_to in H.
Qed.

Lemma index_keys_NoDup n : forall a, NoDup (map index_key (seq a n)).
Proof.
  induction n as [|n IH]; intros a; cbn [seq map]; constructor.
  - intros Hin. apply in_map_iff in Hin as (j & Hj & Hin).
    apply index_key_inj in Hj. subst j. apply in_seq in Hin. lia.
  - apply IH.
Qed.

Lemma lookup_in key fields :
  lookup key fields <> None -> In key (map fst fields).
Proof.
  induction fields as [|[k v0] fields IH]; [intros H; now contradiction H|].
  cbn [lookup map fst].
  destruct (lookup key fields) as [later|].
  - intros _. right. apply IH. discriminate.
  - destruct (jsstring_eqb k key) eqn:E; [|intros H; now contradiction H].
    intros _. left. now apply JSFacts.jsstring_eqb_true.
Qed.

(** A value holds no more indices than it has properties. *)
Lemma present_bound data n :
  (forall i, (i < n)%nat -> item data i <> None) -> (n <= size data)%nat.
Proof.
  intros H.
  assert (forall A (l : list A), (forall i, (i < n)%nat -> nth_error l i <> None) ->
          (n <= List.length l)%nat) as Hnth.
  { intros A l Hl. destruct (Nat.le_gt_cases n (List.length l)) as [|Hgt]; [assumption|].
    exfalso. apply (Hl (List.length l) Hgt). now apply nth_error_None. }
  destruct data as [|b|x|s|items|fields]; cbn [size item] in *;
    try (destruct n; [lia | exfalso; now apply (H 0%nat); [lia|]]).
  - apply Hnth. intros i Hi Hn. apply (H i Hi). now rewrite Hn.
  - now apply Hnth.
  - assert (NoDup (map index_key (seq 0 n))) as Hnd by apply index_keys_NoDup.
    assert (incl (map index_key (seq 0 n)) (map fst fields)) as Hincl.
    { intros k Hk. apply in_map_iff in Hk as (i & <- & Hi). apply in_seq in Hi.
      apply lookup_in. apply H. lia. }
    pose proof (NoDup_incl_length Hnd Hincl) as Hlen.
    now rewrite !length_map, length_seq in Hlen.
Qed.

Lemma below_nat i n : below i (number_of_nat n) = (i <? n)%nat.
Proof.
  unfold below, number_of_nat, Qle_bool, inject_Z. cbn [Qnum Qden].
  rewrite !Z.mul_1_r.
  destruct (Z.leb_spec (Z.of_nat n) (Z.of_nat i)), (Nat.ltb_spec i n);
    cbn [negb]; try reflexivity; lia.
Qed.

Section Facts.

Variable join : jsstring -> jsstring -> jsstring.
Variable JSON_parse : jsstring -> outcome JSON.
Variable shlex_split : jsstring -> outcome (list jsstring).
Variable StringToNumber : jsstring -> Number.
Variable Array_toString : list JSON -> outcome jsstring.

(** Making a capture writes nothing, and a capture that is made has the
    parts of its entry. *)
Lemma capture_of_run ctx compilationEntry :
  written (snd (capture_of shlex_split ctx compilationEntry tt)) = []
  /\ forall capture,
       fst (fst (capture_of shlex_split ctx compilationEntry tt)) = Return capture ->
       exists entry,
         compilationEntry = Some entry /\ captured shlex_split ctx entry capture.
Proof.
  destruct compilationEntry as [entry|]; [|split; [reflexivity | discriminate]].
  unfold capture_of, bind.
  destruct (truthy (optional_property (Some entry) (js "arguments"))) eqn:Ht.
  - destruct (optional_property (Some entry) (js "arguments")) as [a|] eqn:Ha;
      [|discriminate].
    rewrite (entry_args_truthy shlex_split _ a Ha Ht).
    unfold lift. destruct (property (Some entry) (js "directory")) as [d|e] eqn:Hd;
      cbn [fst snd ret throw app].
    + split; [reflexivity|]. intros capture H. injection H as <-.
      exists entry. split; [reflexivity|]. unfold captured. cbn [compiler env executable cwd cmd].
      rewrite Ha, Ht, Hd. auto.
    + split; [reflexivity | discriminate].
  - rewrite (entry_args_falsy shlex_split _ Ht).
    destruct (property (Some entry) (js "command")) as [[[| | |c| |]|]|e] eqn:Hc;
      try (destruct (split_command_other shlex_split (Some entry)) as [Hnil [e' He']];
           [intros c'; rewrite Hc; discriminate|];
           destruct (split_command shlex_split (Some entry) tt) as [[r []] t];
           cbn [fst snd] in *; subst r t; split; [reflexivity | discriminate]).
    rewrite (split_command_string shlex_split _ c Hc).
    destruct (shlex_split c) as [tokens|e] eqn:Hs; [|split; [reflexivity | discriminate]].
    unfold lift. destruct (property (Some entry) (js "directory")) as [d|e] eqn:Hd;
      cbn [fst snd ret throw app].
    + split; [reflexivity|]. intros capture H. injection H as <-.
      exists entry. split; [reflexivity|]. unfold captured. cbn [compiler env executable cwd cmd].
      rewrite Ht, Hd. repeat split. now exists c, tokens.
    + split; [reflexivity | discriminate].
Qed.

(** The loop, one round at a time. *)
Lemma loop_eq rounds ctx data index acc :
  loop shlex_split StringToNumber Array_toString rounds ctx data index acc tt
  = match length_of data with
    | Throw e => (Throw e, tt, [])
    | Return lenv =>
        match ToNumber StringToNumber Array_toString lenv with
        | Throw e => (Throw e, tt, [])
        | Return len =>
            if below index len then
              match rounds with
              | S rounds' =>
                  match capture_of shlex_split ctx (item data index) tt with
                  | (Return capture, _, t) =>
                      (fst (loop shlex_split StringToNumber Array_toString rounds'
                              ctx data (S index) (acc ++ [capture]) tt),
                       t ++ snd (loop shlex_split StringToNumber Array_toString rounds'
                                   ctx data (S index) (acc ++ [capture]) tt))
                  | (Throw e, _, t) => (Throw e, tt, t)
                  end
              | O => (Throw OtherError, tt, [])
              end
            else (Return acc, tt, [])
        end
    end.
Proof.
  destruct rounds as [|rounds]; cbn [loop]; unfold bind;
    (destruct (length_of data) as [lenv|e]; cbn [lift ret throw]; [|reflexivity]);
    (destruct (ToNumber StringToNumber Array_toString lenv) as [len|e];
     cbn [lift ret throw]; [|reflexivity]);
    (destruct (below index len); [|reflexivity]); [reflexivity|].
  destruct (capture_of shlex_split ctx (item data index) tt) as [[[capture|e] []] t];
    [|reflexivity].
  destruct (loop _ _ _ rounds ctx data (S index) (acc ++ [capture]) tt) as [[r []] t'].
  reflexivity.
Qed.

(** The loop writes nothing, and when it returns it has pushed one capture
    for each index below the length. *)
Lemma loop_run ctx data : forall rounds index acc,
  let run := loop shlex_split StringToNumber Array_toString rounds ctx data index acc tt in
  written (snd run) = []
  /\ forall captures,
       fst (fst run) = Return captures ->
       exists new lenv len,
         captures = acc ++ new
         /\ length_of data = Return lenv
         /\ ToNumber StringToNumber Array_toString lenv = Return len
         /\ one_capture_per_index shlex_split ctx data len index new.
Proof.
  assert (forall index acc lenv len,
            length_of data = Return lenv ->
            ToNumber StringToNumber Array_toString lenv = Return len ->
            below index len = false ->
            exists new lenv' len',
              acc = acc ++ new
              /\ length_of data = Return lenv'
              /\ ToNumber StringToNumber Array_toString lenv' = Return len'
              /\ one_capture_per_index shlex_split ctx data len' index new) as Hend.
  { intros index acc lenv len Hl Hn Hb. exists [], lenv, len.
    rewrite app_nil_r. repeat split; try assumption.
    - cbn. now rewrite Nat.add_0_r.
    - cbn. intros j Hj. lia.
    - intros j c Hj. destruct j; discriminate. }
  induction rounds as [|rounds IH]; intros index acc run; subst run;
    rewrite loop_eq;
    (destruct (length_of data) as [lenv|e] eqn:Hl;
     [|split; [reflexivity | discriminate]]);
    (destruct (ToNumber StringToNumber Array_toString lenv) as [len|e] eqn:Hn;
     [|split; [reflexivity | discriminate]]);
    (destruct (below index len) eqn:Hb;
     [|split; [reflexivity|]; intros captures H; injection H as <-;
       now apply (Hend index acc lenv len)]).
  - split; [reflexivity | discriminate].
  - destruct (capture_of_run ctx (item data index)) as [Hw Hc].
    destruct (capture_of shlex_split ctx (item data index) tt) as [[[capture|e] []] t];
      cbn [fst snd] in *; [|split; [assumption | discriminate]].
    destruct (Hc capture eq_refl) as (entry & Hitem & Hcap).
    destruct (IH (S index) (acc ++ [capture])) as [IHw IHc].
    split; [now rewrite written_app, Hw, IHw|].
    intros captures H.
    destruct (IHc captures H) as (new & lenv' & len' & -> & Hl' & Hn' & Hone).
    try rewrite Hl in Hl'. injection Hl' as <-.
    try rewrite Hn in Hn'. injection Hn' as <-.
    exists (capture :: new), lenv, len. rewrite <- app_assoc.
    destruct Hone as (H1 & H2 & H3).
    split; [reflexivity|]. split; [first [reflexivity | assumption]|].
    split; [first [reflexivity | assumption]|].
    split; [|split].
    + cbn [List.length]. now rewrite Nat.add_succ_r.
    + intros j Hj. destruct j; [now rewrite Nat.add_0_r|].
      rewrite Nat.add_succ_r. apply (H2 j). cbn [List.length] in Hj. lia.
    + intros j c Hj. destruct j.
      * injection Hj as <-. exists entry. now rewrite Nat.add_0_r.
      * rewrite Nat.add_succ_r. now apply (H3 j c).
Qed.

(** The bound on the rounds is never what ends the loop. *)
Lemma loop_rounds ctx data : forall rounds rounds' index acc,
  (forall i, (i < index)%nat -> item data i <> None) ->
  (size data < index + rounds)%nat ->
  (size data < index + rounds')%nat ->
  loop shlex_split StringToNumber Array_toString rounds ctx data index acc tt
  = loop shlex_split StringToNumber Array_toString rounds' ctx data index acc tt.
Proof.
  induction rounds as [|rounds IH]; intros rounds' index acc Hpresent Hr Hr'.
  - pose proof (present_bound data index Hpresent). lia.
  - destruct rounds' as [|rounds'];
      [pose proof (present_bound data index Hpresent); lia|].
    rewrite (loop_eq (S rounds)), (loop_eq (S rounds')).
    destruct (length_of data) as [lenv|e]; [|reflexivity].
    destruct (ToNumber StringToNumber Array_toString lenv) as [len|e]; [|reflexivity].
    destruct (below index len); [|reflexivity].
    destruct (capture_of_run ctx (item data index)) as [_ Hc].
    destruct (capture_of shlex_split ctx (item data index) tt) as [[[capture|e] []] t];
      [|reflexivity].
    destruct (Hc capture eq_refl) as (entry & Hitem & _).
    rewrite (IH rounds' (S index) (acc ++ [capture])); [reflexivity| |lia|lia].
    intros i Hi. destruct (Nat.eq_dec i index) as [->|Hne].
    + rewrite Hitem. discriminate.
    + apply Hpresent. lia.
Qed.

(** The callback of [readFile], step by step. *)
Lemma on_read_eq ctx text :
  on_read JSON_parse shlex_split StringToNumber Array_toString ctx (Some text) tt
  = match JSON_parse text with
    | Throw e => (Throw e, tt, [])
    | Return parsed =>
        match loop shlex_split StringToNumber Array_toString (S (size parsed)) ctx
                parsed 0 [] tt with
        | (Return captures, _, t) =>
            (Return tt, tt,
             t ++ [Mkdir_dirname (buildWrapperMapFile ctx);
                   WriteFile (buildWrapperMapFile ctx) (mkDump 0 captures);
                   ConsoleTimeEnd])
        | (Throw e, _, t) => (Throw e, tt, t)
        end
    end.
Proof.
  unfold on_read, bind.
  destruct (JSON_parse text) as [parsed|e]; cbn [lift ret throw]; [|reflexivity].
  destruct (loop _ _ _ (S (size parsed)) ctx parsed 0%nat [] tt) as [[[captures|e] []] t];
    reflexivity.
Qed.

(** A run of the callback of [readFile] in its parts. *)
Lemma on_read_run ctx data :
  let run := on_read JSON_parse shlex_split StringToNumber Array_toString ctx data tt in
  (forall e, fst (fst run) = Throw e -> written (snd run) = [])
  /\ (List.length (written (snd run)) <= 1)%nat
  /\ (forall path dump, In (path, dump) (written (snd run)) ->
        path = buildWrapperMapFile ctx
        /\ version dump = 0
        /\ exists text parsed lenv len,
             data = Some text
             /\ JSON_parse text = Return parsed
             /\ length_of parsed = Return lenv
             /\ ToNumber StringToNumber Array_toString lenv = Return len
             /\ one_capture_per_index shlex_split ctx parsed len 0 (captures dump)).
Proof.
  intros run. subst run.
  destruct data as [text|]; [|cbn; split; [discriminate | split; [lia | intros p d []]]].
  rewrite on_read_eq.
  destruct (JSON_parse text) as [parsed|e] eqn:Hp;
    [|cbn; split; [reflexivity | split; [lia | intros p d []]]].
  destruct (loop_run ctx parsed (S (size parsed)) 0 []) as [Hw Hc].
  destruct (loop _ _ _ (S (size parsed)) ctx parsed 0%nat [] tt) as [[[captures|e] []] t];
    cbn [fst snd] in *.
  - rewrite !written_app, Hw. cbn [written app List.length In].
    split; [discriminate|]. split; [lia|].
    intros path dump [H|[]]. injection H as <- <-.
    split; [reflexivity|]. split; [reflexivity|].
    destruct (Hc captures eq_refl) as (new & lenv & len & Hnew & Hl & Hn & Hone).
    cbn [app] in Hnew. subst new.
    exists text, parsed, lenv, len. auto.
  - rewrite Hw. split; [reflexivity | split; [cbn; lia | intros p d []]].
Qed.

(** X20.  The conversion writes the dump in one piece or not at all: at
    most one file is written; when anything throws (the database is in no
    workspace folder, the text does not parse, the parsed value is [null] or
    claims a length it does not hold, an entry has neither arguments nor a
    command, the splitter fails) nothing is written; and a dump that is
    written goes to the dump file, has version 0 and holds exactly one
    capture for each index below the length of the parsed value, in order,
    each with the configured compiler and environment, the directory of its
    entry, and the first argument as its executable; for a database that is
    an array that is one capture for each entry.  The bound on the rounds of
    the loop is never what ends it. *)
Theorem convertCompilationDB_writes_whole_dump (w : World) :
  let run :=
    conversion join JSON_parse shlex_split StringToNumber Array_toString w tt in
  (List.length (written (snd run)) <= 1)%nat
  /\ (forall e, fst (fst run) = Throw e -> written (snd run) = [])
  /\ (forall path dump, In (path, dump) (written (snd run)) ->
        version dump = 0
        /\ exists ctx text parsed lenv len,
             fst (fst (convertCompilationDB join w tt)) = Return (Some ctx)
             /\ path = buildWrapperMapFile ctx
             /\ database_text w = Some text
             /\ JSON_parse text = Return parsed
             /\ length_of parsed = Return lenv
             /\ ToNumber StringToNumber Array_toString lenv = Return len
             /\ one_capture_per_index shlex_split ctx parsed len 0 (captures dump)
             /\ (forall items, parsed = JArray items ->
                   List.length (captures dump) = List.length items))
  /\ (forall ctx data rounds,
        (S (size data) <= rounds)%nat ->
        loop shlex_split StringToNumber Array_toString rounds ctx data 0 [] tt
        = loop shlex_split StringToNumber Array_toString (S (size data)) ctx data 0 [] tt).
Proof.
  intros run. subst run.
  assert (forall ctx data rounds,
            (S (size data) <= rounds)%nat ->
            loop shlex_split StringToNumber Array_toString rounds ctx data 0 [] tt
            = loop shlex_split StringToNumber Array_toString (S (size data)) ctx data 0 [] tt)
    as Hrounds.
  { intros ctx data rounds Hr. apply loop_rounds; [intros i Hi; lia | lia | lia]. }
  unfold conversion, bind.
  pose proof (convertCompilationDB_writes_nothing join w) as Hw0.
  destruct (convertCompilationDB join w tt) as [[[started|e] []] t0] eqn:E;
    cbn [fst snd] in *.
  - destruct started as [ctx|].
    + pose proof (on_read_run ctx (database_text w)) as H. cbv zeta in H.
      destruct (on_read _ _ _ _ ctx (database_text w) tt) as [[r []] t].
      cbn [fst snd] in *. rewrite written_app, Hw0. cbn [app].
      destruct H as (H1 & H2 & H3). split; [assumption|]. split; [assumption|].
      split; [|assumption].
      intros path dump Hin.
      destruct (H3 path dump Hin) as (Hpath & Hv & text & parsed & lenv & len & Ht & Hp & Hl & Hn & Hone).
      split; [assumption|]. exists ctx, text, parsed, lenv, len.
      repeat split; try assumption; try apply Hone.
      intros items ->. cbn [length_of] in Hl. injection Hl as <-.
      cbn [ToNumber] in Hn. injection Hn as <-.
      destruct Hone as (Hend & Hall & _). cbn [Nat.add] in Hend.
      rewrite below_nat in Hend. apply Nat.ltb_ge in Hend.
      destruct (captures dump) as [|c cs] eqn:Ec; cbn [List.length] in *; [lia|].
      specialize (Hall (List.length cs) ltac:(lia)). cbn [Nat.add] in Hall.
      rewrite below_nat in Hall. apply Nat.ltb_lt in Hall. lia.
    + cbn [ret fst snd]. rewrite app_nil_r, Hw0.
      split; [cbn; lia|]. split; [reflexivity|]. split; [intros p d []|assumption].
  - rewrite Hw0. split; [cbn; lia|]. split; [reflexivity|].
    split; [intros p d []|assumption].
Qed.

Lemma classic_text (v : value) : is_text v \/ ~ is_text v.
Proof.
  destruct v as [[| | |s| |]|]; try (right; intros [s' H]; discriminate).
  left. now exists s.
Qed.

Lemma lookup_snoc key k v fields :
  lookup key (fields ++ [(k, v)])
  = if jsstring_eqb k key then Some v else lookup key fields.
Proof.
  induction fields as [|[k0 v0] fields IH]; cbn [app lookup].
  - destruct (jsstring_eqb k key); reflexivity.
  - rewrite IH. destruct (jsstring_eqb k key); reflexivity.
Qed.

Lemma lookup_assign_same key text fields :
  lookup key (assign key text fields) = Some (JString text).
Proof.
  unfold assign. rewrite lookup_snoc.
  now rewrite (proj2 (JSFacts.jsstring_eqb_true key key) eq_refl).
Qed.

Lemma lookup_assign_other key key' text fields :
  jsstring_eqb key key' = false ->
  lookup key' (assign key text fields) = lookup key' fields.
Proof. intros H. unfold assign. now rewrite lookup_snoc, H. Qed.

Lemma array_includes items pattern :
  existsb (fun x => match x with
                    | JString s => jsstring_eqb s pattern
                    | _ => false
                    end) items = true
  <-> In (JString pattern) items.
Proof.
  rewrite existsb_exists. split.
  - intros (x & Hx & Hp). destruct x; try discriminate.
    apply JSFacts.jsstring_eqb_true in Hp. now subst.
  - intros H. exists (JString pattern). split; [assumption|].
    now apply JSFacts.jsstring_eqb_true.
Qed.

(** One of the two blocks that put the folder in place of the variable, on
    a property that is a string: it returns and leaves a string. *)
Lemma expand_variable_text key folder p u s :
  lookup key p = Some (JString s) ->
  exists p' u' s',
    expand_variable key folder (p, u) = Return (p', u')
    /\ lookup key p' = Some (JString s')
    /\ forall key', jsstring_eqb key key' = false -> lookup key' p' = lookup key' p.
Proof.
  intros H. unfold expand_variable. rewrite H. cbn [method_includes method_replace].
  destruct (truthy (Some (JString s))); [destruct (JSText.includes s _)|].
  - eexists _, _, _. split; [reflexivity|].
    split; [apply lookup_assign_same | intros k' Hk; now apply lookup_assign_other].
  - exists p, u, s. auto.
  - exists p, u, s. auto.
Qed.

(** The same block on a property that is not a string: it leaves the
    properties alone, or it throws. *)
Lemma expand_variable_other key folder p u :
  ~ is_text (lookup key p) ->
  (expand_variable key folder (p, u) = Return (p, u)
   /\ (truthy (lookup key p) = false
       \/ exists items,
            lookup key p = Some (JArray items)
            /\ ~ In (JString workspaceFolder_variable) items))
  \/ ((exists e, expand_variable key folder (p, u) = Throw e)
      /\ truthy (lookup key p) = true
      /\ forall items,
           lookup key p = Some (JArray items) ->
           In (JString workspaceFolder_variable) items).
Proof.
  intros Hn. unfold expand_variable.
  destruct (truthy (lookup key p)) eqn:Ht; [|left; auto].
  destruct (lookup key p) as [[|b|x|s|items|fields]|] eqn:E;
    cbn [method_includes method_replace];
    try (right; split; [eexists; reflexivity | split; [reflexivity | discriminate]]).
  - exfalso. apply Hn. now exists s.
  - destruct (existsb _ items) eqn:Ex.
    + right. split; [eexists; reflexivity|]. split; [reflexivity|].
      intros items' H. injection H as <-. now apply array_includes.
    + left. split; [reflexivity|]. right. exists items. split; [reflexivity|].
      intros Hin. apply array_includes in Hin. congruence.
Qed.

Lemma capture_environment_returns w compilerName :
  (exists environment,
      capture_environment join w
        (match setting_buildWrapperEnv w with Some l => l | None => [] end)
        compilerName = Return environment)
  <-> environment_ready w.
Proof.
  unfold capture_environment, environment_ready.
  destruct (setting_buildWrapperEnv w) as [[|x l]|].
  - destruct (process_env_PATH w) as [path|]; split.
    + intros _. right. discriminate.
    + intros _. eexists. reflexivity.
    + intros [en H]. discriminate.
    + intros [(x & l & H)|H]; [discriminate | now contradiction H].
  - split; [intros _; left; now exists x, l | intros _; eexists; reflexivity].
  - destruct (process_env_PATH w) as [path|]; split.
    + intros _. right. discriminate.
    + intros _. eexists. reflexivity.
    + intros [en H]. discriminate.
    + intros [(x & l & H)|H]; [discriminate | now contradiction H].
Qed.

Lemma keys_differ : jsstring_eqb build_wrapper_output_key cache_path_key = false.
Proof. reflexivity. Qed.

(** The settings part, step by step. *)
Lemma settings_eq w folder :
  workspacefolder w = Some folder ->
  settings join w tt
  = let compilerName :=
      match setting_buildWrapperCompiler w with Some s => s | None => js "clang" end in
    match capture_environment join w
            (match setting_buildWrapperEnv w with Some l => l | None => [] end)
            compilerName with
    | Throw e => (Throw e, tt, [])
    | Return environment =>
        let state :=
          if negb (truthy (lookup build_wrapper_output_key (analyzer_properties w)))
             && truthy (Some (JString (build_wrapper_output join w folder)))
          then (assign build_wrapper_output_key
                  (JSText.replace (build_wrapper_output join w folder)
                     workspaceFolder_variable folder)
                  (analyzer_properties w), true)
          else (analyzer_properties w, false) in
        match expand_variable build_wrapper_output_key folder state with
        | Throw e => (Throw e, tt, [])
        | Return state =>
            match expand_variable cache_path_key folder state with
            | Throw e => (Throw e, tt, [])
            | Return (p, u) =>
                match method_replace (lookup build_wrapper_output_key p)
                        workspaceFolder_variable folder with
                | Throw e =>
                    (Throw e, tt, if u then [UpdateAnalyzerProperties p] else [])
                | Return output =>
                    (Return (mkContext (compilationDatabaseFile w) compilerName
                               environment
                               (join output (js "build-wrapper-dump.json"))),
                     tt, if u then [UpdateAnalyzerProperties p] else [])
                end
            end
        end
    end.
Proof.
  intros Hf. unfold settings, bind, analyzer_properties, build_wrapper_output.
  rewrite Hf. cbn [ret]. cbv zeta.
  destruct (capture_environment join w _ _) as [en|e]; cbn [lift ret throw];
    [|reflexivity].
  match goal with
  | |- context [expand_variable build_wrapper_output_key folder ?s] =>
      destruct (expand_variable build_wrapper_output_key folder s)
        as [st1|e1]; cbn [lift ret throw]; [|reflexivity]
  end.
  destruct (expand_variable cache_path_key folder st1) as [[p u]|e2];
    cbn [lift ret throw]; [|reflexivity].
  destruct u; cbn [emit ret];
    destruct (method_replace _ _ _); reflexivity.
Qed.

(** The settings part returns exactly when the database is in a workspace
    folder, the environment can be made, and the two analyzer properties
    are of a kind that the string methods called on them accept. *)
Lemma settings_returns w :
  (exists ctx, fst (fst (settings join w tt)) = Return ctx)
  <-> exists folder,
        workspacefolder w = Some folder
        /\ environment_ready w /\ output_ready join w folder /\ cache_ready w.
Proof.
  destruct (workspacefolder w) as [folder|] eqn:Hf.
  2:{ split.
      - unfold settings, bind. rewrite Hf. intros [ctx H]. discriminate.
      - intros (folder & H & _). discriminate. }
  rewrite (settings_eq w folder Hf). cbv zeta.
  pose proof (capture_environment_returns w
                (match setting_buildWrapperCompiler w with
                 | Some s => s | None => js "clang" end)) as Henv.
  destruct (capture_environment join w _ _) as [en|e].
  2:{ split.
      - intros [ctx H]. discriminate.
      - intros (f & _ & Hready & _). apply Henv in Hready as [en' H]. discriminate. }
  assert (environment_ready w) as Hready by (apply Henv; now exists en).
  clear Henv.
  unfold output_ready, cache_ready.
  set (p0 := analyzer_properties w).
  set (out := build_wrapper_output join w folder).
  (* the property of the output after the first block *)
  assert (exists p1 u1,
            (if negb (truthy (lookup build_wrapper_output_key p0))
                && truthy (Some (JString out))
             then (assign build_wrapper_output_key
                     (JSText.replace out workspaceFolder_variable folder) p0, true)
             else (p0, false)) = (p1, u1)
            /\ lookup cache_path_key p1 = lookup cache_path_key p0
            /\ (is_text (lookup build_wrapper_output_key p1)
                <-> is_text (lookup build_wrapper_output_key p0)
                    \/ (truthy (lookup build_wrapper_output_key p0) = false
                        /\ out <> []))
            /\ (~ is_text (lookup build_wrapper_output_key p1) ->
                lookup build_wrapper_output_key p1 = lookup build_wrapper_output_key p0))
    as (p1 & u1 & -> & Hc1 & Ho1 & Hsame1).
  { destruct (truthy (lookup build_wrapper_output_key p0)) eqn:Ht; cbn [negb andb].
    - exists p0, false. split; [reflexivity|]. split; [reflexivity|].
      split; [|reflexivity].
      split; [now left | intros [H|[H _]]; [assumption | discriminate]].
    - destruct out as [|c out'] eqn:Eo; cbn [truthy].
      + exists p0, false. split; [reflexivity|]. split; [reflexivity|].
        split; [|reflexivity].
        split; [now left | intros [H|[_ H]]; [assumption | now contradiction H]].
      + eexists _, true. split; [reflexivity|].
        split; [apply lookup_assign_other, keys_differ|].
        rewrite lookup_assign_same.
        split; [|intros Hn; exfalso; apply Hn; eexists; reflexivity].
        split; [intros _; right; split; [reflexivity | discriminate]
               | intros _; eexists; reflexivity]. }
  split.
  - (* the settings part returned *)
    intros [ctx H]. exists folder. split; [reflexivity|]. split; [assumption|].
    destruct (expand_variable build_wrapper_output_key folder (p1, u1))
      as [[p2 u2]|e] eqn:E2; [|discriminate].
    destruct (expand_variable cache_path_key folder (p2, u2)) as [[p3 u3]|e] eqn:E3;
      [|discriminate].
    destruct (method_replace (lookup build_wrapper_output_key p3) _ _) as [o|e] eqn:E4;
      [|discriminate].
    (* the output is a string at the end, hence after the first block *)
    assert (is_text (lookup build_wrapper_output_key p3)) as Ht3.
    { unfold method_replace in E4.
      destruct (lookup build_wrapper_output_key p3) as [[| | |s| |]|]; try discriminate.
      now exists s. }
    assert (lookup build_wrapper_output_key p3 = lookup build_wrapper_output_key p2
            /\ (is_text (lookup cache_path_key p2) \/ p3 = p2)) as [H32 Hcache].
    { destruct (classic_text (lookup cache_path_key p2)) as [[s Hs]|Hn].
      - destruct (expand_variable_text cache_path_key folder p2 u2 s Hs)
          as (p' & u' & s' & Hr & _ & Hk).
        rewrite Hr in E3. injection E3 as <- <-.
        split; [|left; now exists s].
        apply Hk. reflexivity.
      - destruct (expand_variable_other cache_path_key folder p2 u2 Hn)
          as [[Hr _]|[[e He] _]]; rewrite E3 in *; [|discriminate].
        injection Hr as -> ->. split; [reflexivity | now right]. }
    assert (is_text (lookup build_wrapper_output_key p1)
            /\ lookup cache_path_key p2 = lookup cache_path_key p1) as [Ht1 Hc21].
    { destruct (classic_text (lookup build_wrapper_output_key p1)) as [[s Hs]|Hn].
      - split; [now exists s|].
        destruct (expand_variable_text build_wrapper_output_key folder p1 u1 s Hs)
          as (p' & u' & s' & Hr & _ & Hk).
        rewrite Hr in E2. injection E2 as <- <-. apply Hk, keys_differ.
      - destruct (expand_variable_other build_wrapper_output_key folder p1 u1 Hn)
          as [[Hr _]|[[e He] _]]; rewrite E2 in *; [|discriminate].
        injection Hr as -> ->. exfalso. apply Hn. now rewrite <- H32. }
    split; [now apply Ho1|].
    rewrite <- Hc1, <- Hc21.
    destruct (classic_text (lookup cache_path_key p2)) as [Hs|Hn]; [right; now left|].
    destruct (expand_variable_other cache_path_key folder p2 u2 Hn)
      as [[_ [Hfalse|Harr]]|[[e He] _]]; [now left | right; now right|].
    rewrite E3 in He. discriminate.
  - (* the conditions hold *)
    intros (f & Hfolder & _ & Hout & Hcache). injection Hfolder as <-.
    apply Ho1 in Hout as [s1 Hs1].
    destruct (expand_variable_text build_wrapper_output_key folder p1 u1 s1 Hs1)
      as (p2 & u2 & s2 & -> & Hs2 & Hk2).
    rewrite <- Hc1, <- (Hk2 cache_path_key keys_differ) in Hcache.
    assert (exists p3 u3 s3,
              expand_variable cache_path_key folder (p2, u2) = Return (p3, u3)
              /\ lookup build_wrapper_output_key p3 = Some (JString s3))
      as (p3 & u3 & s3 & -> & Hs3).
    { destruct Hcache as [Hfalse|[[s Hs]|(items & Hi & Hnot)]].
      - exists p2, u2, s2. split; [|assumption].
        unfold expand_variable. now rewrite Hfalse.
      - destruct (expand_variable_text cache_path_key folder p2 u2 s Hs)
          as (p' & u' & s' & Hr & _ & Hk).
        exists p', u', s2. split; [assumption|].
        rewrite (Hk build_wrapper_output_key eq_refl). assumption.
      - exists p2, u2, s2. split; [|assumption].
        unfold expand_variable. rewrite Hi. cbn [truthy method_includes].
        destruct (existsb _ items) eqn:Ex; [|reflexivity].
        apply array_includes in Ex. contradiction. }
    rewrite Hs3. cbn [method_replace]. eexists. reflexivity.
Qed.

(** X21.  The database is read, as the last thing that the function does,
    exactly when it exists, the settings part returns, and the dump file is
    missing or not newer; a dump file exactly as old as the database does
    not count as newer.  The settings part returns exactly when the database
    is in a workspace folder, the environment can be made, and the analyzer
    properties are of a kind that the string methods accept.  For a database
    that is in no workspace folder, and when neither the environment setting
    nor [PATH] is there, the promise of the function rejects with a
    [TypeError] and nothing is read. *)
Theorem convertCompilationDB_runs_unless_newer (w : World) :
  let run := convertCompilationDB join w tt in
  (In (ReadFile (compilationDatabaseFile w)) (snd run)
   <-> mtime w (compilationDatabaseFile w) <> None
       /\ exists ctx,
            fst (fst (settings join w tt)) = Return ctx
            /\ (mtime w (buildWrapperMapFile ctx) = None
                \/ exists dump_time database_time,
                     mtime w (buildWrapperMapFile ctx) = Some dump_time
                     /\ mtime w (compilationDatabaseFile w) = Some database_time
                     /\ dump_time <= database_time))
  /\ (In (ReadFile (compilationDatabaseFile w)) (snd run)
      <-> exists ctx t,
            run = (Return (Some ctx), tt,
                   t ++ [ConsoleTime; ReadFile (compilationDatabaseFile w)])
            /\ filter is_read t = [])
  /\ ((exists ctx, fst (fst (settings join w tt)) = Return ctx)
      <-> exists folder,
            workspacefolder w = Some folder
            /\ environment_ready w /\ output_ready join w folder /\ cache_ready w)
  /\ (mtime w (compilationDatabaseFile w) <> None ->
      workspacefolder w = None \/ ~ environment_ready w ->
      run = (Throw TypeError, tt, [])).
Proof.
  intros run. subst run.
  assert (filter is_read (snd (settings join w tt)) = []) as Hnoread
    by (destruct (settings_trace join w) as [->|[p ->]]; reflexivity).
  assert (~ In (ReadFile (compilationDatabaseFile w)) (snd (settings join w tt)))
    as Hnotin.
  { intros Hin.
    assert (In (ReadFile (compilationDatabaseFile w))
              (filter is_read (snd (settings join w tt)))) as Hin'
      by (apply filter_In; split; [assumption | reflexivity]).
    now rewrite Hnoread in Hin'. }
  split; [|split; [|split; [apply settings_returns|]]].
  - destruct (convertCompilationDB_cases join w)
      as [(ctx & Hr & Hdb & Hs & Hn & Ht)|(Hr & Ht & Hnot)].
    + rewrite Ht. split.
      * intros _. split; [assumption|]. exists ctx. split; [assumption|].
        now apply (dump_is_newer_false w ctx Hdb).
      * intros _. apply in_or_app. right. right. now left.
    + split.
      * intros Hin. exfalso. destruct Ht as [Ht|Ht]; rewrite Ht in Hin;
          [destruct Hin | now apply Hnotin].
      * intros [Hdb (ctx & Hs & Hfresh)]. exfalso. apply Hnot.
        split; [assumption|]. exists ctx. split; [assumption|].
        now apply (dump_is_newer_false w ctx Hdb).
  - destruct (convertCompilationDB_cases join w)
      as [(ctx & Hr & Hdb & Hs & Hn & Ht)|(Hr & Ht & Hnot)].
    + split.
      * intros _. exists ctx, (snd (settings join w tt)).
        split; [|assumption].
        destruct (convertCompilationDB join w tt) as [[r []] t].
        cbn [fst snd] in *. now subst.
      * intros _. rewrite Ht. apply in_or_app. right. right. now left.
    + split.
      * intros Hin. exfalso. destruct Ht as [Ht|Ht]; rewrite Ht in Hin;
          [destruct Hin | now apply Hnotin].
      * intros (ctx & t & Hrun & _). exfalso. apply (Hr ctx). now rewrite Hrun.
  - intros Hdb Hbad. unfold convertCompilationDB.
    destruct (mtime w (compilationDatabaseFile w)) as [d|]; [|now contradiction Hdb].
    unfold bind.
    destruct (workspacefolder w) as [folder|] eqn:Hf.
    + destruct Hbad as [Hbad|Hbad]; [discriminate|].
      rewrite (settings_eq w folder Hf). cbv zeta.
      pose proof (capture_environment_returns w
                    (match setting_buildWrapperCompiler w with
                     | Some s => s | None => js "clang" end)) as Henv.
      destruct (capture_environment join w _ _) as [en|e] eqn:Ec.
      * exfalso. apply Hbad, Henv. now exists en.
      * assert (e = TypeError) as ->.
        { revert Ec. unfold capture_environment.
          destruct (match setting_buildWrapperEnv w with Some l => l | None => [] end);
            [|discriminate].
          destruct (process_env_PATH w); [discriminate|]. intros H. now injection H as <-. }
        reflexivity.
    + unfold settings, bind. rewrite Hf. reflexivity.
Qed.

End Facts.

(** A parsed value [{length: 1}]: the loop asks for the entry at index 0,
    which is not there, and nothing is written. *)
Lemma convertCompilationDB_writes_whole_dump_witness :
  written (snd (conversion sample_join (fun _ => Return length_only_database)
                  sample_split (fun _ => NaN) (fun _ => Return [])
                  (sample_world None) tt))
  = [].
Proof.
  destruct (convertCompilationDB_writes_whole_dump sample_join
              (fun _ => Return length_only_database) sample_split
              (fun _ => NaN) (fun _ => Return []) (sample_world None))
    as (_ & H & _).
  apply (H TypeError). reflexivity.
Defined.

(** The sample database outside every workspace folder, and in its folder
    beside a dump file that is exactly as old. *)
Lemma convertCompilationDB_runs_unless_newer_witness :
  convertCompilationDB sample_join stray_world tt = (Throw TypeError, tt, [])
  /\ In (ReadFile (js "/w/compile_commands.json"))
        (snd (convertCompilationDB sample_join (sample_world (Some 100)) tt)).
Proof.
  split.
  - destruct (convertCompilationDB_runs_unless_newer sample_join stray_world)
      as (_ & _ & _ & H).
    apply H; [discriminate | now left].
  - destruct (convertCompilationDB_runs_unless_newer sample_join
                (sample_world (Some 100))) as (H & _).
    apply H. split; [discriminate|].
    exists (mkContext (js "/w/compile_commands.json") (js "clang")
              [js "PATH=/usr/bin"]
              (js "/w/cfamily-compilation-database/build-wrapper-dump.json")).
    split; [reflexivity|]. right. exists 100, 100.
    split; [reflexivity|]. split; [reflexivity | lia].
Defined.

End CompilationDBMore.

(** ** The environment of the captures *)

Module BuildEnvFacts.
Import BuildEnv.

Section Facts.

Variable join : jsstring -> jsstring -> jsstring.
Variable accessible : jsstring -> bool.

Lemma find_compiler_some compiler segments dir :
  find_compiler join accessible compiler segments = Some dir ->
  accessible (join dir compiler) = true
  /\ exists before after,
       segments = before ++ dir :: after
       /\ Forall (fun d => accessible (join d compiler) = false) before.
Proof.
  induction segments as [|d segments IH]; [discriminate|]. simpl.
  destruct (accessible (join d compiler)) eqn:E.
  - intros H. injection H as <-. split; [assumption|]. exists [], segments. auto.
  - intros H. destruct (IH H) as (Ha & before & after & -> & F).
    split; [assumption|]. exists (d :: before), after.
    split; [reflexivity | now constructor].
Qed.

Lemma find_compiler_none compiler segments :
  find_compiler join accessible compiler segments = None ->
  Forall (fun d => accessible (join d compiler) = false) segments.
Proof.
  induction segments as [|d segments IH]; [constructor|]. simpl.
  destruct (accessible (join d compiler)) eqn:E; [discriminate|].
  intros H. constructor; [assumption | now apply IH].
Qed.

(** X22.  The environment of the captures is the setting [buildWrapperEnv]
    when that is not empty, and [PATH] is not searched then.  Otherwise it
    is the single entry [PATH=dir] for the first directory of [PATH] in
    which the compiler can be read and run; and only when there is no such
    directory it is the whole environment of the process, one [KEY=VALUE]
    per variable. *)
Theorem environment_cases (buildWrapperEnv : list jsstring)
  (compiler : jsstring) (segments : list jsstring)
  (process_env : list (jsstring * jsstring)) :
  let result :=
    environment join accessible buildWrapperEnv compiler segments process_env in
  (buildWrapperEnv <> [] -> result = buildWrapperEnv)
  /\ (buildWrapperEnv = [] ->
      (exists dir before after,
          result = [assignment (js "PATH") dir]
          /\ segments = before ++ dir :: after
          /\ accessible (join dir compiler) = true
          /\ Forall (fun d => accessible (join d compiler) = false) before)
      \/ (Forall (fun d => accessible (join d compiler) = false) segments
          /\ result = map (fun kv => assignment (fst kv) (snd kv)) process_env
          /\ List.length result = List.length process_env)).
Proof.
  intros result. subst result. unfold environment. split.
  - destruct buildWrapperEnv; [contradiction | reflexivity].
  - intros ->.
    destruct (find_compiler join accessible compiler segments) as [dir|] eqn:E.
    + left. apply find_compiler_some in E as (Ha & before & after & -> & F).
      exists dir, before, after. auto.
    + right. apply find_compiler_none in E.
      split; [assumption|]. split; [reflexivity | apply length_map].
Qed.

End Facts.

End BuildEnvFacts.

(** ** The rule description panel *)

Module RulePanelFacts.
Import RulePanel RulePanelTrace.

Lemma open_panels_app live t1 t2 :
  open_panels live (t1 ++ t2) = open_panels (open_panels live t1) t2.
Proof.
  revert live. induction t1 as [|e t1 IH]; intros live; [reflexivity|].
  destruct e as [[|p]|[p|p|p]]; cbn [app open_panels]; apply IH.
Qed.

(** One step keeps the open panels equal to those the variable holds. *)
Lemma step_held st ev :
  match ev with
  | PanelDisposed p => existsb (Nat.eqb p) (held st) = true
  | _ => True
  end ->
  open_panels (held st) (inl ev :: map inr (snd (step st ev)))
  = held (fst (step st ev)).
Proof.
  unfold held. destruct st as [[q|] n]; destruct ev as [|p];
    cbn [step ruleDescriptionPanel created fst snd map open_panels app filter].
  - reflexivity.
  - cbn. rewrite orb_false_r. intros H. apply Nat.eqb_eq in H. subst q.
    now rewrite Nat.eqb_refl.
  - reflexivity.
  - discriminate.
Qed.

Lemma run_held evs : forall st,
  disposes_open_panels st (held st) evs = true ->
  open_panels (held st) (snd (run st evs)) = held (fst (run st evs)).
Proof.
  induction evs as [|ev evs IH]; intros st H; [reflexivity|].
  cbn [disposes_open_panels] in H. apply andb_true_iff in H as [Hev Hrest].
  assert (open_panels (held st) (inl ev :: map inr (snd (step st ev)))
          = held (fst (step st ev))) as Hstep.
  { apply step_held. destruct ev; [exact I | exact Hev]. }
  rewrite Hstep in Hrest. specialize (IH _ Hrest).
  cbn [run]. destruct (step st ev) as [st1 acts]. cbn [fst snd] in *.
  destruct (run st1 evs) as [st2 rest]. cbn [fst snd] in *.
  change (inl ev :: map inr acts ++ rest)
    with ((inl ev :: map inr acts) ++ rest).
  now rewrite open_panels_app, Hstep.
Qed.

(** X23.  The rule description panel is a singleton: as long as the editor
    reports the disposal of open panels only, the panels that are open after
    any sequence of requests and disposals are exactly the one that the
    variable [ruleDescriptionPanel] holds, so never more than one; a request
    creates a panel only when none is held, and always ends by revealing the
    panel it holds. *)
Theorem rule_description_panel_is_singleton (evs : list Event) :
  disposes_open_panels initial [] evs = true ->
  open_panels [] (snd (run initial evs)) = held (fst (run initial evs))
  /\ (List.length (open_panels [] (snd (run initial evs))) <= 1)%nat
  /\ (forall st,
        exists p,
          ruleDescriptionPanel (fst (step st ShowRuleDescription)) = Some p
          /\ last (snd (step st ShowRuleDescription)) (SetContent p) = Reveal p
          /\ (In (CreateWebviewPanel p) (snd (step st ShowRuleDescription))
              <-> ruleDescriptionPanel st = None)).
Proof.
  intros H. pose proof (run_held evs initial H) as E. cbn [held initial ruleDescriptionPanel] in E.
  split; [exact E|]. split.
  - rewrite E. unfold held. destruct (ruleDescriptionPanel _); simpl; lia.
  - intros st. destruct st as [[q|] n]; cbn [step ruleDescriptionPanel created].
    + exists q. cbn. split; [reflexivity|]. split; [reflexivity|].
      split; [intros [H0|[H0|[]]]; discriminate | discriminate].
    + exists n. cbn. split; [reflexivity|]. split; [reflexivity|].
      split; [reflexivity | intros _; now left].
Qed.

Lemma rule_description_panel_is_singleton_witness :
  open_panels []
    (snd (run initial
            [ShowRuleDescription; ShowRuleDescription; PanelDisposed 0%nat;
             ShowRuleDescription]))
  = [1%nat].
Proof.
  destruct (rule_description_panel_is_singleton
              [ShowRuleDescription; ShowRuleDescription; PanelDisposed 0%nat;
               ShowRuleDescription] eq_refl) as [H _].
  rewrite H. reflexivity.
Defined.

End RulePanelFacts.


(** ** Change events of a repository *)

Module ScmDispatchFacts.
Import Scm ScmEvents ScmDispatch ScmFacts ScmMore.

Local Open Scope js_scope.










End ScmDispatchFacts.
